(** * flax_rl: checkpoint saver, update and experience pipelines,
      vectorised environment pool and target-network updates.

    A shallow embedding of the Python sources

      - [rl_tools/save.py]                   (module [Save])
      - [rl_tools/algos/pipeline.py]         (module [Pipeline])
      - [rl_tools/envs/wrappers/vector.py]   (module [Vector])
      - [rl/modules/modules.py]              (modules [Train], [PolicyValue])
      - [rl/modules/policy_value.py]         (module [PolicyValue])
      - [rl/algos/td3.py]                    (module [TD3])
      - [rl_tools/algos/named/sac.py]        (module [SAC])
      - [rl/algos/dqn.py]                    (module [DQN])

    Python exceptions are results of type [result]; objects that Python
    mutates in place (the saver context, the caller's module list, the
    pipes of the pool) are threaded explicitly through the functions that
    touch them. *)

From Stdlib Require Import ZArith List Lia Ascii.
From stdpp Require Import base option list vector strings gmap.

Open Scope Z_scope.

(** ** Exceptions *)

Inductive exn : Type :=
| ZeroDivisionError
| KeyError (k : string)
| IndexError
| ValueError
| NotImplementedError
| BrokenPipeError
| EOFError
| AttributeError
| OverflowError
| Blocked.

(** [Blocked] is not an exception: it stands for a call that waits for
    ever on an empty pipe. *)

Inductive result (A : Type) : Type :=
| Ok (a : A)
| Raise (e : exn).

Arguments Ok {A} a.
Arguments Raise {A} e.

(** Sequencing: the first exception ends the computation.  stdpp's
    [x ← r; k] notation is used for it. *)
#[global] Instance result_ret : MRet result := λ A a, Ok a.
#[global] Instance result_bind : MBind result := λ A B k r,
  match r with
  | Ok a => k a
  | Raise e => Raise e
  end.

#[global] Instance result_fmap : FMap result := λ A B f r,
  match r with
  | Ok a => Ok (f a)
  | Raise e => Raise e
  end.

(** A [for] loop over [l] that threads [a] and stops at the first
    exception. *)
Fixpoint foldlM {A B} (f : A → B → result A) (a : A) (l : list B) : result A :=
  match l with
  | [] => Ok a
  | x :: l => a' ← f a x; foldlM f a' l
  end.

#[global] Instance Z_divide_dec : RelDecision Z.divide.
Proof.
  intros a b.
  destruct ((b =? 0) || negb (a =? 0) && (b mod a =? 0)) eqn:E;
    [left|right]; destruct (Z.BoolSpec_divide a b); congruence.
Defined.

(** * rl_tools/save.py *)

Module Save.

Section SaverContext.

(** The checkpointed value ([ckpt: dict[str, Any]], a train state). *)
Variable State : Type.

(** [Saver] wraps an orbax [CheckpointManager].  The manager is an
    external collaborator; it is represented by the checkpoints that it
    holds, oldest first. *)
Record Saver : Type := mkSaver {
  ckpt_manager : list (Z * State)
}.

(** [ckpt_manager.latest_step()]: the highest step saved so far. *)
Definition latest_step (self : Saver) : option Z :=
  match ckpt_manager self with
  | [] => None
  | (s, _) :: rest => Some (foldl Z.max s (fst <$> rest))
  end.

(** [ckpt_manager.restore(step, items=base)]: the tree stored for [step];
    orbax fails when the step does not exist. *)
Definition manager_restore (self : Saver) (step : option Z) : result State :=
  match step with
  | None => Raise ValueError
  | Some s =>
      match list_find (λ p, fst p = s) (ckpt_manager self) with
      | Some (_, (_, ckpt)) => Ok ckpt
      | None => Raise ValueError
      end
  end.

Definition restore_latest_step (self : Saver) (base_state_dict : State)
  : result (option Z * State) :=
  let step := latest_step self in
  ckpt ← manager_restore self step;
  Ok (step, ckpt).

Record SaverContext : Type := mkSaverContext {
  saver : Saver;
  save_frequency : Z;
  cur_step : Z;
  cur_state : option State
}.

(** [SaverContext.__init__] *)
Definition __init__ (saver : Saver) (save_frequency : Z) : SaverContext :=
  {| saver := saver; save_frequency := save_frequency;
     cur_step := 0; cur_state := None |}.

(** [ckpt_manager.save(step, ckpt, save_kwargs=...)] belongs to orbax:
    what it makes of the checkpoints that the manager holds, and whether
    it returns or raises, is the collaborator's business. *)
Variable manager_save :
  list (Z * State) → Z → State → list (Z * State) * result unit.

(** [Saver.save] hands the step and the checkpoint to the manager. *)
Definition save (self : Saver) (step : Z) (ckpt : State)
  : Saver * result unit :=
  let out := manager_save (ckpt_manager self) step ckpt in
  ({| ckpt_manager := out.1 |}, out.2).

(** [SaverContext.update].  [step % self.save_frequency] raises
    [ZeroDivisionError] when the frequency is zero; Python's [%] on
    integers is the floored remainder, which is [Z.modulo].  An exception
    of [save] leaves the recorded pair in place. *)
Definition update (self : SaverContext) (step : Z) (state : State)
  : SaverContext * result unit :=
  let self := {| saver := saver self; save_frequency := save_frequency self;
                 cur_step := step; cur_state := Some state |} in
  if save_frequency self <? 0 then (self, Ok tt)
  else if save_frequency self =? 0 then (self, Raise ZeroDivisionError)
  else if negb (step mod save_frequency self =? 0) then (self, Ok tt)
  else
    let out := save (saver self) step state in
    ({| saver := out.1; save_frequency := save_frequency self;
        cur_step := cur_step self; cur_state := cur_state self |}, out.2).

(** [SaverContext.__exit__] *)
Definition __exit__ (self : SaverContext) : SaverContext * result unit :=
  match cur_state self with
  | None => (self, Ok tt)
  | Some st =>
      let out := save (saver self) (cur_step self) st in
      ({| saver := out.1; save_frequency := save_frequency self;
          cur_step := cur_step self; cur_state := cur_state self |}, out.2)
  end.

(** A [with SaverContext(...) as s:] block whose body calls
    [s.update] on each element of [calls] in turn.  The first exception
    ends the body; [__exit__] runs in either case, and an exception that
    it raises replaces the one of the body. *)
Fixpoint body (self : SaverContext) (calls : list (Z * State))
  : SaverContext * result unit :=
  match calls with
  | [] => (self, Ok tt)
  | (step, state) :: rest =>
      match update self step state with
      | (self', Ok _) => body self' rest
      | (self', Raise e) => (self', Raise e)
      end
  end.

Definition with_block (sv : Saver) (f : Z) (calls : list (Z * State))
  : SaverContext * result unit :=
  let '(self, r) := body (__init__ sv f) calls in
  let '(self, r') := __exit__ self in
  (self, match r' with Raise e => Raise e | Ok _ => r end).

(** [save] called on each pair of [calls] in turn, up to the first call
    that raises. *)
Fixpoint save_each (sv : Saver) (calls : list (Z * State))
  : Saver * result unit :=
  match calls with
  | [] => (sv, Ok tt)
  | (step, state) :: rest =>
      match save sv step state with
      | (sv', Ok _) => save_each sv' rest
      | (sv', Raise e) => (sv', Raise e)
      end
  end.

Definition due (f step : Z) : bool := (0 <? f) && (step mod f =? 0).

(** A manager for the examples: it skips a step that is not above the
    latest one it holds, refuses a negative step and stores any other. *)
Definition example_manager_save (held : list (Z * State)) (step : Z)
    (ckpt : State) : list (Z * State) * result unit :=
  match latest_step (mkSaver held) with
  | Some s =>
      if step <=? s then (held, Ok tt)
      else if step <? 0 then (held, Raise ValueError)
      else (held ++ [(step, ckpt)], Ok tt)
  | None =>
      if step <? 0 then (held, Raise ValueError)
      else (held ++ [(step, ckpt)], Ok tt)
  end.

End SaverContext.

Arguments mkSaver {State} _.
Arguments ckpt_manager {State} _.
Arguments mkSaverContext {State} _ _ _ _.
Arguments save {State} _ _ _ _ : simpl never.
Arguments latest_step {State} _.
Arguments restore_latest_step {State} _ _.
Arguments saver {State} _.
Arguments save_frequency {State} _.
Arguments cur_step {State} _.
Arguments cur_state {State} _.
Arguments __init__ {State} _ _.
Arguments update {State} _ _ _ _.
Arguments __exit__ {State} _ _.
Arguments body {State} _ _ _.
Arguments with_block {State} _ _ _ _.
Arguments save_each {State} _ _ _.
Arguments example_manager_save {State} _ _ _.

End Save.

(** * jax.random *)

(** The PRNG is an external collaborator: [split key num] is
    [jax.random.split(key, num)], an array of [num] keys. *)
Class PRNG (Key : Type) : Type := split : Key → ∀ num : nat, vec Key num.

(** The key obtained from [key] by following [path]: each step [(num, i)]
    takes component [i] of a [num]-way split (the key itself when [i] is
    out of range). *)
Definition derive `{PRNG Key} (key : Key) (path : list (nat * nat)) : Key :=
  foldl (λ k step, default k (vec_to_list (split k step.1) !! step.2)) key path.

Arguments derive : simpl never.

(** The free PRNG: a key is the path of splits that leads to it, so
    distinct derivations give distinct keys. *)
Definition path_split (key : list (nat * nat)) (num : nat)
  : vec (list (nat * nat)) num :=
  fun_to_vec (λ i : fin num, key ++ [(num, fin_to_nat i)]).

#[global] Instance path_prng : PRNG (list (nat * nat)) := path_split.

(** * rl_tools/algos/pipeline.py *)

Module Pipeline.

Section UpdatePipeline.

Context {Key : Type} `{!PRNG Key}.
Context {MState Batch InfoVal : Type}.

(** Diagnostics: a [dict] from names to values. *)
Abbreviation Info := (gmap string InfoVal).

(** [UpdateModule]: a frozen dataclass; [update_fn] may raise. *)
Record UpdateModule : Type := mkUpdateModule {
  update_fn : MState → Key → Batch → result (MState * Info);
  state : MState
}.

(** [module.replace(state=state)] builds a new module. *)
Definition replace (module : UpdateModule) (state : MState) : UpdateModule :=
  {| update_fn := update_fn module; state := state |}.

(** The [for i, module in enumerate(update_modules)] loop.  The list
    iterator reads entry [i] of the list object on each round and stops
    when [i] is past its end; [n] bounds the number of rounds.  The first
    component of the result is the content of the list object when the
    loop ends, normally or by an exception. *)
Fixpoint update_loop (n i : nat) (update_modules : list UpdateModule)
    (key : Key) (batch : Batch) (info : Info)
  : list UpdateModule * result Info :=
  match n with
  | O => (update_modules, Ok info)
  | S n =>
      match update_modules !! i with
      | None => (update_modules, Ok info)
      | Some module =>
          let keys := split key 2 in
          let key := keys !!! 0%fin in
          let _key := keys !!! 1%fin in
          match update_fn module (state module) _key batch with
          | Raise e => (update_modules, Raise e)
          | Ok (state, module_info) =>
              update_loop n (S i) (<[i := replace module state]> update_modules)
                key batch (module_info ∪ info)
          end
      end
  end.

(** [update_pipeline].  [update_modules] is the caller's list object: the
    function assigns into it and returns that same object, so the first
    component (what the caller's list holds after the call) and the list
    inside a normal return value coincide.  [info |= module_info] lets
    the right operand win, which is the left-biased [module_info ∪ info]. *)
Definition update_pipeline (update_modules : list UpdateModule)
    (key : Key) (batch : Batch)
  : list UpdateModule * result (list UpdateModule * Info) :=
  let '(update_modules', r) :=
    update_loop (length update_modules) 0 update_modules key batch ∅ in
  (update_modules', info ← r; Ok (update_modules', info)).

(** The key carried into round [i] and the sub-seed handed to stage [i]. *)
Definition carried_key (key : Key) (i : nat) : Key :=
  derive key (replicate i (2, 0)%nat).

Definition stage_seed (key : Key) (i : nat) : Key :=
  derive key (replicate i (2, 0)%nat ++ [(2, 1)%nat]).

(** The merge of a sequence of diagnostics in which later entries win. *)
Definition merge_info (infos : list Info) : Info :=
  foldl (λ acc module_info, module_info ∪ acc) ∅ infos.

(** Stages [0 .. length outs - 1] of [rest] succeed with results [outs]. *)
Definition stages_ok (rest : list UpdateModule) (key : Key) (batch : Batch)
    (outs : list (MState * Info)) : Prop :=
  ∀ j module, (j < length outs)%nat → rest !! j = Some module →
    ∃ o, outs !! j = Some o ∧
      update_fn module (state module)
        (stage_seed key j) batch = Ok o.

(** Later diagnostics win: the merged value of a name is the value in
    the last dictionary that has the name. *)
Definition last_reported (infos : list Info) (k : string)
    (v : InfoVal) : Prop :=
  ∃ j info_j, infos !! j = Some info_j ∧ info_j !! k = Some v ∧
    ∀ j' info', (j < j')%nat → infos !! j' = Some info' → info' !! k = None.

End UpdatePipeline.

Arguments UpdateModule : clear implicits.

Section ExperiencePipeline.

Context {Key : Type} `{!PRNG Key}.
Context {TState Exp Agent Raw : Type}.

(** The key argument of a stage: a key, or the slice of [keys[None]]
    along axis 1, an array holding one key. *)
Inductive KeyArg : Type :=
| key_array (k : Key)
| key_row (k : Key).

(** [ExperienceTransform] *)
Record ExperienceTransform : Type := mkExperienceTransform {
  process_experience_fn : TState → KeyArg → Exp → Exp;
  transform_state : TState
}.

(** Shapes of the data per regime.  An array of shape [T, n, ...] is
    given by its [n] slices along axis 1; a dict keyed by agent is given
    by its items in iteration order.  [Exp] is one experience tuple with
    leading axis [T]. *)
Definition experiences_of (vectorized parallel : bool) : Type :=
  match parallel, vectorized with
  | true, true => list (Agent * list Exp)
  | true, false => list (Agent * Exp)
  | false, true => list Exp
  | false, false => Exp
  end.

(** External collaborators.  [stack_experiences] is
    [rl_tools.buffer.stack_experiences].  [flatten_axis1] stacks the
    results of [vmap] along axis 1 and reshapes [T, n, ...] to
    [T * n, ...].  [stack_and_reshape] and [concat_and_reshape] are the
    local functions of these names mapped over the values of the dict
    that [jax.tree_map] returns, in the order in which that dict lists
    its agents. *)
Variable stack_experiences :
  ∀ vectorized parallel, list Raw → experiences_of vectorized parallel.
Variable flatten_axis1 : list Exp → Exp.
Variable stack_and_reshape : list (Agent * Exp) → Exp.
Variable concat_and_reshape : list (Agent * list Exp) → Exp.

(** The inner [process_experience_fn]: every stage receives the same key. *)
Definition process_experience (experience_transforms : list ExperienceTransform)
    (key : KeyArg) (experience : Exp) : Exp :=
  foldl (λ experience transform,
           process_experience_fn transform (transform_state transform)
             key experience)
        experience experience_transforms.

(** [jax.vmap(process_experience_fn, in_axes=1, out_axes=1)(keys[None], ...)]. *)
Definition vmap_axis1 (experience_transforms : list ExperienceTransform)
    (keys : list Key) (slices : list Exp) : list Exp :=
  zip_with (λ k x, process_experience experience_transforms (key_row k) x)
    keys slices.

(** The key loop of the [parallel and vectorized] branch. *)
Fixpoint agent_env_keys (key : Key) (items : list (Agent * list Exp))
  : list (Agent * list Key) :=
  match items with
  | [] => []
  | (agent, value) :: rest =>
      let _keys := split key (S (length value)) in
      (agent, tail (vec_to_list _keys))
        :: agent_env_keys (_keys !!! 0%fin) rest
  end.

(** The key loop of the [parallel] branch. *)
Fixpoint agent_keys (key : Key) (items : list (Agent * Exp))
  : list (Agent * Key) :=
  match items with
  | [] => []
  | (agent, value) :: rest =>
      let ks := split key 2 in
      (agent, ks !!! 1%fin) :: agent_keys (ks !!! 0%fin) rest
  end.

(** [process_experience_pipeline_fn], for the flags given to the factory. *)
Definition process_experience_pipeline_fn (vectorized parallel : bool)
    (experience_transforms : list ExperienceTransform) (key : Key)
    (experiences : experiences_of vectorized parallel + list Raw) : Exp :=
  let experiences :=
    match experiences with
    | inr l => stack_experiences vectorized parallel l
    | inl e => e
    end in
  match parallel, vectorized
    return experiences_of vectorized parallel → Exp with
  | true, true => λ experiences,
      let keys := agent_env_keys key experiences in
      let processed_experiences :=
        zip_with (λ ks item,
                    (item.1, vmap_axis1 experience_transforms ks.2 item.2))
          keys experiences in
      concat_and_reshape processed_experiences
  | true, false => λ experiences,
      let keys := agent_keys key experiences in
      let processed_experiences :=
        zip_with (λ k item,
                    (item.1,
                     process_experience experience_transforms (key_array k.2)
                       item.2))
          keys experiences in
      stack_and_reshape processed_experiences
  | false, true => λ experiences,
      let keys := vec_to_list (split key (length experiences)) in
      flatten_axis1 (vmap_axis1 experience_transforms keys experiences)
  | false, false => λ experiences,
      process_experience experience_transforms (key_array key) experiences
  end experiences.

(** The sub-seeds consumed by the independent invocations, in the order
    in which the pipeline assigns them. *)
Definition sub_seeds (vectorized parallel : bool) (key : Key)
    (experiences : experiences_of vectorized parallel) : list Key :=
  match parallel, vectorized
    return experiences_of vectorized parallel → list Key with
  | true, true => λ experiences,
      concat ((agent_env_keys key experiences).*2)
  | true, false => λ experiences, (agent_keys key experiences).*2
  | false, true => λ experiences,
      vec_to_list (split key (length experiences))
  | false, false => λ _, [key]
  end experiences.

(** Where each of these sub-seeds sits in the tree of splits below the
    input seed. *)
Fixpoint agent_env_paths (pre : list (nat * nat)) (sizes : list nat)
  : list (list (nat * nat)) :=
  match sizes with
  | [] => []
  | n :: rest =>
      ((λ e, pre ++ [(S n, S e)]) <$> seq 0 n)
        ++ agent_env_paths (pre ++ [(S n, 0%nat)]) rest
  end.

Definition seed_paths (vectorized parallel : bool)
    (experiences : experiences_of vectorized parallel)
  : list (list (nat * nat)) :=
  match parallel, vectorized
    return experiences_of vectorized parallel → list (list (nat * nat)) with
  | true, true => λ experiences,
      agent_env_paths [] ((λ item, length item.2) <$> experiences)
  | true, false => λ experiences,
      (λ j, replicate j (2, 0)%nat ++ [(2, 1)%nat]) <$> seq 0 (length experiences)
  | false, true => λ experiences,
      (λ e, [(length experiences, e)]) <$> seq 0 (length experiences)
  | false, false => λ _, [[]]
  end experiences.

(** The data handed to each independent invocation, in the same order,
    and the form in which an invocation receives its sub-seed. *)
Definition invocations (vectorized parallel : bool)
    (experiences : experiences_of vectorized parallel) : list Exp :=
  match parallel, vectorized
    return experiences_of vectorized parallel → list Exp with
  | true, true => λ experiences, concat (experiences.*2)
  | true, false => λ experiences, experiences.*2
  | false, true => λ experiences, experiences
  | false, false => λ experiences, [experiences]
  end experiences.

Definition invocation_key (vectorized : bool) (k : Key) : KeyArg :=
  if vectorized then key_row k else key_array k.

(** The results [outs] of the invocations, given back to their agents:
    each agent gets as many as it has environment slices. *)
Fixpoint regroup (items : list (Agent * list Exp)) (outs : list Exp)
  : list (Agent * list Exp) :=
  match items with
  | [] => []
  | (agent, value) :: rest =>
      (agent, take (length value) outs)
        :: regroup rest (drop (length value) outs)
  end.

(** How the pipeline combines the results [outs] of the invocations. *)
Definition combine (vectorized parallel : bool)
    (experiences : experiences_of vectorized parallel) (outs : list Exp) : Exp :=
  match parallel, vectorized
    return experiences_of vectorized parallel → Exp with
  | true, true => λ experiences, concat_and_reshape (regroup experiences outs)
  | true, false => λ experiences, stack_and_reshape (zip experiences.*1 outs)
  | false, true => λ _, flatten_axis1 outs
  | false, false => λ experiences, default experiences (head outs)
  end experiences.

End ExperiencePipeline.

Arguments ExperienceTransform : clear implicits.
Arguments KeyArg : clear implicits.

(** Three concrete update modules over integer states and batches, run
    with the free PRNG: one adds the batch to its state, one doubles its
    state, one always raises. *)
Definition add_batch : UpdateModule (list (nat * nat)) Z Z Z :=
  {| update_fn := λ s _ b, Ok (s + b, {[ "loss" := s ]});
     state := 0 |}.

Definition double : UpdateModule (list (nat * nat)) Z Z Z :=
  {| update_fn := λ s _ b, Ok (2 * s, {[ "loss" := b; "norm" := s ]});
     state := 5 |}.

Definition failing : UpdateModule (list (nat * nat)) Z Z Z :=
  {| update_fn := λ _ _ _, Raise ValueError;
     state := 0 |}.

(** Two concrete experience transforms over arrays of integers, run with
    the free PRNG: one adds to every entry its state times the index of
    the last split that led to its key, one doubles every entry. *)
Definition key_index (key : KeyArg (list (nat * nat))) : Z :=
  match key with
  | key_array k | key_row k => from_option (λ step, Z.of_nat step.2) 0 (last k)
  end.

Definition add_key_index : ExperienceTransform (list (nat * nat)) Z (list Z) :=
  {| process_experience_fn := λ s key e, (λ x, x + s * key_index key) <$> e;
     transform_state := 100 |}.

Definition double_entries : ExperienceTransform (list (nat * nat)) Z (list Z) :=
  {| process_experience_fn := λ _ _ e, (λ x, 2 * x) <$> e;
     transform_state := 0 |}.

(** Collaborators for the examples: arrays are lists of entries, and
    nothing is known of raw experiences, which stack to empty data. *)
Definition no_experiences (vectorized parallel : bool) (raw : list unit)
  : experiences_of (Exp:=list Z) (Agent:=string) vectorized parallel :=
  match parallel, vectorized
    return experiences_of (Exp:=list Z) (Agent:=string) vectorized parallel with
  | true, true => []
  | true, false => []
  | false, true => []
  | false, false => []
  end.

Definition concat_slices (slices : list (list Z)) : list Z := concat slices.

Definition concat_agents (items : list (string * list Z)) : list Z :=
  concat items.*2.

Definition concat_agent_slices (items : list (string * list (list Z)))
  : list Z :=
  concat (items ≫= snd).

End Pipeline.

(** * rl_tools/envs/wrappers/vector.py *)

Module Vector.

(** ** Dicts with string keys, in iteration order *)

Section Dict.

Context {V : Type}.

Fixpoint dict_get (d : list (string * V)) (k : string) : option V :=
  match d with
  | [] => None
  | (k', v) :: d => if decide (k' = k) then Some v else dict_get d k
  end.

(** [d[k] = v]: an existing key keeps its place, a new key goes last. *)
Fixpoint dict_set (d : list (string * V)) (k : string) (v : V)
  : list (string * V) :=
  match d with
  | [] => [(k, v)]
  | (k', v') :: d =>
      if decide (k' = k) then (k, v) :: d else (k', v') :: dict_set d k v
  end.

Definition dict_keys (d : list (string * V)) : list string := d.*1.

End Dict.

(** [d[k]] on a dict keyed by agent. *)
Definition getitem {A} (d : gmap string A) (k : string) : result A :=
  match d !! k with
  | Some a => Ok a
  | None => Raise (KeyError k)
  end.

(** [any(d.values())] *)
Definition any_values (d : gmap string bool) : bool :=
  bool_decide (map_Exists (λ _ b, b = true) d).

(** [f"_{k}"] *)
Definition mask_key (k : string) : string := String "_"%char k.

(** The start method of [multiprocessing].  The pool creates all its
    pipes before it starts the first worker.  With [fork], the default on
    Linux, every worker therefore inherits both ends of all the pipes and
    closes only the parent end of its own; with [spawn] and [forkserver]
    a worker gets the two ends of its own pipe and no other. *)
Class StartMethod : Type := fork : bool.

Section Vector.

(** Observations, rewards, actions, floats and space descriptions are
    opaque to the pool; agents are named by strings. *)
Context {Obs Rew Act Float Space : Type}.
Context `{!StartMethod}.

(** ** Python values found in info dicts *)

#[warnings="-register-all"]
Inductive pyval : Type :=
| py_none
| py_bool (b : bool)
| py_int (z : Z)
| py_float (x : Float)
| py_np (name : string) (z : Z)
| py_str (s : string)
| py_obs (o : gmap string Obs)
| py_info (d : list (string * pyval)).

(** [type(v)], as far as [_init_info_arrays] tells types apart:
    [py_np name _] is a scalar of the [np.number] subclass [name]. *)
Inductive pytype : Type :=
| type_bool
| type_int
| type_float
| type_np_number (name : string)
| type_other.

Definition type_of (v : pyval) : pytype :=
  match v with
  | py_bool _ => type_bool
  | py_int _ => type_int
  | py_float _ => type_float
  | py_np name _ => type_np_number name
  | py_none | py_str _ | py_obs _ | py_info _ => type_other
  end.

(** ** numpy arrays of one dimension *)

Inductive np_dtype : Type :=
| np_bool
| np_int
| np_float
| np_number (name : string)
| np_object.

Record ndarray : Type := mkArray {
  dtype : np_dtype;
  data : list pyval
}.

(** numpy is an external collaborator.  [float_zero] is [0.0], and
    [np_cast dt v] is the element that [a[i] = v] stores in an array [a]
    of dtype [dt], or the exception the assignment raises. *)
Variable float_zero : Float.
Variable np_cast : np_dtype → pyval → result pyval.

(** The elements of [np.zeros(n, dtype)]; for [dtype=object] the code
    overwrites them with [None]. *)
Definition np_zero (dt : np_dtype) : pyval :=
  match dt with
  | np_bool => py_bool false
  | np_int => py_int 0
  | np_float => py_float float_zero
  | np_number name => py_np name 0
  | np_object => py_none
  end.

Definition np_zeros (n : nat) (dt : np_dtype) : ndarray :=
  {| dtype := dt; data := replicate n (np_zero dt) |}.

(** [a[i] = v] *)
Definition setitem (a : ndarray) (i : nat) (v : pyval) : result ndarray :=
  v' ← np_cast (dtype a) v;
  if decide (i < length (data a))%nat
  then Ok {| dtype := dtype a; data := <[i := v']> (data a) |}
  else Raise IndexError.

(** ** The environment collaborator *)

(** One reply of [env.step]: observation, reward, terminated, truncated
    and info. *)
Definition StepResult : Type :=
  gmap string Obs * gmap string Rew * gmap string bool * gmap string bool
  * list (string * pyval).

(** A PettingZoo [ParallelEnv]; [step] and [reset] can raise. *)
Class ParallelEnv (Env : Type) : Type := {
  env_reset : Env → result (Env * (gmap string Obs * list (string * pyval)));
  env_step : Env → option (gmap string Act) → result (Env * StepResult);
  env_agents : Env → list string;
  env_num_agents : Env → nat;
  env_observation_space : Env → string → Space;
  env_action_space : Env → string → Space;
  env_close : Env → Env
}.

Context {Env : Type} `{!ParallelEnv Env}.

(** ** worker *)

Inductive reply : Type :=
| reply_agents (agents : list string)
| reply_num_agents (n : nat)
| reply_spaces (observation_spaces action_spaces : gmap string Space)
| reply_step (result : StepResult) (success : bool)
| reply_reset (r : gmap string Obs * list (string * pyval)).

(** What one round of the worker loop does after [child_conn.recv()]. *)
Inductive round : Type :=
| sends (r : reply)
| breaks
| raises (e : exn).

Definition worker_round (env : Env) (cmd : string)
    (data : option (gmap string Act)) : Env * round :=
  if decide (cmd = "close") then (env_close env, breaks)
  else if decide (cmd = "get_agents") then
    (env, sends (reply_agents (env_agents env)))
  else if decide (cmd = "get_num_agents") then
    (env, sends (reply_num_agents (env_num_agents env)))
  else if decide (cmd = "get_spaces") then
    let observation_spaces :=
      list_to_map ((λ agent, (agent, env_observation_space env agent))
                     <$> env_agents env) in
    let action_spaces :=
      list_to_map ((λ agent, (agent, env_action_space env agent))
                     <$> env_agents env) in
    (env, sends (reply_spaces observation_spaces action_spaces))
  else if decide (cmd = "step") then
    match env_step env data with
    | Raise e => (env, raises e)
    | Ok (env, (observation, reward, terminated, truncated, info)) =>
        if any_values terminated || any_values truncated then
          let old_observation := observation in
          let old_info := info in
          match env_reset env with
          | Raise e => (env, raises e)
          | Ok (env, (observation, info)) =>
              let info := dict_set info "final_observation" (py_obs old_observation) in
              let info := dict_set info "final_info" (py_info old_info) in
              (env, sends (reply_step
                             (observation, reward, terminated, truncated, info) true))
          end
        else
          (env, sends (reply_step
                         (observation, reward, terminated, truncated, info) true))
    end
  else if decide (cmd = "reset") then
    match env_reset env with
    | Raise e => (env, raises e)
    | Ok (env, r) => (env, sends (reply_reset r))
    end
  else (env, raises NotImplementedError).

(** ** A worker process seen through its pipe *)

(** A worker owns its environment and answers the commands in the order
    in which they were sent, whatever the parent does meanwhile; its run
    is therefore given by handling each command when it is sent and
    queueing the reply until the parent receives it. *)
Inductive status : Type :=
| running
| exited
| crashed (e : exn).

Record Connection : Type := mkConnection {
  worker_env : Env;
  worker_status : status;
  unread : list reply
}.

Definition is_running (conn : Connection) : bool :=
  match worker_status conn with
  | running => true
  | _ => false
  end.

(** Whether the worker end of a pipe is open in one of the workers behind
    [conns]: under [fork] every live worker holds it. *)
Definition held (conns : list Connection) : bool :=
  fork && existsb is_running conns.

(** [conn.send((cmd, data))], where [held] tells whether a process other
    than the worker of [conn] holds the worker end of the pipe.  A
    message for a worker that is gone is lost in the pipe when another
    process keeps the pipe open, and breaks the pipe otherwise. *)
Definition send_on (held : bool) (conn : Connection) (cmd : string)
    (data : option (gmap string Act)) : result Connection :=
  match worker_status conn with
  | running =>
      let '(env, r) := worker_round (worker_env conn) cmd data in
      Ok match r with
         | sends r =>
             {| worker_env := env; worker_status := running;
                unread := unread conn ++ [r] |}
         | breaks =>
             {| worker_env := env; worker_status := exited;
                unread := unread conn |}
         | raises e =>
             {| worker_env := env; worker_status := crashed e;
                unread := unread conn |}
         end
  | _ => if held then Ok conn else Raise BrokenPipeError
  end.

(** [conn.recv()].  With nothing to read, the call waits for ever when
    the worker runs or another process keeps the pipe open, and raises
    [EOFError] otherwise. *)
Definition recv_on (held : bool) (conn : Connection)
  : result (Connection * reply) :=
  match unread conn with
  | r :: rest =>
      Ok ({| worker_env := worker_env conn;
             worker_status := worker_status conn; unread := rest |}, r)
  | [] =>
      match worker_status conn with
      | running => Raise Blocked
      | _ => if held then Raise Blocked else Raise EOFError
      end
  end.

(** [conn.send((cmd, data))] on a pipe whose worker end the worker alone
    holds: the pipe of a pool of one worker, or of spawned workers. *)
Definition send : Connection → string → option (gmap string Act)
  → result Connection := send_on false.

(** A loop over the pipes of the pool that sends or receives on each:
    [done] are the pipes visited so far, [todo] the ones to come, each
    with the argument of its round. *)
Fixpoint for_conns {A} (f : bool → Connection → A → result Connection)
    (done : list Connection) (todo : list (Connection * A))
  : result (list Connection) :=
  match todo with
  | [] => Ok done
  | (conn, a) :: todo =>
      conn ← f (held (done ++ todo.*1)) conn a;
      for_conns f (done ++ [conn]) todo
  end.

(** ** SubProcVecParallelEnv *)

Record SubProcVecParallelEnv : Type := mkPool {
  waiting : bool;
  closed : bool;
  parent_conns : list Connection;
  agents : list string;
  num_agents : nat;
  observation_spaces : gmap string Space;
  action_spaces : gmap string Space;
  num_envs : nat
}.

(** [conn.send((cmd, None)); conn.recv()] *)
Definition request_on (held : bool) (conn : Connection) (cmd : string)
  : result (Connection * reply) :=
  conn ← send_on held conn cmd None; recv_on held conn.

Definition __init__ (env_fns : list Env) : result SubProcVecParallelEnv :=
  let num_envs := length env_fns in
  let conns := (λ env, mkConnection env running []) <$> env_fns in
  conns ←
    for_conns (λ held conn (_ : unit), fst <$> request_on held conn "reset")
      [] ((λ conn, (conn, tt)) <$> conns);
  match conns with
  | [] => Raise ValueError
  | conn0 :: rest =>
      '(conn0, r1) ← request_on (held rest) conn0 "get_agents";
      '(conn0, r2) ← request_on (held rest) conn0 "get_num_agents";
      '(conn0, r3) ← request_on (held rest) conn0 "get_spaces";
      match r1, r2, r3 with
      | reply_agents agents, reply_num_agents num_agents,
        reply_spaces observation_spaces action_spaces =>
          Ok {| waiting := false; closed := false;
                parent_conns := conn0 :: rest;
                agents := agents; num_agents := num_agents;
                observation_spaces := observation_spaces;
                action_spaces := action_spaces;
                num_envs := num_envs |}
      | _, _, _ => Raise ValueError
      end
  end.

(** [{agent: action[i] for agent, action in actions.items()}] *)
Definition unstack_action (actions : gmap string (list Act)) (i : nat)
  : result (gmap string Act) :=
  if decide (map_Forall (λ _ action, i < length action)%nat actions)
  then Ok (omap (λ action, action !! i) actions)
  else Raise IndexError.

Definition step_async (self : SubProcVecParallelEnv)
    (actions : gmap string (list Act)) : result SubProcVecParallelEnv :=
  unstack_actions ←
    mapM (unstack_action actions) (seq 0 (length (parent_conns self)));
  conns ←
    for_conns (λ held conn action, send_on held conn "step" (Some action))
      [] (zip (parent_conns self) unstack_actions);
  Ok {| waiting := true; closed := closed self;
        parent_conns := conns;
        agents := agents self; num_agents := num_agents self;
        observation_spaces := observation_spaces self;
        action_spaces := action_spaces self;
        num_envs := num_envs self |}.

(** [_init_info_arrays] *)
Definition _init_info_arrays (self : SubProcVecParallelEnv) (dtype : pytype)
  : ndarray * ndarray :=
  let array :=
    match dtype with
    | type_int => np_zeros (num_envs self) np_int
    | type_float => np_zeros (num_envs self) np_float
    | type_bool => np_zeros (num_envs self) np_bool
    | type_np_number name => np_zeros (num_envs self) (np_number name)
    | type_other => np_zeros (num_envs self) np_object
    end in
  let array_mask := np_zeros (num_envs self) np_bool in
  (array, array_mask).

(** One round of the loop of [_add_info], for the key [k] of [info]. *)
Definition add_info_key (self : SubProcVecParallelEnv)
    (info : list (string * pyval)) (env_num : nat)
    (infos : gmap string ndarray) (k : string) : result (gmap string ndarray) :=
  v ← match dict_get info k with Some v => Ok v | None => Raise (KeyError k) end;
  '(info_array, array_mask) ←
    match infos !! k with
    | None => Ok (_init_info_arrays self (type_of v))
    | Some info_array =>
        array_mask ← getitem infos (mask_key k);
        Ok (info_array, array_mask)
    end;
  info_array ← setitem info_array env_num v;
  array_mask ← setitem array_mask env_num (py_bool true);
  Ok (<[mask_key k := array_mask]> (<[k := info_array]> infos)).

(** [_add_info] *)
Definition _add_info (self : SubProcVecParallelEnv)
    (infos : gmap string ndarray) (info : list (string * pyval))
    (env_num : nat) : result (gmap string ndarray) :=
  foldlM (add_info_key self info env_num) infos (dict_keys info).

(** The lists that [step_wait] fills, one per agent. *)
Record Stacks : Type := mkStacks {
  observations : gmap string (list Obs);
  rewards : gmap string (list Rew);
  terminateds : gmap string (list bool);
  truncateds : gmap string (list bool);
  infos : gmap string ndarray
}.

(** [d[agent_id].append(x)] *)
Definition append {A} (d : gmap string (list A)) (agent_id : string) (x : A)
  : result (gmap string (list A)) :=
  l ← getitem d agent_id; Ok (<[agent_id := l ++ [x]]> d).

(** The body of [for agent_id in self.agents] in [step_wait]. *)
Definition step_wait_agent (self : SubProcVecParallelEnv) (r : StepResult)
    (i : nat) (acc : Stacks) (agent_id : string) : result Stacks :=
  let '(obs, rew, terminated, truncated, info) := r in
  o ← getitem obs agent_id;
  observations ← append (observations acc) agent_id o;
  x ← getitem rew agent_id;
  rewards ← append (rewards acc) agent_id x;
  b ← getitem terminated agent_id;
  terminateds ← append (terminateds acc) agent_id b;
  b ← getitem truncated agent_id;
  truncateds ← append (truncateds acc) agent_id b;
  infos ← _add_info self (infos acc) info i;
  Ok {| observations := observations; rewards := rewards;
        terminateds := terminateds; truncateds := truncateds;
        infos := infos |}.

(** The body of [for i, conn in enumerate(self.parent_conns)]; a reply
    that is not a pair of a five-tuple and a flag cannot be unpacked. *)
Definition step_wait_conn (self : SubProcVecParallelEnv)
    (st : list Connection * Stacks) (ic : nat * Connection)
  : result (list Connection * Stacks) :=
  let '(i, conn) := ic in
  '(conn, r) ← recv_on (held (parent_conns self)) conn;
  match r with
  | reply_step result success =>
      acc ← foldlM (step_wait_agent self result i) st.2 (agents self);
      Ok (st.1 ++ [conn], acc)
  | _ => Raise ValueError
  end.

Definition step_wait (self : SubProcVecParallelEnv)
  : result (SubProcVecParallelEnv * Stacks) :=
  let empty {A} : gmap string (list A) :=
    list_to_map ((λ agent_id, (agent_id, [])) <$> agents self) in
  let acc := {| observations := empty; rewards := empty;
                terminateds := empty; truncateds := empty; infos := ∅ |} in
  '(conns, acc) ←
    foldlM (step_wait_conn self) ([], acc) (imap (λ i conn, (i, conn)) (parent_conns self));
  Ok ({| waiting := false; closed := closed self;
         parent_conns := conns;
         agents := agents self; num_agents := num_agents self;
         observation_spaces := observation_spaces self;
         action_spaces := action_spaces self;
         num_envs := num_envs self |}, acc).

(** The dtype that [_init_info_arrays] gives the array of a key whose
    first reported value has type [t]. *)
Definition array_dtype (t : pytype) : np_dtype :=
  match t with
  | type_bool => np_bool
  | type_int => np_int
  | type_float => np_float
  | type_np_number name => np_number name
  | type_other => np_object
  end.

(** The merged form of the info [k], where [reported i k] is what worker
    [i] reported under [k], if anything: an array with one cell per
    worker holding the reported value, or the zero of the array's dtype
    for a worker that reported none, and a mask with one cell per worker
    telling whether it reported one. *)
Definition info_merged (n : nat) (reported : nat → string → option pyval)
    (infos : gmap string ndarray) (k : string) : Prop :=
  ∃ info_array array_mask,
    infos !! k = Some info_array ∧
    infos !! mask_key k = Some array_mask ∧
    length (data info_array) = n ∧
    length (data array_mask) = n ∧
    ∀ i, (i < n)%nat →
      data info_array !! i
        = Some (default (np_zero (dtype info_array)) (reported i k)) ∧
      data array_mask !! i
        = Some (py_bool (bool_decide (is_Some (reported i k)))).

(** Worker [j0] is the first, in worker order, to report something under
    [k], and reports [v0]: the array of [k] is created on its report, with
    the dtype of [type(v0)]. *)
Definition first_reported (reported : nat → string → option pyval)
    (k : string) (j0 : nat) (v0 : pyval) : Prop :=
  reported j0 k = Some v0 ∧ ∀ j, (j < j0)%nat → reported j k = None.

(** The two conditions under which the merge keeps what the workers
    report: no reported name is the mask name [f"_{k}"] of a reported
    name, and every value reported under a name is stored unchanged in an
    array of the dtype chosen for the first value reported under it. *)
Definition no_mask_clash (reported : nat → string → option pyval) : Prop :=
  ∀ i j k, is_Some (reported i k) → reported j (mask_key k) = None.

Definition stored_unchanged (reported : nat → string → option pyval) : Prop :=
  ∀ k j0 v0 j w, first_reported reported k j0 v0 → reported j k = Some w →
    np_cast (array_dtype (type_of v0)) w = Ok w.

(** The components of a step result, and what a list of step results
    reports: [reported_by replies i k] is the value under [k] in the info
    of reply [i]. *)
Definition step_obs (r : StepResult) : gmap string Obs := r.1.1.1.1.
Definition step_rew (r : StepResult) : gmap string Rew := r.1.1.1.2.
Definition step_terminated (r : StepResult) : gmap string bool := r.1.1.2.
Definition step_truncated (r : StepResult) : gmap string bool := r.1.2.
Definition step_info (r : StepResult) : list (string * pyval) := r.2.

Definition reported_by (replies : list StepResult) (i : nat) (k : string)
  : option pyval :=
  r ← replies !! i; dict_get (step_info r) k.

(** Reply [r] has an entry for [agent] in each of its four dicts. *)
Definition covers (r : StepResult) (agent : string) : Prop :=
  is_Some (step_obs r !! agent) ∧ is_Some (step_rew r !! agent) ∧
  is_Some (step_terminated r !! agent) ∧ is_Some (step_truncated r !! agent).

(** ** The invariant of the merge *)

(** [R] records which worker has reported which value under which name
    so far; [reported] is what the workers report in the end and [n] the
    number of workers. *)
Section Merge.

Variable reported : nat → string → option pyval.
Variable n : nat.

(** The cells of the array and mask of [k] agree with the reports [R]
    processed so far. *)
Definition cells (R : gmap (nat * string) pyval) (k : string)
    (a m : ndarray) : Prop :=
  length (data a) = n ∧ length (data m) = n ∧
  dtype m = np_bool ∧
  ∀ j, (j < n)%nat →
    data a !! j
      = Some (default (np_zero (dtype a)) (R !! (j, k))) ∧
    data m !! j
      = Some (py_bool (bool_decide (is_Some (R !! (j, k))))).

Definition cells_ok (R : gmap (nat * string) pyval)
    (infos : gmap string ndarray) (k : string) : Prop :=
  ∃ a m, infos !! k = Some a ∧ infos !! mask_key k = Some m ∧
    cells R k a m ∧
    ∃ j0 v0, first_reported reported k j0 v0 ∧
      dtype a = array_dtype (type_of v0).

Definition consistent (R : gmap (nat * string) pyval) : Prop :=
  ∀ j k v, R !! (j, k) = Some v → reported j k = Some v.

Definition inv (R : gmap (nat * string) pyval)
    (infos : gmap string ndarray) : Prop :=
  consistent R ∧
  (∀ k, (∃ j, is_Some (R !! (j, k))) → cells_ok R infos k) ∧
  (∀ k, is_Some (infos !! k) →
     (∃ j, is_Some (R !! (j, k))) ∨
     (∃ k' j, k = mask_key k' ∧ is_Some (R !! (j, k')))).

(** [R] has all the reports of the workers before worker [i]. *)
Definition complete (R : gmap (nat * string) pyval) (i : nat) : Prop :=
  ∀ j k v, (j < i)%nat → reported j k = Some v → R !! (j, k) = Some v.

(** The reports after worker [i] has reported the names [ks] of [info]. *)
Definition report_keys (i : nat) (info : list (string * pyval))
    (ks : list string) (R : gmap (nat * string) pyval)
  : gmap (nat * string) pyval :=
  foldl (λ R k, match dict_get info k with
                | Some v => <[(i, k) := v]> R
                | None => R
                end) R ks.

(** The reports after worker [i] has reported [info]. *)
Definition report (i : nat) (info : list (string * pyval))
    (R : gmap (nat * string) pyval) : gmap (nat * string) pyval :=
  report_keys i info (dict_keys info) R.

(** Every stack has an entry for each of the agents [ags]. *)
Definition stacks_ok (ags : list string) (acc : Stacks) : Prop :=
  ∀ agent, agent ∈ ags →
    is_Some (observations acc !! agent) ∧
    is_Some (rewards acc !! agent) ∧
    is_Some (terminateds acc !! agent) ∧
    is_Some (truncateds acc !! agent).

End Merge.

(** [close]; joining the worker processes leaves nothing to observe. *)
Definition close (self : SubProcVecParallelEnv) : result SubProcVecParallelEnv :=
  if closed self then Ok self
  else
    conns ←
      (if waiting self
       then mapM (λ conn, fst <$> recv_on (held (parent_conns self)) conn)
              (parent_conns self)
       else Ok (parent_conns self));
    conns ←
      for_conns (λ held conn (_ : unit), send_on held conn "close" None)
        [] ((λ conn, (conn, tt)) <$> conns);
    Ok {| waiting := waiting self; closed := true;
          parent_conns := conns;
          agents := agents self; num_agents := num_agents self;
          observation_spaces := observation_spaces self;
          action_spaces := action_spaces self;
          num_envs := num_envs self |}.

(** [VecParallelEnv.step]: [step_async], then [step_wait]. *)
Definition step (self : SubProcVecParallelEnv)
    (actions : gmap string (list Act))
  : result (SubProcVecParallelEnv * Stacks) :=
  self ← step_async self actions; step_wait self.

(** The connection after [conn.recv()] has taken its oldest reply. *)
Definition received (conn : Connection) : Connection :=
  {| worker_env := worker_env conn; worker_status := worker_status conn;
     unread := tail (unread conn) |}.

(** The worker after it has handled [close]. *)
Definition closed_worker (conn : Connection) : Connection :=
  {| worker_env := env_close (worker_env conn); worker_status := exited;
     unread := unread conn |}.

(** The list that [d] holds for [agent] has, for each of the replies
    [rs] in order, the entry of [agent] in the component [f] of the
    reply. *)
Definition column {A} (f : StepResult → gmap string A) (rs : list StepResult)
    (d : gmap string (list A)) (agent : string) : Prop :=
  ∃ l, d !! agent = Some l ∧ Forall2 (λ r x, f r !! agent = Some x) rs l.

(** Each of the four stacks of [agent] is the column of the replies. *)
Definition stacked (rs : list StepResult) (acc : Stacks) (agent : string)
  : Prop :=
  column step_obs rs (observations acc) agent ∧
  column step_rew rs (rewards acc) agent ∧
  column step_terminated rs (terminateds acc) agent ∧
  column step_truncated rs (truncateds acc) agent.

End Vector.

(** ** stack *)

Section Stack.

Context {V W : Type}.

(** [np.stack] of a tuple of arrays is external; it raises when the
    arrays differ in shape. *)
Variable np_stack : list V → result W.

(** [list(zip( *rows))]: the columns of [rows], as many as the shortest
    row has entries, and none when there is no row. *)
Definition zip_star (rows : list (list V)) : list (list V) :=
  match rows with
  | [] => []
  | row :: rest =>
      (λ i, omap (λ row, row !! i) rows)
        <$> seq 0 (foldl Nat.min (length row) (length <$> rest))
  end.

(** [stack]: [xs[0]] raises on an empty list; the values are taken by
    position, under the keys of the first dict. *)
Definition stack (xs : list (list (string * V)))
  : result (list (string * W)) :=
  match xs with
  | [] => Raise IndexError
  | x0 :: _ =>
      let ks := dict_keys x0 in
      let vs := zip_star ((λ x, x.*2) <$> xs) in
      mapM (λ '(i, k),
              match vs !! i with
              | Some tuple => a ← np_stack tuple; Ok (k, a)
              | None => Raise IndexError
              end)
        (imap (λ i k, (i, k)) ks)
  end.

End Stack.

(** ** tile_images *)

(** The shape of the image that [tile_images] builds from [N] images of
    shape [h, w, c].  [H] is the ceiling of the square root of [N] and
    [W] the ceiling of [N / H]; both are computed in floating point,
    which gives these ceilings exactly for the batch sizes below [2^52]
    that the theorems consider.  [float(N) / H] raises when [H] is zero.
    The batch is padded with one zero image for each index of
    [range(N, H * W)], and [reshape] needs as many elements as the new
    shape has. *)
Definition tile_images (N h w c : Z) : result (Z * Z * Z) :=
  let H := Z.sqrt_up N in
  if H =? 0 then Raise ZeroDivisionError
  else
    let W := - (- N / H) in
    let padded := N + Z.max 0 (H * W - N) in
    if padded * h * w * c =? H * W * h * w * c
    then Ok (H * h, W * w, c)
    else Raise ValueError.

Arguments pyval : clear implicits.
Arguments ndarray : clear implicits.
Arguments StepResult : clear implicits.
Arguments ParallelEnv : clear implicits.
Arguments reply : clear implicits.
Arguments round : clear implicits.
Arguments Connection : clear implicits.
Arguments SubProcVecParallelEnv : clear implicits.
Arguments Stacks : clear implicits.

(** The pool with its [waiting] flag set to [b]. *)
Definition with_waiting {Obs Rew Float Space Env} (b : bool)
    (self : SubProcVecParallelEnv Obs Rew Float Space Env)
  : SubProcVecParallelEnv Obs Rew Float Space Env :=
  {| waiting := b; closed := closed self;
     parent_conns := parent_conns self;
     agents := agents self; num_agents := num_agents self;
     observation_spaces := observation_spaces self;
     action_spaces := action_spaces self;
     num_envs := num_envs self |}.

(** The examples run with forked workers. *)
#[global] Instance forked : StartMethod := true.

(** ** A counter environment *)

(** One agent; the state is a counter that each step increases by one;
    the episode terminates when the counter reaches 3; a reset puts it
    back to 0.  Observations, rewards, actions and floats are integers. *)
Definition counter_agent : string := "agent_0".

#[global] Instance counter_env : ParallelEnv Z Z Z Z unit Z := {|
  env_reset _ := Ok (0, ({[ counter_agent := 0 ]}, [("episode", py_str "new")]));
  env_step count _ :=
    Ok (count + 1,
        ({[ counter_agent := count + 1 ]}, {[ counter_agent := 1 ]},
         {[ counter_agent := bool_decide (3 ≤ count + 1) ]},
         {[ counter_agent := false ]},
         [("count", py_int (count + 1))]));
  env_agents _ := [counter_agent];
  env_num_agents _ := 1%nat;
  env_observation_space _ _ := tt;
  env_action_space _ _ := tt;
  env_close count := count
|}.

(** A pool of two counter environments as [__init__] leaves it, the
    actions of one step, and the pool after one [step_async]. *)
Definition counter_pool : SubProcVecParallelEnv Z Z Z unit Z :=
  {| waiting := false; closed := false;
     parent_conns := [mkConnection 0 running []; mkConnection 0 running []];
     agents := [counter_agent]; num_agents := 1;
     observation_spaces := {[ counter_agent := tt ]};
     action_spaces := {[ counter_agent := tt ]};
     num_envs := 2 |}.

Definition counter_actions : gmap string (list Z) :=
  {[ counter_agent := [1; 1] ]}.

Definition counter_result (count : Z) : StepResult Z Z Z :=
  ({[ counter_agent := count ]}, {[ counter_agent := 1 ]},
   {[ counter_agent := bool_decide (3 ≤ count) ]},
   {[ counter_agent := false ]},
   [("count", py_int count)]).

Definition counter_reply (count : Z) : reply Z Z Z unit :=
  reply_step (counter_result count) true.

Definition counter_pool_pending : SubProcVecParallelEnv Z Z Z unit Z :=
  {| waiting := true; closed := false;
     parent_conns := [mkConnection 1 running [counter_reply 1];
                      mkConnection 1 running [counter_reply 1]];
     agents := [counter_agent]; num_agents := 1;
     observation_spaces := {[ counter_agent := tt ]};
     action_spaces := {[ counter_agent := tt ]};
     num_envs := 2 |}.

(** A pool of two counter environments of which the first is one step
    from the end of its episode, and the pool after one [step_async]: the
    first worker has reset its environment and reports the names of the
    reset and of the episode that ended, the second reports its count. *)
Definition counter_pool_late : SubProcVecParallelEnv Z Z Z unit Z :=
  {| waiting := false; closed := false;
     parent_conns := [mkConnection 2 running []; mkConnection 0 running []];
     agents := [counter_agent]; num_agents := 1;
     observation_spaces := {[ counter_agent := tt ]};
     action_spaces := {[ counter_agent := tt ]};
     num_envs := 2 |}.

Definition counter_reset_result : StepResult Z Z Z :=
  ({[ counter_agent := 0 ]}, {[ counter_agent := 1 ]},
   {[ counter_agent := true ]}, {[ counter_agent := false ]},
   [("episode", py_str "new");
    ("final_observation", py_obs {[ counter_agent := 3 ]});
    ("final_info", py_info [("count", py_int 3)])]).

Definition counter_pool_late_pending : SubProcVecParallelEnv Z Z Z unit Z :=
  {| waiting := true; closed := false;
     parent_conns := [mkConnection 0 running [reply_step counter_reset_result true];
                      mkConnection 1 running [counter_reply 1]];
     agents := [counter_agent]; num_agents := 1;
     observation_spaces := {[ counter_agent := tt ]};
     action_spaces := {[ counter_agent := tt ]};
     num_envs := 2 |}.

(** An element conversion for the examples: a value is stored unchanged
    in an array of dtype object and in an array of its own type, an
    integer if it fits the 64 bits of the array's cells; it is refused
    otherwise (numpy would convert some of the refused values). *)
Definition np_cast_same_type {Obs Float} (dt : np_dtype) (v : pyval Obs Float)
  : result (pyval Obs Float) :=
  match dt, v with
  | np_object, _ => Ok v
  | np_bool, py_bool _ => Ok v
  | np_int, py_int z =>
      if decide (- 2 ^ 63 ≤ z < 2 ^ 63) then Ok v else Raise OverflowError
  | np_float, py_float _ => Ok v
  | np_number name, py_np name' _ =>
      if decide (name = name') then Ok v else Raise ValueError
  | _, _ => Raise ValueError
  end.

(** ** An environment whose info names clash *)

(** One agent and a single state; every step reports the two info names
    [a] and [_a], in this order. *)
Inductive clash_env : Type := ClashEnv.

#[global] Instance clash_parallel_env : ParallelEnv Z Z Z Z unit clash_env := {|
  env_reset env := Ok (env, ({[ counter_agent := 0 ]}, []));
  env_step env _ :=
    Ok (env,
        ({[ counter_agent := 0 ]}, {[ counter_agent := 0 ]},
         {[ counter_agent := false ]}, {[ counter_agent := false ]},
         [("a", py_int 1); ("_a", py_int 2)]));
  env_agents _ := [counter_agent];
  env_num_agents _ := 1%nat;
  env_observation_space _ _ := tt;
  env_action_space _ _ := tt;
  env_close env := env
|}.

Definition clash_pool : SubProcVecParallelEnv Z Z Z unit clash_env :=
  {| waiting := false; closed := false;
     parent_conns := [mkConnection ClashEnv running []];
     agents := [counter_agent]; num_agents := 1;
     observation_spaces := {[ counter_agent := tt ]};
     action_spaces := {[ counter_agent := tt ]};
     num_envs := 1 |}.

Definition clash_pool_pending : SubProcVecParallelEnv Z Z Z unit clash_env :=
  {| waiting := true; closed := false;
     parent_conns :=
       [mkConnection ClashEnv running
          [reply_step ({[ counter_agent := 0 ]}, {[ counter_agent := 0 ]},
                       {[ counter_agent := false ]}, {[ counter_agent := false ]},
                       [("a", py_int 1); ("_a", py_int 2)]) true]];
     agents := [counter_agent]; num_agents := 1;
     observation_spaces := {[ counter_agent := tt ]};
     action_spaces := {[ counter_agent := tt ]};
     num_envs := 1 |}.

End Vector.

(** * Parameters, optimisers and target networks *)

(** Floating-point arithmetic is an external collaborator: the
    development uses its operations and none of their laws. *)
Class FloatOps (F : Type) : Type := {
  fzero : F;
  fone : F;
  fadd : F → F → F;
  fsub : F → F → F;
  fmul : F → F → F
}.

(** The integers, for examples. *)
#[global] Instance Z_float_ops : FloatOps Z :=
  {| fzero := 0; fone := 1; fadd := Z.add; fsub := Z.sub; fmul := Z.mul |}.

(** A parameter tree, as the flat mapping from the path of each leaf to
    its value. *)
Abbreviation Params F := (gmap string F).

Module Optax.

Section Optax.

Context {F : Type} `{!FloatOps F}.

(** [jax.tree_util.tree_map(f, a, b)]: the trees must have the same
    structure. *)
Definition tree_map2 (f : F → F → F) (a b : Params F) : result (Params F) :=
  if decide (dom a = dom b) then Ok (map_zip_with f a b) else Raise ValueError.

(** [optax.incremental_update(new_tensors, old_tensors, step_size)] *)
Definition incremental_update (new_tensors old_tensors : Params F) (step_size : F)
  : result (Params F) :=
  tree_map2 (λ new old,
               fadd (fmul step_size new) (fmul (fsub fone step_size) old))
    new_tensors old_tensors.

End Optax.

End Optax.

(** An optax optimiser [tx]: [tx_init] is [tx.init], and [tx_apply grads
    opt_state params] is [tx.update] followed by [optax.apply_updates],
    the new parameters and optimiser state. *)
Class Optimizer (F OptState : Type) : Type := {
  tx_init : Params F → OptState;
  tx_apply : Params F → OptState → Params F → Params F * OptState
}.

(** An optimiser for examples: it lowers every parameter by one,
    whatever the gradient. *)
#[global] Instance lowering_optimizer : Optimizer Z unit :=
  {| tx_init _ := tt;
     tx_apply _ _ params := ((λ x, x - 1) <$> params, tt) |}.

Module Train.

Section TrainState.

Context {F OptState : Type} `{!Optimizer F OptState}.

(** Modelled from the spec: the [TrainState] class of
    [rl.modules.modules] and [rl_tools.modules.train_state], which is
    absent from the sources.  Each trainable sub-state holds live params,
    optimiser state and, where applicable, target params; it extends
    flax's [TrainState], whose [apply_gradients] replaces the step, the
    params and the optimiser state and nothing else. *)
Record TrainState : Type := mkTrainState {
  step : Z;
  params : Params F;
  target_params : option (Params F);
  opt_state : OptState
}.

(** [TrainState.create(apply_fn=..., params=..., target_params=..., tx=...)] *)
Definition create (params : Params F) (target_params : option (Params F))
  : TrainState :=
  {| step := 0; params := params; target_params := target_params;
     opt_state := tx_init params |}.

(** [state.apply_gradients(grads=grads)] *)
Definition apply_gradients (state : TrainState) (grads : Params F) : TrainState :=
  let '(new_params, new_opt_state) :=
    tx_apply grads (opt_state state) (params state) in
  {| step := step state + 1; params := new_params;
     target_params := target_params state; opt_state := new_opt_state |}.

(** [state.replace(target_params=t)] *)
Definition replace_target (state : TrainState) (t : Params F) : TrainState :=
  {| step := step state; params := params state;
     target_params := Some t; opt_state := opt_state state |}.

(** [optax.incremental_update(state.params, state.target_params, tau)];
    a sub-state without target has no tree to combine with. *)
Definition updated_target `{!FloatOps F} (state : TrainState) (tau : F)
  : result (Params F) :=
  match target_params state with
  | Some old => Optax.incremental_update (params state) old tau
  | None => Raise ValueError
  end.

(** [target] is the Polyak combination of [live] and [old] with
    coefficient [tau]: it has the leaves of [live], and each leaf is
    [tau * live + (1 - tau) * old]. *)
Definition polyak `{!FloatOps F} (tau : F) (live old target : Params F) : Prop :=
  dom target = dom live ∧
  ∀ leaf l o, live !! leaf = Some l → old !! leaf = Some o →
    target !! leaf = Some (fadd (fmul tau l) (fmul (fsub fone tau) o)).

(** The sub-state [after] has the target of [before] smoothed towards
    its own live params. *)
Definition smoothed `{!FloatOps F} (tau : F) (before after : TrainState) : Prop :=
  ∃ old target,
    target_params before = Some old ∧
    target_params after = Some target ∧
    polyak tau (params after) old target.

(** The sub-state has a target with the structure of its live params. *)
Definition has_target (state : TrainState) : Prop :=
  ∃ target, target_params state = Some target ∧ dom target = dom (params state).

(** The optimiser keeps the structure of the parameter tree. *)
Definition structure_preserving : Prop :=
  ∀ grads opt_state params,
    dom (tx_apply grads opt_state params).1 = dom params.

End TrainState.

Arguments TrainState : clear implicits.

Section InitParams.

Context {F Key Module Shape : Type}.

(** [module.init(key, *dummy_inputs)]: the variable collections of a flax
    module, by name.  The dummy inputs are determined by the shapes. *)
Variable module_init : Key → Module → list Shape → gmap string (Params F).

(** [init_params] of [rl/modules/modules.py].  With [tabulate] the
    function also prints a table; the returned parameters are the same. *)
Definition init_params (key : Key) (module : Module) (input_shapes : list Shape)
    (tabulate : bool) : Params F :=
  let variables := module_init key module input_shapes in
  match variables !! "params" with
  | Some params => params
  | None => ∅
  end.

End InitParams.

End Train.

(** * Observations and keys of the action-selection entry points *)

(** An observation is an array, or for multi-agent environments a dict
    from agent to array; the keys handed to the explore function have the
    same form. *)
Inductive per_agent (A : Type) : Type :=
| single (a : A)
| parallel_dict (d : list (string * A)).

Arguments single {A} a.
Arguments parallel_dict {A} d.

(** External collaborators of the entry points.  [Seeded.nextkey] is
    absent from the sources: [nextkey key] is the pair of the agent's
    next key state and the key it returns.  [uniform k action] is
    [jax.random.uniform(k, action.shape, minval=-1.0, maxval=1.0)] and
    [zeros_like] is [jnp.zeros_like]. *)
Class Sampling (Key Action : Type) : Type := {
  nextkey : Key → Key * Key;
  uniform : Key → Action → Action;
  zeros_like : Action → Action
}.

(** Sampling with the free PRNG, for examples: [nextkey] splits the key
    state in two, and the uniform draw is an integer read off the key. *)
#[global] Instance path_sampling : Sampling (list (nat * nat)) Z :=
  {| nextkey k := (k ++ [(2, 0)%nat], k ++ [(2, 1)%nat]);
     uniform k _ := Z.of_nat (length k) + Z.of_nat (sum_list (k.*2));
     zeros_like _ := 0 |}.

Section InteractKeys.

Context {Key Obs Action : Type} `{!Sampling Key Action}.

(** [{a: self.nextkey() for a in observation.keys()} if self.parallel
    else self.nextkey()]; [.keys()] needs a dict. *)
Fixpoint agent_keys_of (key : Key) (d : list (string * Obs))
  : Key * list (string * Key) :=
  match d with
  | [] => (key, [])
  | (a, _) :: d =>
      let '(key, k) := nextkey key in
      let '(key, ks) := agent_keys_of key d in
      (key, (a, k) :: ks)
  end.

Definition interact_keys (parallel : bool) (key : Key)
    (observation : per_agent Obs) : result (Key * per_agent Key) :=
  if parallel then
    match observation with
    | parallel_dict d =>
        let '(key, ks) := agent_keys_of key d in Ok (key, parallel_dict ks)
    | single _ => Raise AttributeError
    end
  else
    let '(key, k) := nextkey key in Ok (key, single k).

End InteractKeys.

(** * rl/algos/td3.py *)

Module TD3.

Section TD3.

Context {F OptState : Type} `{!FloatOps F} `{!Optimizer F OptState}.
Context {Key : Type} `{!PRNG Key}.
Context {Module Shape Sample Batch Obs Action : Type} `{!Sampling Key Action}.

Abbreviation TrainState := (Train.TrainState F OptState).

Record TD3Params : Type := mkTD3Params {
  gamma : F;
  skip_steps : Z;
  tau : F;
  action_noise : F;
  policy_update_frequency : Z;
  target_noise_std : F;
  target_noise_clip : F;
  start_step : Z
}.

(** The parts of [AlgoConfig] that the functions below read. *)
Record AlgoConfig : Type := mkAlgoConfig {
  algo_params : TD3Params;
  observation_shape : Shape;
  action_shape : Shape
}.

Record TD3TrainState : Type := mkTD3TrainState {
  policy_state : TrainState;
  qvalue_state : TrainState
}.

(** External collaborators: flax's [module.init], the [Policy] and
    [QValue] modules built from the configuration, the shape [()], and
    [jax.value_and_grad] of the two loss functions (the loss and the
    gradient with respect to the first argument). *)
Variable module_init : Key → Module → list Shape → gmap string (Params F).
Variable Policy QValue : AlgoConfig → Module.
Variable unit_shape : Shape.
Variable qvalue_value_and_grad : Params F → Batch → F * Params F.
Variable policy_value_and_grad : Params F → Params F → Batch → F * Params F.

Definition train_state_ddpg_factory (key : Key) (config : AlgoConfig)
    (tabulate : bool) : TD3TrainState :=
  let keys := split key 2 in
  let key1 := keys !!! 0%fin in
  let key2 := keys !!! 1%fin in
  let module_policy := Policy config in
  let policy_state :=
    Train.create
      (Train.init_params module_init key1 module_policy
         [observation_shape config; unit_shape] tabulate)
      (Some (Train.init_params module_init key1 module_policy
               [observation_shape config; unit_shape] false)) in
  let module_qvalue := QValue config in
  let qvalue_state :=
    Train.create
      (Train.init_params module_init key2 module_qvalue
         [observation_shape config; action_shape config] tabulate)
      (Some (Train.init_params module_init key2 module_qvalue
               [observation_shape config; action_shape config] false)) in
  {| policy_state := policy_state; qvalue_state := qvalue_state |}.

(** [update_step_factory]: [update_qvalue_fn] *)
Definition update_qvalue_fn (qvalue_state : TrainState) (batch : Batch)
  : TrainState * F * Params F :=
  let '(loss, grads) :=
    qvalue_value_and_grad (Train.params qvalue_state) batch in
  let qvalue_state := Train.apply_gradients qvalue_state grads in
  (qvalue_state, loss, {[ "loss_qvalue" := loss ]}).

(** [update_step_factory]: [update_policy_fn] *)
Definition update_policy_fn (config : AlgoConfig)
    (policy_state qvalue_state : TrainState) (batch : Batch)
  : result (TrainState * TrainState * F * Params F) :=
  let '(loss, grads) :=
    policy_value_and_grad (Train.params policy_state)
      (Train.params qvalue_state) batch in
  let policy_state := Train.apply_gradients policy_state grads in
  policy_target ← Train.updated_target policy_state (tau (algo_params config));
  let policy_state := Train.replace_target policy_state policy_target in
  qvalue_target ← Train.updated_target qvalue_state (tau (algo_params config));
  let qvalue_state := Train.replace_target qvalue_state qvalue_target in
  Ok (policy_state, qvalue_state, loss, {[ "loss_policy" := loss ]}).

(** [update_step_factory]: [update_step_fn]; it returns the q-value
    state first. *)
Definition update_step_fn (config : AlgoConfig)
    (policy_state qvalue_state : TrainState) (batch : Batch) (step : Z)
  : result (TrainState * TrainState * Params F) :=
  let '(qvalue_state, loss_qvalue, info_qvalue) :=
    update_qvalue_fn qvalue_state batch in
  '(policy_state, qvalue_state, loss_policy, info_policy) ←
    (if policy_update_frequency (algo_params config) =? 0
     then Raise ZeroDivisionError
     else if step mod policy_update_frequency (algo_params config) =? 0
     then update_policy_fn config policy_state qvalue_state batch
     else Ok (policy_state, qvalue_state, fzero, ∅));
  let info := info_policy ∪ info_qvalue in
  let info := <[ "total_loss" := fadd loss_qvalue loss_policy ]> info in
  Ok (qvalue_state, policy_state, info).

(** ** The agent *)

(** The attributes of a [TD3] object that the methods below use.
    [key] is the state of [Seeded]; [explore_fn] and
    [process_experience_fn] are the jitted functions that the base class
    stores in the object. *)
Record TD3 : Type := mkTD3 {
  config : AlgoConfig;
  state : TD3TrainState;
  key : Key;
  step : Z;
  parallel : bool;
  saver : Save.Saver TD3TrainState;
  explore_fn : TrainState → per_agent Key → per_agent Obs → F → Action * Action;
  process_experience_fn : TD3TrainState → Key → Sample → Batch
}.

Definition with_key (self : TD3) (key : Key) : TD3 :=
  {| config := config self; state := state self; key := key;
     step := step self; parallel := parallel self; saver := saver self;
     explore_fn := explore_fn self;
     process_experience_fn := process_experience_fn self |}.

Definition with_state (self : TD3) (state : TD3TrainState) : TD3 :=
  {| config := config self; state := state; key := key self;
     step := step self; parallel := parallel self; saver := saver self;
     explore_fn := explore_fn self;
     process_experience_fn := process_experience_fn self |}.

Definition select_action (self : TD3) (observation : per_agent Obs)
  : result (TD3 * (Action * Action)) :=
  '(key', keys) ← interact_keys (parallel self) (key self) observation;
  let self := with_key self key' in
  let '(action, zeros) :=
    explore_fn self (policy_state (state self)) keys observation fzero in
  Ok (self, (action, zeros)).

Definition explore (self : TD3) (observation : per_agent Obs)
  : result (TD3 * (Action * Action)) :=
  '(key', keys) ← interact_keys (parallel self) (key self) observation;
  let self := with_key self key' in
  let '(action, log_prob) :=
    explore_fn self (policy_state (state self)) keys observation
      (action_noise (algo_params (config self))) in
  if step self <? start_step (algo_params (config self)) then
    let '(key', k) := nextkey (key self) in
    let self := with_key self key' in
    let action := uniform k action in
    let log_prob := zeros_like action in
    Ok (self, (action, log_prob))
  else Ok (self, (action, log_prob)).

(** [update], on the sample drawn from the buffer. *)
Definition update (self : TD3) (sample : Sample) : result (TD3 * Params F) :=
  let '(key', k) := nextkey (key self) in
  let self := with_key self key' in
  let experiences := process_experience_fn self (state self) k sample in
  '(qvalue_state, policy_state, info) ←
    update_step_fn (config self) (policy_state (state self))
      (qvalue_state (state self)) experiences (step self);
  Ok (with_state self
        {| policy_state := policy_state; qvalue_state := qvalue_state |},
      info).

(** [resume], up to its call of [train] (absent from the sources): the
    agent and the [start_step] that [train] receives. *)
Definition resume (self : TD3) : result (TD3 * option Z) :=
  '(step, restored) ← Save.restore_latest_step (saver self) (state self);
  Ok (with_state self restored, step).

(** [self.config.update_cfg.batch_size], a part of the configuration
    that [AlgoConfig] above leaves out. *)
Variable batch_size : AlgoConfig → Z.

Definition with_step (self : TD3) (step : Z) : TD3 :=
  {| config := config self; state := state self; key := key self;
     step := step; parallel := parallel self; saver := saver self;
     explore_fn := explore_fn self;
     process_experience_fn := process_experience_fn self |}.

(** [should_update], on the length of the buffer.  It records the step
    in the agent; [and] evaluates its operands from the left and stops at
    the first false one, so [step % skip_steps] is computed only when the
    buffer is long enough. *)
Definition should_update (self : TD3) (step : Z) (len_buffer : Z)
  : TD3 * result bool :=
  let self := with_step self step in
  (self,
   if negb (batch_size (config self) <=? len_buffer) then Ok false
   else if skip_steps (algo_params (config self)) =? 0
   then Raise ZeroDivisionError
   else if negb (step mod skip_steps (algo_params (config self)) =? 0)
   then Ok false
   else Ok (start_step (algo_params (config self)) <=? step)).

End TD3.

Arguments TD3Params : clear implicits.
Arguments AlgoConfig : clear implicits.
Arguments TD3TrainState : clear implicits.
Arguments TD3 : clear implicits.
Arguments mkTD3Params {F} _ _ _ _ _ _ _ _.
Arguments mkAlgoConfig {F Shape} _ _ _.

(** An example over the integers: [tau = 1], the policy updated on
    every second step, sub-states with one leaf each, and value-and-grad
    functions that return a zero loss. *)
Definition example_config : AlgoConfig Z unit :=
  mkAlgoConfig
    {| gamma := 1; skip_steps := 1; tau := 1; action_noise := 2;
       policy_update_frequency := 2; target_noise_std := 0;
       target_noise_clip := 0; start_step := 0 |} tt tt.

Definition example_policy : Train.TrainState Z unit :=
  {| Train.step := 0; Train.params := {[ "w" := 5 ]};
     Train.target_params := Some {[ "w" := 5 ]}; Train.opt_state := tt |}.

Definition example_qvalue : Train.TrainState Z unit :=
  {| Train.step := 0; Train.params := {[ "v" := 3 ]};
     Train.target_params := Some {[ "v" := 3 ]}; Train.opt_state := tt |}.

Definition example_qvalue_grad (params : Params Z) (batch : unit)
  : Z * Params Z := (0, params).

Definition example_policy_grad (params qvalue_params : Params Z) (batch : unit)
  : Z * Params Z := (0, params).

(** A checkpoint saved at step 10, whose policy target differs from the
    policy params, and an agent whose saver holds it. *)
Definition example_checkpoint : TD3TrainState Z unit :=
  {| policy_state :=
       {| Train.step := 10; Train.params := {[ "w" := 5 ]};
          Train.target_params := Some {[ "w" := 9 ]}; Train.opt_state := tt |};
     qvalue_state := example_qvalue |}.

Definition example_agent
  : TD3 Z unit (list (nat * nat)) unit unit unit Z Z :=
  {| config := example_config;
     state := {| policy_state := example_policy; qvalue_state := example_qvalue |};
     key := []; step := 0; parallel := false;
     saver := Save.mkSaver [(10, example_checkpoint)];
     explore_fn := λ policy_state keys observation noise, (0, 0);
     process_experience_fn := λ state key sample, tt |}.

(** ** process_experience_factory *)

Section ProcessExperience.

Context {F OptState : Type} `{!FloatOps F}.
Context {Key Array Dist : Type}.

(** The fields of [Experience] (of [rl.buffer], absent from the sources)
    that the function reads. *)
Record Experience : Type := mkExperience {
  observation : Array;
  action : Array;
  reward : Array;
  done : Array;
  next_observation : Array
}.

(** External collaborators.  [policy_apply] and [qvalue_apply] are the
    [apply_fn] of the two modules, on the value given for the [params]
    collection; [dist_sample d seed] is [d.sample(seed=seed)]; [normal
    key a] is [jax.random.normal(key, a.shape)]; [scale x a] is the
    product of the scalar [x] and the array [a]; [clip], [add] and
    [minimum] are those of [jax.numpy]; [expand_last a] is
    [a[..., None]]; [one_minus a] is [1.0 - a]; [fneg] is the negation
    of floats.  [compute_td_targets] is that of [rl.timesteps], absent
    from the sources. *)
Variable policy_apply : option (Params F) → Array → F → Dist.
Variable qvalue_apply : option (Params F) → Array → Array → Array * Array.
Variable dist_sample : Dist → Z → Array.
Variable normal : Key → Array → Array.
Variable fneg : F → F.
Variable scale : F → Array → Array.
Variable clip : Array → F → F → Array.
Variable add : Array → Array → Array.
Variable minimum : Array → Array → Array.
Variable expand_last : Array → Array.
Variable one_minus : Array → Array.
Variable compute_td_targets : Array → Array → Array → Array.

(** The function [fn] that [process_experience_factory] returns. *)
Definition process_experience (algo_params : TD3Params F)
    (td3_state : TD3TrainState F OptState) (key : Key)
    (experience : Experience) : Array * Array * Array :=
  let next_actions :=
    dist_sample
      (policy_apply (Train.target_params (policy_state td3_state))
         (next_observation experience) fzero) 0 in
  let noise :=
    clip (scale (target_noise_std algo_params) (normal key next_actions))
      (fneg (target_noise_clip algo_params)) (target_noise_clip algo_params) in
  let next_actions := clip (add next_actions noise) (fneg fone) fone in
  let '(next_q1, next_q2) :=
    qvalue_apply (Train.target_params (qvalue_state td3_state))
      (next_observation experience) next_actions in
  let next_q_min := minimum next_q1 next_q2 in
  let discounts :=
    scale (gamma algo_params) (one_minus (expand_last (done experience))) in
  let targets :=
    compute_td_targets (expand_last (reward experience)) discounts next_q_min in
  (observation experience, action experience, targets).

End ProcessExperience.

End TD3.

(** * rl_tools/algos/named/sac.py *)

Module SAC.

Section SAC.

Context {F OptState : Type} `{!FloatOps F} `{!Optimizer F OptState}.
Context {Key : Type} `{!PRNG Key}.
Context {Module Shape Batch Obs Action Dist : Type} `{!Sampling Key Action}.

Abbreviation TrainState := (Train.TrainState F OptState).

Record SACParams : Type := mkSACParams {
  gamma : F;
  tau : F;
  log_std_min : F;
  log_std_max : F;
  initial_alpha : F;
  start_step : Z;
  skip_steps : Z
}.

Record AlgoConfig : Type := mkAlgoConfig {
  algo_params : SACParams;
  observation_shape : Shape;
  action_shape : Shape
}.

Record SACTrainState : Type := mkSACTrainState {
  policy_state : TrainState;
  qvalue_state : TrainState;
  alpha_state : TrainState
}.

(** External collaborators: flax's [module.init], the policy, double
    q-value and temperature modules built from the configuration, and
    [jax.value_and_grad] of the three loss functions with their auxiliary
    outputs (the entropy, and the temperature). *)
Variable module_init : Key → Module → list Shape → gmap string (Params F).
Variable policy qvalue alpha : AlgoConfig → Module.
Variable qvalue_value_and_grad : Params F → Batch → F * Params F.
Variable policy_value_and_grad :
  Params F → Params F → Params F → Batch → F * F * Params F.
Variable alpha_value_and_grad :
  Key → Params F → Params F → Batch → F * F * Params F.

Definition train_state_sac_factory (key : Key) (config : AlgoConfig)
    (tabulate : bool) : SACTrainState :=
  let keys := split key 3 in
  let key1 := keys !!! 0%fin in
  let key2 := keys !!! 1%fin in
  let key3 := keys !!! 2%fin in
  let policy_state :=
    Train.create
      (Train.init_params module_init key1 (policy config)
         [observation_shape config] tabulate)
      (Some (Train.init_params module_init key1 (policy config)
               [observation_shape config] false)) in
  let qvalue_state :=
    Train.create
      (Train.init_params module_init key2 (qvalue config)
         [observation_shape config; action_shape config] tabulate)
      (Some (Train.init_params module_init key2 (qvalue config)
               [observation_shape config; action_shape config] false)) in
  let alpha_state :=
    Train.create
      (Train.init_params module_init key3 (alpha config) [] tabulate)
      None in
  {| policy_state := policy_state; qvalue_state := qvalue_state;
     alpha_state := alpha_state |}.

(** [explore_factory]: the policy distribution, its sampling and
    [jnp.clip(actions, -1.0, 1.0)] are external. *)
Variable policy_apply : Params F → Obs → Dist.
Variable sample_and_log_prob : Dist → Key → Action * Action.
Variable clip : Action → Action.

Definition explore_factory (policy_state : TrainState) (key : Key)
    (observations : Obs) : Action * Action :=
  let '(actions, log_probs) :=
    sample_and_log_prob (policy_apply (Train.params policy_state) observations)
      key in
  let actions := clip actions in
  (actions, log_probs).

(** [update_step_factory]: [update_qvalue_fn] *)
Definition update_qvalue_fn (qvalue_state : TrainState) (batch : Batch)
  : TrainState * F * Params F :=
  let '(loss, grads) :=
    qvalue_value_and_grad (Train.params qvalue_state) batch in
  let qvalue_state := Train.apply_gradients qvalue_state grads in
  (qvalue_state, loss, {[ "loss_qvalue" := loss ]}).

(** [update_step_factory]: [update_policy_fn] *)
Definition update_policy_fn (config : AlgoConfig)
    (policy_state qvalue_state alpha_state : TrainState) (batch : Batch)
  : result (TrainState * TrainState * F * Params F) :=
  let '(loss, entropy, grads) :=
    policy_value_and_grad (Train.params policy_state)
      (Train.params qvalue_state) (Train.params alpha_state) batch in
  let policy_state := Train.apply_gradients policy_state grads in
  policy_target ← Train.updated_target policy_state (tau (algo_params config));
  let policy_state := Train.replace_target policy_state policy_target in
  qvalue_target ← Train.updated_target qvalue_state (tau (algo_params config));
  let qvalue_state := Train.replace_target qvalue_state qvalue_target in
  Ok (policy_state, qvalue_state, loss,
      {[ "loss_policy" := loss; "entropy" := entropy ]}).

(** [update_step_factory]: [update_alpha_fn] *)
Definition update_alpha_fn (key : Key) (policy_state alpha_state : TrainState)
    (batch : Batch) : TrainState * F * Params F :=
  let '(loss, alpha, grads) :=
    alpha_value_and_grad key (Train.params policy_state)
      (Train.params alpha_state) batch in
  let alpha_state := Train.apply_gradients alpha_state grads in
  (alpha_state, loss, {[ "loss_alpha" := loss; "alpha" := alpha ]}).

(** [update_step_factory]: [update_step_fn] *)
Definition update_step_fn (config : AlgoConfig) (state : SACTrainState)
    (key : Key) (batch : Batch) : result (SACTrainState * Params F) :=
  let '(qvalue_state, loss_qvalue, info_qvalue) :=
    update_qvalue_fn (qvalue_state state) batch in
  '(policy_state, qvalue_state, loss_policy, info_policy) ←
    update_policy_fn config (policy_state state) qvalue_state
      (alpha_state state) batch;
  let '(alpha_state, loss_alpha, info_alpha) :=
    update_alpha_fn key policy_state (alpha_state state) batch in
  let info := info_alpha ∪ (info_policy ∪ info_qvalue) in
  let info :=
    <[ "total_loss" := fadd (fadd loss_qvalue loss_policy) loss_alpha ]> info in
  Ok ({| policy_state := policy_state; qvalue_state := qvalue_state;
         alpha_state := alpha_state |}, info).

(** ** The agent *)

(** The attributes of a [SAC] object that the methods below use.
    [interact_keys] is a method of [OffPolicyAgent], absent from the
    sources; like the other agents' entry points it draws the keys of
    one interaction with [nextkey]. *)
Record SAC : Type := mkSAC {
  config : AlgoConfig;
  state : SACTrainState;
  key : Key;
  step : Z;
  parallel : bool;
  explore_fn : TrainState → per_agent Key → per_agent Obs → Action * Action
}.

Definition with_key (self : SAC) (key : Key) : SAC :=
  {| config := config self; state := state self; key := key;
     step := step self; parallel := parallel self;
     explore_fn := explore_fn self |}.

Definition explore (self : SAC) (observation : per_agent Obs)
  : result (SAC * (Action * Action)) :=
  '(key', keys) ← interact_keys (parallel self) (key self) observation;
  let self := with_key self key' in
  let '(action, log_prob) :=
    explore_fn self (policy_state (state self)) keys observation in
  if step self <? start_step (algo_params (config self)) then
    let '(key', k) := nextkey (key self) in
    let self := with_key self key' in
    let action := uniform k action in
    let log_prob := zeros_like action in
    Ok (self, (action, log_prob))
  else Ok (self, (action, log_prob)).

Definition select_action (self : SAC) (observation : per_agent Obs)
  : result (SAC * (Action * Action)) :=
  explore self observation.

End SAC.

Arguments SACParams : clear implicits.
Arguments AlgoConfig : clear implicits.
Arguments SACTrainState : clear implicits.
Arguments SAC : clear implicits.
Arguments mkAlgoConfig {F Shape} _ _ _.

(** An example over the integers, as for TD3: [tau = 1], warm-up until
    step 10. *)
Definition example_config : AlgoConfig Z unit :=
  mkAlgoConfig
    {| gamma := 1; tau := 1; log_std_min := 0; log_std_max := 0;
       initial_alpha := 1; start_step := 10; skip_steps := 1 |} tt tt.

Definition example_state : SACTrainState Z unit :=
  {| policy_state :=
       {| Train.step := 0; Train.params := {[ "w" := 5 ]};
          Train.target_params := Some {[ "w" := 5 ]}; Train.opt_state := tt |};
     qvalue_state :=
       {| Train.step := 0; Train.params := {[ "v" := 3 ]};
          Train.target_params := Some {[ "v" := 3 ]}; Train.opt_state := tt |};
     alpha_state :=
       {| Train.step := 0; Train.params := {[ "log_alpha" := 0 ]};
          Train.target_params := None; Train.opt_state := tt |} |}.

Definition example_qvalue_grad (params : Params Z) (batch : unit)
  : Z * Params Z := (0, params).

Definition example_policy_grad (params qvalue_params alpha_params : Params Z)
    (batch : unit) : Z * Z * Params Z := (0, 0, params).

Definition example_alpha_grad (key : list (nat * nat))
    (policy_params params : Params Z) (batch : unit) : Z * Z * Params Z :=
  (0, 0, params).

(** An agent in its warm-up phase (step 0, before [start_step = 10])
    with the given key state.  Its policy is deterministic: the explore
    function returns the leaf [w] of the policy params plus the
    observation, and a zero log-probability. *)
Definition example_agent (key : list (nat * nat))
  : SAC Z unit (list (nat * nat)) unit Z Z :=
  {| config := example_config; state := example_state;
     key := key; step := 0; parallel := false;
     explore_fn := λ policy_state keys observation,
       match observation with
       | single o => (default 0 (Train.params policy_state !! "w") + o, 0)
       | parallel_dict _ => (0, 0)
       end |}.

End SAC.

(** * rl/algos/dqn.py *)

Module DQN.

Section DQN.

Context {F OptState : Type} `{!FloatOps F} `{!Optimizer F OptState}.
Context {Key Obs Action : Type} `{!Sampling Key Action}.

Definition NO_EXPLORATION : F := fzero.

Record DQNParams : Type := mkDQNParams {
  exploration : F;
  gamma : F;
  skip_steps : Z
}.

(** The attributes of a [DQN] object that the entry points use; the
    state is a flax [TrainState], which has no target params. *)
Record DQN : Type := mkDQN {
  algo_params : DQNParams;
  state : Train.TrainState F OptState;
  key : Key;
  parallel : bool;
  explore_fn : Params F → per_agent Key → per_agent Obs → F → Action * Action
}.

Definition with_key (self : DQN) (key : Key) : DQN :=
  {| algo_params := algo_params self; state := state self; key := key;
     parallel := parallel self; explore_fn := explore_fn self |}.

Definition select_action (self : DQN) (observation : per_agent Obs)
  : result (DQN * (Action * Action)) :=
  '(key', keys) ← interact_keys (parallel self) (key self) observation;
  let self := with_key self key' in
  let '(action, zeros) :=
    explore_fn self (Train.params (state self)) keys observation
      NO_EXPLORATION in
  Ok (self, (action, zeros)).

Definition explore (self : DQN) (observation : per_agent Obs)
  : result (DQN * (Action * Action)) :=
  '(key', keys) ← interact_keys (parallel self) (key self) observation;
  let self := with_key self key' in
  let '(action, zeros) :=
    explore_fn self (Train.params (state self)) keys observation
      (exploration (algo_params self)) in
  Ok (self, (action, zeros)).

(** [self.config.update_cfg.batch_size], read through the agent. *)
Variable batch_size : DQN → Z.

(** [should_update], on the length of the buffer; [and] stops at the
    first false operand. *)
Definition should_update (self : DQN) (step : Z) (len_buffer : Z)
  : result bool :=
  if negb (batch_size self <=? len_buffer) then Ok false
  else if skip_steps (algo_params self) =? 0 then Raise ZeroDivisionError
  else Ok (step mod skip_steps (algo_params self) =? 0).

End DQN.

Arguments DQNParams : clear implicits.
Arguments DQN : clear implicits.

(** An example agent over the integers whose explore function returns
    the exploration coefficient it is given as the action. *)
Definition example_agent : DQN Z unit (list (nat * nat)) Z Z :=
  {| algo_params := {| exploration := 7; gamma := 1; skip_steps := 1 |};
     state := {| Train.step := 0; Train.params := {[ "w" := 5 ]};
                 Train.target_params := None; Train.opt_state := tt |};
     key := []; parallel := false;
     explore_fn := λ params keys observation exploration, (exploration, 0) |}.

End DQN.

(** * rl/modules/modules.py and rl/modules/policy_value.py *)

Module PolicyValue.

(** The gymnasium spaces that have a [shape], as far as the factories
    tell them apart: [Discrete] spaces, whose shape is [()], [Box]
    spaces, and any other space. *)
Inductive space : Type :=
| Discrete (n : nat)
| Box (shape : list nat)
| other_space (shape : list nat).

Definition space_shape (s : space) : list nat :=
  match s with
  | Discrete _ => []
  | Box shape | other_space shape => shape
  end.

Section Modules.

(** The type of the [preprocess_fn] handed to the encoders. *)
Context {Preprocess : Type}.

(** The flax modules of the two files; [encoder_then encoder head] is
    one of the local classes [Policy] and [Value], which apply a fresh
    encoder and then the head. *)
Inductive module : Type :=
| VisionEncoder (rearrange_pattern : string) (preprocess_fn : option Preprocess)
| VectorEncoder (preprocess_fn : option Preprocess)
| PassThrough
| PolicyCategoricalOutput (num_outputs : nat)
| PolicyNormalOutput (num_outputs : nat)
| ValueOutput
| encoder_then (encoder head : module).

(** The [features] of the last [Dense] layer of an encoder. *)
Definition out_features (m : module) : option nat :=
  match m with
  | VisionEncoder _ _ => Some 512%nat
  | VectorEncoder _ => Some 64%nat
  | _ => None
  end.

Definition encoder_factory (observation_space : space)
    (rearrange_pattern : string) (preprocess_fn : option Preprocess)
  : result module :=
  if decide (length (space_shape observation_space) = 1%nat)
  then Ok (VectorEncoder preprocess_fn)
  else if decide (length (space_shape observation_space) = 3%nat)
  then Ok (VisionEncoder rearrange_pattern preprocess_fn)
  else Raise NotImplementedError.

(** [policy_output_factory]; registering the distribution with
    [dx_tabulate] only affects how tables are printed. *)
Definition policy_output_factory (action_space : space)
  : result (nat → module) :=
  match action_space with
  | Discrete _ => Ok PolicyCategoricalOutput
  | Box _ => Ok PolicyNormalOutput
  | other_space _ => Raise NotImplementedError
  end.

Record PolicyValueModules : Type := mkPolicyValueModules {
  encoder : module;
  policy : module;
  value : module
}.

(** [create_policy_value_modules]; [action_space.shape[-1]] raises on an
    empty shape. *)
Definition create_policy_value_modules (observation_space action_space : space)
    (shared_encoder : bool) (rearrange_pattern : string)
    (preprocess_fn : option Preprocess) : result PolicyValueModules :=
  encoder ← encoder_factory observation_space rearrange_pattern preprocess_fn;
  policy_output ← policy_output_factory action_space;
  num_actions ←
    match action_space with
    | Discrete n => Ok n
    | _ =>
        match last (space_shape action_space) with
        | Some n => Ok n
        | None => Raise IndexError
        end
    end;
  if shared_encoder then
    Ok {| encoder := encoder; policy := policy_output num_actions;
          value := ValueOutput |}
  else
    Ok {| encoder := PassThrough;
          policy := encoder_then encoder (policy_output num_actions);
          value := encoder_then encoder ValueOutput |}.

Context {F Key : Type} `{!PRNG Key}.

(** flax's [module.init], as for [Train.init_params]. *)
Variable module_init : Key → module → list (list nat) → gmap string (Params F).

Record ParamsPolicyValue : Type := mkParamsPolicyValue {
  params_encoder : Params F;
  params_policy : Params F;
  params_value : Params F
}.

(** The [hidden_shape] of [create_params_policy_value]. *)
Definition hidden_shape (observation_space : space) : list nat :=
  if decide (length (space_shape observation_space) = 3%nat)
  then [512%nat] else [64%nat].

Definition create_params_policy_value (key : Key) (modules : PolicyValueModules)
    (observation_space : space) (shared_encoder tabulate : bool)
  : ParamsPolicyValue :=
  let keys := split key 3 in
  let key1 := keys !!! 0%fin in
  let key2 := keys !!! 1%fin in
  let key3 := keys !!! 2%fin in
  if shared_encoder then
    let hidden_shape := hidden_shape observation_space in
    {| params_encoder :=
         Train.init_params module_init key1 (encoder modules)
           [space_shape observation_space] tabulate;
       params_policy :=
         Train.init_params module_init key2 (policy modules)
           [hidden_shape] tabulate;
       params_value :=
         Train.init_params module_init key3 (value modules)
           [hidden_shape] tabulate |}
  else
    {| params_encoder :=
         Train.init_params module_init key1 (encoder modules)
           [space_shape observation_space] tabulate;
       params_policy :=
         Train.init_params module_init key2 (policy modules)
           [space_shape observation_space] tabulate;
       params_value :=
         Train.init_params module_init key3 (value modules)
           [space_shape observation_space] tabulate |}.

(** The list [params_population] that
    [train_state_policy_value_population_factory] builds. *)
Definition params_population (key : Key) (modules : PolicyValueModules)
    (observation_space : space) (shared_encoder tabulate : bool)
    (population_size : nat) : list ParamsPolicyValue :=
  (λ i, create_params_policy_value key modules observation_space
          shared_encoder (bool_decide (i = 0%nat) && tabulate))
    <$> seq 0 population_size.

End Modules.

Arguments module : clear implicits.
Arguments PolicyValueModules : clear implicits.
Arguments ParamsPolicyValue : clear implicits.

End PolicyValue.

(** * Part II: properties *)


(** ** The saver context *)

Section SaverContextFacts.

Context {State : Type}.
Variable manager_save :
  list (Z * State) → Z → State → list (Z * State) * result unit.
Implicit Types (self : Save.SaverContext State) (sv : Save.Saver State).
Implicit Types (step f : Z) (state : State) (calls : list (Z * State)).


Lemma update_due self step state :
  Save.save_frequency self ≠ 0 →
  Save.update manager_save self step state =
    if Save.due (Save.save_frequency self) step
    then
      let saved := Save.save manager_save (Save.saver self) step state in
      (Save.mkSaverContext saved.1 (Save.save_frequency self) step (Some state),
       saved.2)
    else
      (Save.mkSaverContext (Save.saver self) (Save.save_frequency self) step
         (Some state), Ok tt).
Proof.
  intros Hf. unfold Save.update, Save.due; simpl.
  destruct (Z.ltb_spec (Save.save_frequency self) 0) as [Hneg|Hpos].
  - by assert ((0 <? Save.save_frequency self) = false) as -> by lia.
  - destruct (Z.eqb_spec (Save.save_frequency self) 0) as [|_]; [done|].
    assert ((0 <? Save.save_frequency self) = true) as -> by lia.
    simpl. by destruct (step mod Save.save_frequency self =? 0).
Qed.

Lemma update_zero_frequency self step state :
  Save.save_frequency self = 0 →
  Save.update manager_save self step state =
    (Save.mkSaverContext (Save.saver self) 0 step (Some state),
     Raise ZeroDivisionError).
Proof.
  intros Hf. unfold Save.update; simpl. by rewrite Hf.
Qed.

Lemma due_divide f step :
  f ≠ 0 → (Save.due f step = true ↔ 0 ≤ f ∧ (f | step)).
Proof.
  intros Hf. unfold Save.due.
  rewrite andb_true_iff, Z.ltb_lt, Z.eqb_eq, (Z.mod_divide _ _ Hf).
  intuition lia.
Qed.

Lemma save_each_app sv calls calls' :
  Save.save_each manager_save sv (calls ++ calls') =
    match Save.save_each manager_save sv calls with
    | (sv', Ok _) => Save.save_each manager_save sv' calls'
    | (sv', Raise e) => (sv', Raise e)
    end.
Proof.
  revert sv. induction calls as [|[step state] rest IH]; intros sv; cbn.
  - done.
  - destruct (Save.save manager_save sv step state) as [sv' [[]|e]]; [|done].
    apply IH.
Qed.

Lemma last_cons_default {A B} (x : A) (d : B) (l : list A) (f : A → B) :
  from_option f (f x) (last l) = from_option f d (last (x :: l)).
Proof.
  destruct l as [|y l]; [done|].
  rewrite (last_cons_cons x).
  by destruct (proj2 (last_is_Some (y :: l))) as [? ->].
Qed.

Lemma body_due self calls :
  Save.save_frequency self ≠ 0 →
  let due := filter (λ c, Save.due (Save.save_frequency self) c.1 = true) calls in
  (Save.save_each manager_save (Save.saver self) due).2 = Ok tt →
  Save.body manager_save self calls =
    (Save.mkSaverContext (Save.save_each manager_save (Save.saver self) due).1
       (Save.save_frequency self)
       (from_option fst (Save.cur_step self) (last calls))
       (from_option (λ c, Some c.2) (Save.cur_state self) (last calls)),
     Ok tt).
Proof.
  revert self. induction calls as [|[step state] rest IH]; intros self Hf.
  - simpl. intros _. by destruct self.
  - cbn zeta. rewrite filter_cons.
    change (Save.body manager_save self ((step, state) :: rest))
      with (match Save.update manager_save self step state with
            | (self', Ok _) => Save.body manager_save self' rest
            | (self', Raise e) => (self', Raise e)
            end).
    rewrite (update_due self step state Hf).
    rewrite <-(last_cons_default (step, state) (Save.cur_step self) rest fst).
    rewrite <-(last_cons_default (step, state) (Save.cur_state self) rest
                 (λ c, Some c.2)).
    case_decide as Hd.
    + simpl in Hd. rewrite Hd. cbn [Save.save_each fst snd].
      destruct (Save.save manager_save (Save.saver self) step state)
        as [sv' [[]|e]] eqn:Hsave; cbn [fst snd]; [|done].
      intros Hok.
      by rewrite (IH (Save.mkSaverContext sv' (Save.save_frequency self) step
                        (Some state))).
    + simpl in Hd. destruct (Save.due _ step); [done|].
      intros Hok.
      by rewrite (IH (Save.mkSaverContext (Save.saver self)
                        (Save.save_frequency self) step (Some state))).
Qed.

(** C10 (as amended).  For a save frequency [f ≠ 0] and whatever the
    checkpoint manager does with a request: [update] records the pair and
    calls [Saver.save] on it, returning or raising as that call does,
    when [f] is positive and the step is a multiple of [f]; otherwise it
    records the pair, calls nothing and returns.  When the saves of the
    body have all returned, leaving the [with] block calls [Saver.save]
    once more, on the last recorded (step, state) pair, whatever [f] and
    that step are, and raises what that call raises; it calls nothing
    when no update was recorded. *)
Theorem saver_context_persists self sv f step state calls :
  f ≠ 0 →
  Save.save_frequency self = f →
  let saved := Save.save manager_save (Save.saver self) step state in
  Save.update manager_save self step state =
    (if decide (0 ≤ f ∧ (f | step))
     then (Save.mkSaverContext saved.1 f step (Some state), saved.2)
     else (Save.mkSaverContext (Save.saver self) f step (Some state), Ok tt)) ∧
  let due := filter (λ c, 0 ≤ f ∧ (f | c.1)) calls in
  ((Save.save_each manager_save sv due).2 = Ok tt →
   let out :=
     Save.save_each manager_save sv (due ++ option_list (last calls)) in
   Save.with_block manager_save sv f calls =
     (Save.mkSaverContext out.1 f
        (from_option fst 0 (last calls)) (snd <$> last calls), out.2)).
Proof.
  intros Hf Hself saved. split.
  - rewrite (update_due self step state) by congruence. rewrite Hself.
    pose proof (due_divide f step Hf) as Hdue.
    destruct (Save.due f step); case_decide as Hd; [done| | |done].
    + destruct Hd. by apply Hdue.
    + by apply Hdue in Hd.
  - intros due Hok out. subst out due.
    assert (filter (λ c : Z * State, Save.due f c.1 = true) calls
            = filter (λ c : Z * State, 0 ≤ f ∧ (f | c.1)) calls) as Hfilter.
    { apply list_filter_iff. intros c. by apply due_divide. }
    unfold Save.with_block.
    rewrite (body_due (Save.__init__ sv f) calls Hf); simpl;
      rewrite Hfilter; [|done].
    rewrite save_each_app.
    destruct (Save.save_each manager_save sv _) as [sv1 r1]. simpl in Hok.
    subst r1. unfold Save.__exit__. simpl.
    destruct (last calls) as [[s st]|]; simpl; [|done].
    by destruct (manager_save (Save.ckpt_manager sv1) s st) as [m [[]|e]].
Qed.

End SaverContextFacts.

Lemma saver_context_persists_witness :
  let manager_save := Save.example_manager_save (State:=nat) in
  let self := Save.__init__ (Save.mkSaver [(0, 7%nat)]) 2 in
  let calls := [(4, 9%nat); (5, 3%nat); (6, 1%nat); (7, 8%nat)] in
  Save.update manager_save self 4 9%nat =
    (Save.mkSaverContext (Save.mkSaver [(0, 7%nat); (4, 9%nat)]) 2 4 (Some 9%nat),
     Ok tt) ∧
  Save.with_block manager_save (Save.mkSaver []) 2 calls =
    (Save.mkSaverContext (Save.mkSaver [(4, 9%nat); (6, 1%nat); (7, 8%nat)])
       2 7 (Some 8%nat), Ok tt).
Proof.
  intros manager_save self calls.
  destruct (saver_context_persists manager_save self (Save.mkSaver []) 2 4 9%nat
              calls) as [H1 H2].
  - lia.
  - reflexivity.
  - split.
    + rewrite H1. rewrite decide_True; [reflexivity|].
      split; [lia|]. exists 2. lia.
    + rewrite H2.
      * vm_compute. reflexivity.
      * vm_compute. reflexivity.
Defined.

(** C10 as stated fails at frequency zero: step 0 is a multiple of the
    non-negative frequency 0, yet [update] raises [ZeroDivisionError]
    and the manager, which would have stored the step, holds nothing. *)
Lemma saver_context_zero_frequency :
  let manager_save := Save.example_manager_save (State:=unit) in
  let self := Save.__init__ (Save.mkSaver []) 0 in
  (0 ≤ 0 ∧ (0 | 0)) ∧
  Save.update manager_save self 0 tt =
    (Save.mkSaverContext (Save.mkSaver []) 0 0 (Some tt),
     Raise ZeroDivisionError) ∧
  Save.save manager_save (Save.saver self) 0 tt
    = (Save.mkSaver [(0, tt)], Ok tt).
Proof.
  simpl. split_and!.
  - lia.
  - exists 0. lia.
  - reflexivity.
  - reflexivity.
Qed.

(** ** Key derivation *)

Section DeriveFacts.

Context {Key : Type} `{!PRNG Key}.
Implicit Types (key : Key) (path : list (nat * nat)).

Lemma derive_nil key : derive key [] = key.
Proof. reflexivity. Qed.

Lemma derive_cons key num (i : fin num) path :
  derive key ((num, fin_to_nat i) :: path) = derive (split key num !!! i) path.
Proof.
  unfold derive. simpl. f_equal.
  assert (vec_to_list (split key num) !! fin_to_nat i = Some (split key num !!! i)) as ->.
  { by apply vlookup_lookup. }
  done.
Qed.

Lemma derive_app key path1 path2 :
  derive key (path1 ++ path2) = derive (derive key path1) path2.
Proof. unfold derive. by rewrite foldl_app. Qed.

Lemma derive_split_0 key path :
  derive key ((2, 0)%nat :: path) = derive (split key 2 !!! 0%fin) path.
Proof. exact (derive_cons key 2 0%fin path). Qed.

Lemma derive_split_1 key path :
  derive key ((2, 1)%nat :: path) = derive (split key 2 !!! 1%fin) path.
Proof. exact (derive_cons key 2 1%fin path). Qed.

End DeriveFacts.

(** ** The update pipeline *)

Section UpdatePipelineFacts.

Context {Key : Type} `{!PRNG Key}.
Context {MState Batch InfoVal : Type}.

Abbreviation UM := (Pipeline.UpdateModule Key MState Batch InfoVal).

Implicit Types (key : Key) (batch : Batch) (info : gmap string InfoVal).
Implicit Types (module : UM) (pre rest : list UM).
Implicit Types (outs : list (MState * gmap string InfoVal)).

Lemma stage_seed_0 key :
  Pipeline.stage_seed key 0 = split key 2 !!! 1%fin.
Proof. unfold Pipeline.stage_seed. simpl. by rewrite derive_split_1. Qed.

Lemma stage_seed_S key j :
  Pipeline.stage_seed key (S j) = Pipeline.stage_seed (split key 2 !!! 0%fin) j.
Proof. unfold Pipeline.stage_seed. simpl. by rewrite derive_split_0. Qed.

Lemma stages_ok_tail module rest key batch o outs :
  Pipeline.stages_ok (module :: rest) key batch (o :: outs) →
  Pipeline.update_fn module (Pipeline.state module)
    (split key 2 !!! 1%fin) batch = Ok o ∧
  Pipeline.stages_ok rest (split key 2 !!! 0%fin) batch outs.
Proof.
  intros Hok. split.
  - destruct (Hok 0%nat module) as (o' & [= <-] & Ho); simpl; [lia|done|].
    by rewrite stage_seed_0 in Ho.
  - intros j m Hj Hm.
    destruct (Hok (S j) m) as (o' & Ho' & Hf); simpl; [lia|done|].
    exists o'. split; [done|]. by rewrite stage_seed_S in Hf.
Qed.

Lemma update_loop_prefix rest : ∀ pre key batch info outs n,
  (length rest ≤ n)%nat →
  (length outs ≤ length rest)%nat →
  Pipeline.stages_ok rest key batch outs →
  Pipeline.update_loop n (length pre) (pre ++ rest) key batch info =
  Pipeline.update_loop (n - length outs) (length pre + length outs)
    (pre ++ zip_with Pipeline.replace (take (length outs) rest) outs.*1
         ++ drop (length outs) rest)
    (Pipeline.carried_key key (length outs)) batch
    (foldl (λ acc module_info, module_info ∪ acc) info outs.*2).
Proof.
  induction rest as [|module rest IH]; intros pre key batch info outs n Hn Hlen Hok.
  - destruct outs; simpl in *; [|lia].
    rewrite Nat.sub_0_r, Nat.add_0_r. done.
  - destruct outs as [|[st mi] outs].
    { simpl. rewrite Nat.sub_0_r, Nat.add_0_r. done. }
    destruct n as [|n]; simpl in Hn, Hlen; [lia|].
    apply stages_ok_tail in Hok as [Hfn Hok].
    cbn [Pipeline.update_loop].
    rewrite lookup_app_r, Nat.sub_diag by lia. cbn [lookup list_lookup].
    rewrite Hfn.
    replace (<[length pre:=Pipeline.replace module st]> (pre ++ module :: rest))
      with ((pre ++ [Pipeline.replace module st]) ++ rest).
    2:{ rewrite insert_app_r_alt, Nat.sub_diag by lia. simpl.
        by rewrite <-app_assoc. }
    replace (S (length pre)) with (length (pre ++ [Pipeline.replace module st])).
    2:{ rewrite length_app. simpl. lia. }
    rewrite (IH _ _ _ _ outs) by (done || lia).
    rewrite length_app. simpl.
    replace (length pre + 1 + length outs)%nat
      with (length pre + S (length outs))%nat by lia.
    rewrite <-!app_assoc. simpl.
    unfold Pipeline.carried_key. simpl. rewrite derive_split_0. done.
Qed.

Lemma merge_lookup (infos : list (gmap string InfoVal)) : ∀ acc k v,
  foldl (λ acc module_info, module_info ∪ acc) acc infos !! k = Some v ↔
  Pipeline.last_reported infos k v ∨
  (acc !! k = Some v ∧ ∀ j info_j, infos !! j = Some info_j → info_j !! k = None).
Proof.
  induction infos as [|x infos IH]; intros acc k v; simpl.
  - split.
    + intros Hacc. right. split; [done|]. intros j ?. by rewrite lookup_nil.
    + intros [(j & ? & Hj & _)|[? _]]; [by rewrite lookup_nil in Hj|done].
  - rewrite IH, lookup_union_Some_raw. split.
    + intros [(j & mi & Hj & Hk & Hlast)|[[Hx|[Hx Hacc]] Hnone]].
      * left. exists (S j), mi. split_and!; [done..|].
        intros [|j'] info' Hlt Hj'; [lia|]. apply (Hlast j'); [lia|done].
      * left. exists 0%nat, x. split_and!; [done..|].
        intros [|j'] info' Hlt Hj'; [lia|]. by apply (Hnone j').
      * right. split; [done|].
        intros [|j] mi Hj; simpl in Hj; [by simplify_eq|]. by apply (Hnone j).
    + intros [(j & mi & Hj & Hk & Hlast)|[Hacc Hnone]].
      * destruct j as [|j]; simpl in Hj.
        -- simplify_eq. right. split; [by left|].
           intros j' info' Hj'. apply (Hlast (S j')); [lia|done].
        -- left. exists j, mi. split_and!; [done..|].
           intros j' info' Hlt Hj'. apply (Hlast (S j')); [lia|done].
      * right. split.
        -- right. split; [|done]. by apply (Hnone 0%nat).
        -- intros j mi Hj. by apply (Hnone (S j)).
Qed.

Lemma merge_info_lookup (infos : list (gmap string InfoVal)) k v :
  Pipeline.merge_info infos !! k = Some v ↔ Pipeline.last_reported infos k v.
Proof.
  unfold Pipeline.merge_info. rewrite merge_lookup, lookup_empty.
  split; [|by left]. by intros [?|[[=] _]].
Qed.

Lemma replace_states (ms : list UM) (sts : list MState) :
  length sts = length ms →
  Pipeline.state <$> zip_with Pipeline.replace ms sts = sts.
Proof.
  revert sts. induction ms as [|m ms IH]; intros [|st sts] Hlen;
    simplify_eq/=; [done|]. f_equal. by apply IH.
Qed.

Lemma replace_update_fns (ms : list UM) (sts : list MState) :
  length sts = length ms →
  Pipeline.update_fn <$> zip_with Pipeline.replace ms sts
  = Pipeline.update_fn <$> ms.
Proof.
  revert sts. induction ms as [|m ms IH]; intros [|st sts] Hlen;
    simplify_eq/=; [done|]. f_equal. by apply IH.
Qed.

(** C7.  When every stage succeeds, [update_pipeline] has run the update
    functions in list order, stage [j] on its own module state, the
    shared batch and the sub-seed split off in round [j]; it returns the
    list of the modules, in their order, each with its update function and
    with the state that its stage has returned, and the merge of the
    stages' diagnostics in which the last stage reporting a name wins.
    The caller's list holds the same modules. *)
Theorem update_pipeline_sequential (update_modules : list UM) key batch outs :
  length outs = length update_modules →
  (∀ j module, update_modules !! j = Some module →
     ∃ o, outs !! j = Some o ∧
       Pipeline.update_fn module (Pipeline.state module)
         (derive key (replicate j (2, 0)%nat ++ [(2, 1)%nat])) batch = Ok o) →
  ∃ updated,
    Pipeline.update_pipeline update_modules key batch
      = (updated, Ok (updated, Pipeline.merge_info outs.*2)) ∧
    Pipeline.state <$> updated = outs.*1 ∧
    Pipeline.update_fn <$> updated = Pipeline.update_fn <$> update_modules ∧
    ∀ k v, Pipeline.merge_info outs.*2 !! k = Some v ↔
      ∃ j info_j, outs.*2 !! j = Some info_j ∧ info_j !! k = Some v ∧
        ∀ j' info', (j < j')%nat → outs.*2 !! j' = Some info' → info' !! k = None.
Proof.
  intros Hlen Hstages.
  exists (zip_with Pipeline.replace update_modules outs.*1).
  split_and!.
  - unfold Pipeline.update_pipeline.
    pose proof (update_loop_prefix update_modules [] key batch ∅ outs
                  (length update_modules)) as Hloop.
    simpl in Hloop. rewrite Hloop; [|lia..|].
    + rewrite Hlen, Nat.sub_diag, firstn_all, drop_all, app_nil_r. done.
    + intros j module _ Hj. apply Hstages, Hj.
  - apply replace_states. by rewrite length_fmap.
  - apply replace_update_fns. by rewrite length_fmap.
  - intros k v. apply merge_info_lookup.
Qed.

(** C4 (as amended).  Modules and their states are values that are never
    mutated, but each new module is stored into the caller's list as
    soon as its stage has succeeded: when stage [i] is the first whose
    update function raises, the call raises, the entries before [i] of
    the caller's list hold the updated modules, and the entries from [i]
    on are the ones the caller passed. *)
Theorem update_pipeline_failure (update_modules : list UM) key batch outs
    i module e :
  length outs = i →
  (∀ j m, (j < i)%nat → update_modules !! j = Some m →
     ∃ o, outs !! j = Some o ∧
       Pipeline.update_fn m (Pipeline.state m)
         (derive key (replicate j (2, 0)%nat ++ [(2, 1)%nat])) batch = Ok o) →
  update_modules !! i = Some module →
  Pipeline.update_fn module (Pipeline.state module)
    (derive key (replicate i (2, 0)%nat ++ [(2, 1)%nat])) batch = Raise e →
  Pipeline.update_pipeline update_modules key batch =
    (zip_with Pipeline.replace (take i update_modules) outs.*1
       ++ drop i update_modules,
     Raise e).
Proof.
  intros Hlen Hstages Hi Hfail.
  pose proof (lookup_lt_Some _ _ _ Hi) as Hlt.
  unfold Pipeline.update_pipeline.
  pose proof (update_loop_prefix update_modules [] key batch ∅ outs
                (length update_modules)) as Hloop.
  simpl in Hloop. rewrite Hloop; [|lia..|].
  2:{ intros j m Hj Hm. apply Hstages; [lia|done]. }
  rewrite Hlen.
  destruct (length update_modules - i)%nat as [|n] eqn:Hn; [lia|].
  cbn [Pipeline.update_loop].
  assert (length (zip_with Pipeline.replace (take i update_modules) outs.*1) = i)
    as Hzip.
  { rewrite length_zip_with, length_take, length_fmap. lia. }
  rewrite lookup_app_r, Hzip, Nat.sub_diag by lia.
  rewrite lookup_drop, Nat.add_0_r, Hi.
  unfold Pipeline.carried_key.
  assert (Pipeline.update_fn module (Pipeline.state module)
            (split (derive key (replicate i (2, 0)%nat)) 2 !!! 1%fin) batch
          = Raise e) as ->; [|done].
  by rewrite derive_app, derive_split_1 in Hfail.
Qed.

End UpdatePipelineFacts.

Lemma update_pipeline_sequential_witness :
  let update_modules := [Pipeline.add_batch; Pipeline.double] in
  let outs := [(3, {[ "loss" := 0 ]});
               (10, ({[ "loss" := 3; "norm" := 5 ]} : gmap string Z))] in
  ∃ updated,
    Pipeline.update_pipeline update_modules [] 3
      = (updated, Ok (updated, Pipeline.merge_info outs.*2)) ∧
    Pipeline.state <$> updated = outs.*1 ∧
    Pipeline.update_fn <$> updated = Pipeline.update_fn <$> update_modules ∧
    ∀ k v, Pipeline.merge_info outs.*2 !! k = Some v ↔
      ∃ j info_j, outs.*2 !! j = Some info_j ∧ info_j !! k = Some v ∧
        ∀ j' info', (j < j')%nat → outs.*2 !! j' = Some info' → info' !! k = None.
Proof.
  intros update_modules outs.
  apply (update_pipeline_sequential update_modules [] 3 outs).
  - reflexivity.
  - intros [|[|j]] module Hj; simpl in Hj; simplify_eq.
    + eexists. split; reflexivity.
    + eexists. split; reflexivity.
Defined.

Lemma update_pipeline_failure_witness :
  let update_modules := [Pipeline.add_batch; Pipeline.failing; Pipeline.double] in
  let outs := [(3, ({[ "loss" := 0 ]} : gmap string Z))] in
  Pipeline.update_pipeline update_modules [] 3 =
    (zip_with Pipeline.replace (take 1 update_modules) outs.*1
       ++ drop 1 update_modules,
     Raise ValueError).
Proof.
  intros update_modules outs.
  apply (update_pipeline_failure update_modules [] 3 outs 1 Pipeline.failing).
  - reflexivity.
  - intros [|j] m Hlt Hj; simpl in Hj; simplify_eq; [|lia].
    eexists. split; reflexivity.
  - reflexivity.
  - reflexivity.
Defined.

(** C4 as stated fails: the second stage raises, and the caller's list
    then holds the first module with its new state 3 instead of the
    state 0 it held before the call. *)
Lemma update_pipeline_partial_update :
  let update_modules := [Pipeline.add_batch; Pipeline.failing; Pipeline.double] in
  let r := Pipeline.update_pipeline update_modules [] 3 in
  r.2 = Raise ValueError ∧
  Pipeline.state <$> update_modules = [0; 0; 5] ∧
  Pipeline.state <$> r.1 = [3; 0; 5] ∧
  r.1 ≠ update_modules.
Proof.
  simpl. split_and!; [reflexivity..|].
  intros Heq. apply (f_equal (fmap Pipeline.state)) in Heq. discriminate Heq.
Qed.

(** ** The experience pipeline *)

Section ExperiencePipelineFacts.

Context {Key : Type} `{!PRNG Key}.
Context {TState Exp Agent Raw : Type}.

Abbreviation ET := (Pipeline.ExperienceTransform Key TState Exp).

Implicit Types (key : Key) (ts : list ET).

Lemma vec_to_list_derive key n :
  vec_to_list (split key n) = (λ e, derive key [(n, e)]) <$> seq 0 n.
Proof.
  apply list_eq. intros e. rewrite list_lookup_fmap.
  destruct (decide (e < n)%nat) as [Hlt|Hge].
  - rewrite lookup_seq_lt by done. simpl.
    destruct (lookup_lt_is_Some_2 (vec_to_list (split key n)) e) as [k Hk].
    { by rewrite length_vec_to_list. }
    rewrite Hk. unfold derive. simpl. by rewrite Hk.
  - rewrite lookup_seq_ge by lia. simpl.
    apply lookup_ge_None_2. rewrite length_vec_to_list. lia.
Qed.

Lemma tail_split_derive key n :
  tail (vec_to_list (split key (S n))) = (λ e, derive key [(S n, S e)]) <$> seq 0 n.
Proof.
  rewrite vec_to_list_derive. cbn [seq fmap list_fmap tail].
  by rewrite <-fmap_S_seq, <-list_fmap_compose.
Qed.

Lemma agent_keys_paths (items : list (Agent * Exp)) : ∀ key,
  (Pipeline.agent_keys key items).*2 =
  (λ j, derive key (replicate j (2, 0)%nat ++ [(2, 1)%nat])) <$> seq 0 (length items).
Proof.
  induction items as [|[agent value] items IH]; intros key; [done|].
  cbn [Pipeline.agent_keys fmap list_fmap length seq snd].
  f_equal.
  - simpl. by rewrite derive_split_1.
  - rewrite IH, <-fmap_S_seq, <-list_fmap_compose.
    apply list_fmap_ext. intros _ j _. simpl. by rewrite derive_split_0.
Qed.

Lemma agent_env_keys_paths (items : list (Agent * list Exp)) : ∀ key pre,
  concat (Pipeline.agent_env_keys (derive key pre) items).*2 =
  derive key <$> Pipeline.agent_env_paths pre ((λ item, length item.2) <$> items).
Proof.
  induction items as [|[agent value] items IH]; intros key pre; [done|].
  cbn [Pipeline.agent_env_keys fmap list_fmap concat snd Pipeline.agent_env_paths].
  rewrite fmap_app. f_equal.
  - rewrite tail_split_derive, <-list_fmap_compose.
    apply list_fmap_ext. intros _ e _. simpl. by rewrite derive_app.
  - rewrite <-IH. do 3 f_equal.
    rewrite derive_app. symmetry. exact (derive_cons _ (S (length value)) 0%fin []).
Qed.

Lemma agent_env_paths_prefix sizes : ∀ pre path,
  path ∈ Pipeline.agent_env_paths pre sizes →
  ∃ step suffix, path = pre ++ step :: suffix.
Proof.
  induction sizes as [|n sizes IH]; intros pre path; simpl.
  - by rewrite elem_of_nil.
  - rewrite elem_of_app, list_elem_of_fmap.
    intros [(e & -> & _)|Hin]; [by eauto|].
    destruct (IH _ _ Hin) as (step & suffix & ->).
    exists (S n, 0%nat), (step :: suffix). by rewrite <-app_assoc.
Qed.

Lemma agent_env_paths_NoDup sizes : ∀ pre,
  NoDup (Pipeline.agent_env_paths pre sizes).
Proof.
  induction sizes as [|n sizes IH]; intros pre; simpl; [constructor|].
  apply NoDup_app. split_and!.
  - apply NoDup_fmap_2; [|apply NoDup_seq].
    intros e1 e2 Heq. apply app_inv_head in Heq. by simplify_eq.
  - intros path [e [-> _]]%list_elem_of_fmap Hin.
    apply agent_env_paths_prefix in Hin as (step & suffix & Heq).
    rewrite <-app_assoc in Heq. apply app_inv_head in Heq. simplify_eq.
  - apply IH.
Qed.

Lemma seed_paths_NoDup vectorized parallel
    (experiences : Pipeline.experiences_of (Exp:=Exp) (Agent:=Agent) vectorized parallel) :
  NoDup (Pipeline.seed_paths vectorized parallel experiences).
Proof.
  destruct parallel, vectorized; simpl in *.
  - apply agent_env_paths_NoDup.
  - apply NoDup_fmap_2; [|apply NoDup_seq].
    intros j1 j2 Heq. apply (f_equal length) in Heq.
    rewrite !length_app, !length_replicate in Heq. lia.
  - apply NoDup_fmap_2; [|apply NoDup_seq].
    intros e1 e2 Heq. by simplify_eq.
  - apply NoDup_singleton.
Qed.

Lemma sub_seeds_paths vectorized parallel key
    (experiences : Pipeline.experiences_of (Exp:=Exp) (Agent:=Agent) vectorized parallel) :
  Pipeline.sub_seeds vectorized parallel key experiences =
  derive key <$> Pipeline.seed_paths vectorized parallel experiences.
Proof.
  destruct parallel, vectorized; simpl in *.
  - exact (agent_env_keys_paths experiences key []).
  - by rewrite agent_keys_paths, <-list_fmap_compose.
  - by rewrite vec_to_list_derive, <-list_fmap_compose.
  - done.
Qed.

Lemma agent_env_keys_zip ts (items : list (Agent * list Exp)) : ∀ key,
  zip_with (λ ks item, (item.1, Pipeline.vmap_axis1 ts ks.2 item.2))
    (Pipeline.agent_env_keys key items) items =
  Pipeline.regroup items
    (zip_with (λ k x, Pipeline.process_experience ts (Pipeline.key_row k) x)
       (concat (Pipeline.agent_env_keys key items).*2) (concat items.*2)).
Proof.
  induction items as [|[agent value] items IH]; intros key; [done|].
  cbn [Pipeline.agent_env_keys zip_with concat fmap list_fmap fst snd
       Pipeline.regroup].
  assert (length (tail (vec_to_list (split key (S (length value)))))
          = length value) as Hlen.
  { by rewrite tail_split_derive, length_fmap, length_seq. }
  rewrite zip_with_app by done.
  rewrite take_app_length', drop_app_length'.
  - by rewrite IH.
  - rewrite length_zip_with. lia.
  - rewrite length_zip_with. lia.
Qed.

Lemma agent_keys_zip ts (items : list (Agent * Exp)) : ∀ key,
  zip_with (λ k item,
              (item.1,
               Pipeline.process_experience ts (Pipeline.key_array k.2) item.2))
    (Pipeline.agent_keys key items) items =
  zip items.*1
    (zip_with (λ k x, Pipeline.process_experience ts (Pipeline.key_array k) x)
       (Pipeline.agent_keys key items).*2 items.*2).
Proof.
  induction items as [|[agent value] items IH]; intros key; [done|].
  simpl. by rewrite IH.
Qed.

(** C8.  The output of the experience pipeline is fixed by the stages,
    the data and the sub-seeds that the input seed yields: it is obtained
    by running the stages, in list order and each on the output of the one
    before, once per independent invocation (one per environment index
    when vectorised, one per agent when parallel, one per agent and
    environment index when both), invocation [i] on its own slice of the
    data and every stage of it with sub-seed [i].  The sub-seeds are
    derived from the single input seed at pairwise distinct positions of
    its tree of splits, in the iteration order of the agents and
    environment indices, so they are pairwise distinct keys whenever the
    PRNG sends those positions to distinct keys.  Two runs on the same
    data whose seeds yield the same sub-seeds, and so two runs with the
    same seed, return the same output. *)
Theorem experience_pipeline_seeds
    (stack_experiences : ∀ v p, list Raw → Pipeline.experiences_of (Exp:=Exp) (Agent:=Agent) v p)
    (flatten_axis1 : list Exp → Exp)
    (stack_and_reshape : list (Agent * Exp) → Exp)
    (concat_and_reshape : list (Agent * list Exp) → Exp)
    vectorized parallel ts key key'
    (input : Pipeline.experiences_of vectorized parallel + list Raw) :
  let experiences :=
    match input with
    | inr raw => stack_experiences vectorized parallel raw
    | inl stacked => stacked
    end in
  let paths := Pipeline.seed_paths vectorized parallel experiences in
  let invocation (k : Key) (x : Exp) : Exp :=
    foldl (λ experience transform,
             Pipeline.process_experience_fn transform
               (Pipeline.transform_state transform)
               (Pipeline.invocation_key vectorized k) experience)
      x ts in
  let run (seed : Key) : Exp :=
    Pipeline.process_experience_pipeline_fn stack_experiences flatten_axis1
      stack_and_reshape concat_and_reshape vectorized parallel ts seed input in
  run key = Pipeline.combine flatten_axis1 stack_and_reshape concat_and_reshape
              vectorized parallel experiences
              (zip_with invocation (derive key <$> paths)
                 (Pipeline.invocations vectorized parallel experiences)) ∧
  Pipeline.sub_seeds vectorized parallel key experiences = derive key <$> paths ∧
  length paths = length (Pipeline.invocations vectorized parallel experiences) ∧
  NoDup paths ∧
  ((∀ p q, p ∈ paths → q ∈ paths → derive key p = derive key q → p = q) →
   NoDup (derive key <$> paths)) ∧
  (derive key' <$> paths = derive key <$> paths → run key' = run key).
Proof.
  intros experiences paths invocation run.
  assert (∀ seed, run seed =
            Pipeline.combine flatten_axis1 stack_and_reshape concat_and_reshape
              vectorized parallel experiences
              (zip_with invocation (derive seed <$> paths)
                 (Pipeline.invocations vectorized parallel experiences)))
    as Hrun.
  { intros seed. subst paths.
    rewrite <-(sub_seeds_paths vectorized parallel seed experiences).
    assert (run seed = Pipeline.process_experience_pipeline_fn stack_experiences
              flatten_axis1 stack_and_reshape concat_and_reshape
              vectorized parallel ts seed (inl experiences)) as ->.
    { subst run experiences. by destruct input. }
    subst invocation. clearbody experiences. clear.
    destruct parallel, vectorized; simpl in *.
    - by rewrite agent_env_keys_zip.
    - by rewrite agent_keys_zip.
    - done.
    - done. }
  assert (NoDup paths) as Hpaths by apply seed_paths_NoDup.
  split_and!; [apply Hrun|apply sub_seeds_paths| |done| |].
  - subst paths. clearbody experiences.
    destruct parallel, vectorized; simpl in *.
    + clear. generalize (@nil (nat * nat)).
      induction experiences as [|[a v] items IH]; intros pre; simpl; [done|].
      rewrite !length_app, length_fmap, length_seq. by rewrite IH.
    + by rewrite !length_fmap, length_seq.
    + by rewrite length_fmap, length_seq.
    + done.
  - intros Hfree. apply NoDup_fmap_2_strong; [|done].
    intros p q Hp Hq Heq. by apply Hfree.
  - intros Heq. by rewrite !Hrun, Heq.
Qed.

End ExperiencePipelineFacts.

Lemma experience_pipeline_seeds_witness :
  let experiences : Pipeline.experiences_of (Exp:=list Z) (Agent:=string) true true :=
    [("a", [[1]; [2]]); ("b", [[5]])] in
  let run (seed : list (nat * nat)) :=
    Pipeline.process_experience_pipeline_fn Pipeline.no_experiences
      Pipeline.concat_slices Pipeline.concat_agents Pipeline.concat_agent_slices
      true true [Pipeline.add_key_index; Pipeline.double_entries] seed
      (inl experiences) in
  run [] = [202; 404; 210] ∧
  Pipeline.sub_seeds true true [] experiences
    = [[(3, 1)]; [(3, 2)]; [(3, 0); (2, 1)]]%nat ∧
  NoDup (Pipeline.sub_seeds true true [] experiences).
Proof.
  intros experiences run.
  destruct (experience_pipeline_seeds Pipeline.no_experiences
              Pipeline.concat_slices Pipeline.concat_agents
              Pipeline.concat_agent_slices true true
              [Pipeline.add_key_index; Pipeline.double_entries] [] []
              (inl experiences))
    as (Hrun & Hseeds & _ & _ & Hfree & _).
  split_and!.
  - etrans; [exact Hrun|]. vm_compute. reflexivity.
  - vm_compute. reflexivity.
  - rewrite Hseeds. apply Hfree. intros p q Hp Hq.
    vm_compute in Hp, Hq.
    repeat (apply elem_of_cons in Hp as [->|Hp]);
      repeat (apply elem_of_cons in Hq as [->|Hq]);
      try (by apply elem_of_nil in Hp); try (by apply elem_of_nil in Hq);
      vm_compute; congruence.
Defined.

(** ** The worker *)

Section WorkerFacts.

Context {Obs Rew Act Float Space Env : Type}.
Context `{!Vector.ParallelEnv Obs Rew Act Float Space Env}.

Lemma dict_get_set_eq {V} (d : list (string * V)) k v :
  Vector.dict_get (Vector.dict_set d k v) k = Some v.
Proof.
  induction d as [|[k' v'] d IH]; simpl.
  - by rewrite decide_True.
  - destruct (decide (k' = k)) as [->|Hne]; simpl.
    + by rewrite decide_True.
    + by rewrite decide_False.
Qed.

Lemma dict_get_set_ne {V} (d : list (string * V)) k k' v :
  k ≠ k' → Vector.dict_get (Vector.dict_set d k v) k' = Vector.dict_get d k'.
Proof.
  intros Hne. induction d as [|[k0 v0] d IH]; simpl.
  - by rewrite decide_False.
  - destruct (decide (k0 = k)) as [->|Hne0]; simpl.
    + by rewrite !decide_False.
    + by rewrite IH.
Qed.

Lemma any_values_true (d : gmap string bool) :
  Vector.any_values d = true ↔ ∃ agent, d !! agent = Some true.
Proof.
  unfold Vector.any_values. rewrite bool_decide_eq_true. unfold map_Exists.
  split.
  - intros (agent & b & Hb & ->). by exists agent.
  - intros [agent Hb]. by exists agent, true.
Qed.

(** C5.  On a [step] command the worker steps its environment.  If the
    step reports an agent terminated or truncated, the worker resets the
    environment before it replies; the reply carries the observation of
    the reset, the reward and flags of the step, and the info of the
    reset extended with the observation and info of the step under
    [final_observation] and [final_info].  If no agent ends, the reply is
    the result of the step, unchanged. *)
Theorem worker_step_auto_reset (env env1 : Env) data
    (obs : gmap string Obs) (rew : gmap string Rew)
    (terminated truncated : gmap string bool) info :
  Vector.env_step env data = Ok (env1, (obs, rew, terminated, truncated, info)) →
  let ended :=
    (∃ agent, terminated !! agent = Some true) ∨
    (∃ agent, truncated !! agent = Some true) in
  (ended → ∀ env2 obs2 info2,
     Vector.env_reset env1 = Ok (env2, (obs2, info2)) →
     ∃ info',
       Vector.worker_round env "step" data =
         (env2, Vector.sends
                  (Vector.reply_step (obs2, rew, terminated, truncated, info') true)) ∧
       Vector.dict_get info' "final_observation" = Some (Vector.py_obs obs) ∧
       Vector.dict_get info' "final_info" = Some (Vector.py_info info) ∧
       ∀ k, k ≠ "final_observation" → k ≠ "final_info" →
            Vector.dict_get info' k = Vector.dict_get info2 k) ∧
  (¬ ended →
     Vector.worker_round env "step" data =
       (env1, Vector.sends
                (Vector.reply_step (obs, rew, terminated, truncated, info) true))).
Proof.
  intros Hstep ended.
  assert (Vector.any_values terminated || Vector.any_values truncated = true
          ↔ ended) as Hany.
  { rewrite orb_true_iff, !any_values_true. done. }
  unfold Vector.worker_round. simpl. rewrite Hstep. split.
  - intros Hended env2 obs2 info2 Hreset.
    apply Hany in Hended as ->. rewrite Hreset.
    eexists. split_and!; [reflexivity| | |].
    + by rewrite dict_get_set_ne, dict_get_set_eq.
    + by rewrite dict_get_set_eq.
    + intros k Hk1 Hk2. by rewrite !dict_get_set_ne.
  - intros Hnot.
    destruct (Vector.any_values terminated || Vector.any_values truncated);
      [|done].
    destruct Hnot. by apply Hany.
Qed.

End WorkerFacts.

Lemma worker_step_auto_reset_witness :
  let obs : gmap string Z := {[ Vector.counter_agent := 3 ]} in
  let rew : gmap string Z := {[ Vector.counter_agent := 1 ]} in
  let terminated : gmap string bool := {[ Vector.counter_agent := true ]} in
  let truncated : gmap string bool := {[ Vector.counter_agent := false ]} in
  let info := [("count", Vector.py_int 3)] in
  let ended :=
    (∃ agent, terminated !! agent = Some true) ∨
    (∃ agent, truncated !! agent = Some true) in
  (ended → ∀ env2 obs2 info2,
     Vector.env_reset 3 = Ok (env2, (obs2, info2)) →
     ∃ info',
       Vector.worker_round 2 "step" None =
         (env2, Vector.sends
                  (Vector.reply_step (obs2, rew, terminated, truncated, info') true)) ∧
       Vector.dict_get info' "final_observation" = Some (Vector.py_obs obs) ∧
       Vector.dict_get info' "final_info" = Some (Vector.py_info info) ∧
       ∀ k, k ≠ "final_observation" → k ≠ "final_info" →
            Vector.dict_get info' k = Vector.dict_get info2 k) ∧
  (¬ ended →
     Vector.worker_round 2 "step" None =
       (3, Vector.sends
             (Vector.reply_step (obs, rew, terminated, truncated, info) true))).
Proof.
  intros obs rew terminated truncated info.
  apply (worker_step_auto_reset (Env:=Z) 2 3 None obs rew terminated truncated info).
  reflexivity.
Defined.

(** ** The pool: step_async *)

Lemma mapM_Ok {A B} (f : A → result B) (l : list A) (l' : list B) :
  mapM f l = Ok l' ↔ Forall2 (λ x y, f x = Ok y) l l'.
Proof.
  revert l'. induction l as [|x l IH]; intros l'; simpl.
  - split.
    + intros [= <-]. constructor.
    + by intros ->%Forall2_nil_inv_l.
  - split.
    + destruct (f x) as [y|e] eqn:Hfx; simpl; [|done].
      destruct (mapM f l) as [k|e] eqn:Hl; simpl; [|done].
      intros [= <-]. constructor; [done|]. by apply IH.
    + intros (y & k & Hy & Hk & ->)%Forall2_cons_inv_l.
      rewrite Hy. simpl. apply IH in Hk. rewrite Hk. done.
Qed.

Section PoolFacts.

Context {Obs Rew Act Float Space Env : Type}.
Context `{!Vector.ParallelEnv Obs Rew Act Float Space Env}.
Context `{!Vector.StartMethod}.

Abbreviation Pool := (Vector.SubProcVecParallelEnv Obs Rew Float Space Env).
Abbreviation Conn := (Vector.Connection Obs Rew Float Space Env).

Implicit Types (self : Pool) (conn : Conn) (actions : gmap string (list Act)).

Lemma send_running conn cmd data :
  Vector.worker_status conn = Vector.running → ∃ conn', Vector.send conn cmd data = Ok conn'.
Proof.
  intros Hrun. unfold Vector.send, Vector.send_on. rewrite Hrun.
  destruct (Vector.worker_round _ _ _). eauto.
Qed.

Lemma send_on_running (h : bool) conn cmd data :
  Vector.worker_status conn = Vector.running →
  Vector.send_on h conn cmd data = Vector.send conn cmd data.
Proof. intros Hrun. unfold Vector.send, Vector.send_on. by rewrite Hrun. Qed.

Lemma for_conns_Ok {A} (f : bool → Conn → A → result Conn)
    (todo : list (Conn * A)) (results : list Conn) : ∀ done,
  Forall2 (λ ca conn', ∀ h, f h ca.1 ca.2 = Ok conn') todo results →
  Vector.for_conns f done todo = Ok (done ++ results).
Proof.
  revert results. induction todo as [|[conn a] todo IH]; intros results done Hall.
  - apply Forall2_nil_inv_l in Hall as ->. simpl. by rewrite app_nil_r.
  - apply Forall2_cons_inv_l in Hall as (conn' & k & Hc & Hk & ->).
    cbn [Vector.for_conns]. rewrite Hc. simpl.
    rewrite (IH k _ Hk). by rewrite <-app_assoc.
Qed.

Lemma for_conns_inv {A} (f : bool → Conn → A → result Conn)
    (todo : list (Conn * A)) : ∀ done res,
  Vector.for_conns f done todo = Ok res →
  ∃ results, res = done ++ results ∧
    Forall2 (λ ca conn', ∃ h, f h ca.1 ca.2 = Ok conn') todo results.
Proof.
  induction todo as [|[conn a] todo IH]; intros done res Hres.
  - simpl in Hres. injection Hres as <-. exists []. by rewrite app_nil_r.
  - cbn [Vector.for_conns] in Hres.
    destruct (f _ conn a) as [conn'|e] eqn:Hc; simpl in Hres; [|done].
    destruct (IH _ _ Hres) as (results & -> & Hall).
    exists (conn' :: results). split; [by rewrite <-app_assoc|].
    constructor; [by eauto|done].
Qed.

Lemma send_all_running (g : nat → nat) (conns : list Conn) actions :
  Forall (λ conn, Vector.worker_status conn = Vector.running) conns →
  ∃ conns',
    Forall2 (λ '(i, conn) conn',
               Vector.send conn "step" (Some (omap (λ action, action !! i) actions))
               = Ok conn')
      (imap (λ i conn, (g i, conn)) conns) conns'.
Proof.
  revert g. induction conns as [|conn conns IH]; intros g Hrun.
  - exists []. constructor.
  - apply Forall_cons in Hrun as [Hc Hrun].
    destruct (IH (g ∘ S) Hrun) as [conns' Hconns'].
    destruct (send_running conn "step"
                (Some (omap (λ action, action !! g 0%nat) actions)) Hc)
      as [conn' Hconn'].
    exists (conn' :: conns'). simpl. constructor; done.
Qed.

Lemma send_all_zip (conns : list Conn) actions : ∀ start conns',
  Forall (λ conn, Vector.worker_status conn = Vector.running) conns →
  Forall2 (λ '(i, conn) conn',
             Vector.send conn "step" (Some (omap (λ action, action !! i) actions))
             = Ok conn')
    (imap (λ i conn, ((start + i)%nat, conn)) conns) conns' →
  Vector.for_conns
    (λ held conn action, Vector.send_on held conn "step" (Some action)) []
    (zip conns ((λ i, omap (λ action, action !! i) actions)
                  <$> seq start (length conns)))
  = Ok conns'.
Proof.
  intros start conns' Hrun Hall.
  rewrite (for_conns_Ok _ _ conns'); [done|].
  revert start conns' Hall.
  induction Hrun as [|conn conns Hc Hrun IH]; intros start conns' Hall.
  - apply Forall2_nil_inv_l in Hall as ->. constructor.
  - simpl in Hall.
    apply Forall2_cons_inv_l in Hall as (conn' & k & Hconn' & Hk & ->).
    simpl. constructor.
    + intros h. simpl. rewrite send_on_running by done.
      by rewrite Nat.add_0_r in Hconn'.
    + apply IH. erewrite imap_ext; [exact Hk|].
      intros i x _. simpl. f_equal. lia.
Qed.

Lemma unstack_all actions n :
  map_Forall (λ _ action, (n ≤ length action)%nat) actions →
  mapM (Vector.unstack_action actions) (seq 0 n)
  = Ok ((λ i, omap (λ action, action !! i) actions) <$> seq 0 n).
Proof.
  intros Hact.
  apply mapM_Ok, Forall2_fmap_r, Forall_Forall2_diag, Forall_forall.
  intros i Hi%elem_of_seq. unfold Vector.unstack_action.
  rewrite decide_True; [done|].
  intros agent action Hagent. specialize (Hact agent action Hagent).
  simpl in Hact. lia.
Qed.

(** C1 (as amended).  [step_async] does not look at the [waiting] flag.
    Called while a step is pending, with every worker running and an
    action for every worker, it raises nothing: it sends one more [step]
    command to each worker, in worker order, and leaves the flag set. *)
Theorem step_async_while_pending self actions :
  Vector.waiting self = true →
  Forall (λ conn, Vector.worker_status conn = Vector.running)
    (Vector.parent_conns self) →
  map_Forall (λ _ action, (length (Vector.parent_conns self) ≤ length action)%nat)
    actions →
  Vector.step_async self actions
    = Vector.step_async (Vector.with_waiting false self) actions ∧
  ∃ self',
    Vector.step_async self actions = Ok self' ∧
    Vector.waiting self' = true ∧
    Forall2 (λ '(i, conn) conn',
               Vector.send conn "step" (Some (omap (λ action, action !! i) actions))
               = Ok conn')
      (imap (λ i conn, (i, conn)) (Vector.parent_conns self))
      (Vector.parent_conns self').
Proof.
  intros _ Hrun Hact. split; [done|].
  destruct (send_all_running id _ actions Hrun) as [conns' Hconns'].
  unfold Vector.step_async.
  rewrite (unstack_all _ _ Hact). simpl.
  rewrite (send_all_zip _ actions 0%nat conns' Hrun Hconns'). simpl.
  eexists. split_and!; [reflexivity|done|done].
Qed.

End PoolFacts.

Lemma counter_pool_init : Vector.__init__ [0; 0] = Ok Vector.counter_pool.
Proof. vm_compute. reflexivity. Qed.

Lemma counter_pool_step_async :
  Vector.step_async Vector.counter_pool Vector.counter_actions
  = Ok Vector.counter_pool_pending.
Proof. vm_compute. reflexivity. Qed.

Lemma step_async_while_pending_witness :
  Vector.step_async Vector.counter_pool_pending Vector.counter_actions
    = Vector.step_async (Vector.with_waiting false Vector.counter_pool_pending)
        Vector.counter_actions ∧
  ∃ self',
    Vector.step_async Vector.counter_pool_pending Vector.counter_actions
      = Ok self' ∧
    Vector.waiting self' = true ∧
    Forall2 (λ '(i, conn) conn',
               Vector.send conn "step"
                 (Some (omap (λ action, action !! i) Vector.counter_actions))
               = Ok conn')
      (imap (λ i conn, (i, conn)) (Vector.parent_conns Vector.counter_pool_pending))
      (Vector.parent_conns self').
Proof.
  apply (step_async_while_pending Vector.counter_pool_pending Vector.counter_actions).
  - reflexivity.
  - repeat constructor.
  - apply map_Forall_singleton. simpl. lia.
Defined.

(** C1 as stated fails: on the pool of two counter environments a
    second [step_async] issued while the first is pending returns
    normally, with two unread replies queued for each worker. *)
Lemma step_async_twice_returns :
  Vector.__init__ [0; 0] = Ok Vector.counter_pool ∧
  Vector.step_async Vector.counter_pool Vector.counter_actions
    = Ok Vector.counter_pool_pending ∧
  Vector.waiting Vector.counter_pool_pending = true ∧
  Vector.step_async Vector.counter_pool_pending Vector.counter_actions
    = Ok {| Vector.waiting := true; Vector.closed := false;
            Vector.parent_conns :=
              [Vector.mkConnection 2 Vector.running
                 [Vector.counter_reply 1; Vector.counter_reply 2];
               Vector.mkConnection 2 Vector.running
                 [Vector.counter_reply 1; Vector.counter_reply 2]];
            Vector.agents := [Vector.counter_agent]; Vector.num_agents := 1;
            Vector.observation_spaces := {[ Vector.counter_agent := tt ]};
            Vector.action_spaces := {[ Vector.counter_agent := tt ]};
            Vector.num_envs := 2 |}.
Proof.
  split_and!; [apply counter_pool_init|apply counter_pool_step_async|done|].
  vm_compute. reflexivity.
Qed.

(** ** The pool: merging the info dicts *)

Lemma mask_key_ne k : Vector.mask_key k ≠ k.
Proof.
  unfold Vector.mask_key. intros Heq.
  apply (f_equal String.length) in Heq. simpl in Heq. lia.
Qed.

Lemma mask_key_inj k1 k2 : Vector.mask_key k1 = Vector.mask_key k2 → k1 = k2.
Proof. unfold Vector.mask_key. by intros [= ->]. Qed.

Section InfoFacts.

Context {Obs Rew Float Space Env : Type}.
Context `{!Vector.StartMethod}.
Variable float_zero : Float.
Variable np_cast :
  Vector.np_dtype → Vector.pyval Obs Float → result (Vector.pyval Obs Float).

Abbreviation PyVal := (Vector.pyval Obs Float).
Abbreviation Array := (Vector.ndarray Obs Float).
Abbreviation Reports := (gmap (nat * string) (Vector.pyval Obs Float)).

Implicit Types (self : Vector.SubProcVecParallelEnv Obs Rew Float Space Env).
Implicit Types (R : Reports) (infos : gmap string Array) (k : string).
Implicit Types (v w : PyVal) (info : list (string * PyVal)).

(** What the workers report in the end. *)
Variable reported : nat → string → option PyVal.

Hypothesis Hclash : Vector.no_mask_clash reported.
Hypothesis Hcast : Vector.stored_unchanged np_cast reported.
Hypothesis Htrue :
  np_cast Vector.np_bool (Vector.py_bool true) = Ok (Vector.py_bool true).

Variable n : nat.

Abbreviation cells := (Vector.cells float_zero n).
Abbreviation cells_ok := (Vector.cells_ok float_zero reported n).
Abbreviation consistent := (Vector.consistent reported).
Abbreviation complete := (Vector.complete reported).
Abbreviation first_reported := (Vector.first_reported reported).
Abbreviation inv := (Vector.inv float_zero reported n).
Abbreviation report_keys := Vector.report_keys.
Abbreviation report := Vector.report.
Abbreviation stacks_ok := Vector.stacks_ok.

Lemma cells_fresh R k dt :
  (∀ j, R !! (j, k) = None) →
  cells R k (Vector.np_zeros float_zero n dt)
    (Vector.np_zeros float_zero n Vector.np_bool).
Proof.
  intros Hnone. unfold Vector.cells, Vector.np_zeros. simpl.
  rewrite !length_replicate. split_and!; [done..|].
  intros j Hj. rewrite Hnone. simpl.
  rewrite !lookup_replicate_2 by done. done.
Qed.

Lemma cells_update R k a m i v :
  cells R k a m → (i < n)%nat →
  np_cast (Vector.dtype a) v = Ok v →
  ∃ a' m',
    Vector.setitem np_cast a i v = Ok a' ∧
    Vector.setitem np_cast m i (Vector.py_bool true) = Ok m' ∧
    Vector.dtype a' = Vector.dtype a ∧
    cells (<[(i, k) := v]> R) k a' m'.
Proof.
  intros (Hla & Hlm & Hdm & Hcells) Hi Hv.
  unfold Vector.setitem. rewrite Hv, Hdm, Htrue. simpl.
  rewrite !decide_True by lia.
  eexists _, _. split_and!; [reflexivity..|].
  unfold Vector.cells. simpl. rewrite !length_insert. split_and!; [done..|].
  intros j Hj. destruct (Hcells j Hj) as [Ha Hm].
  destruct (decide (j = i)) as [->|Hne].
  - rewrite lookup_insert_eq, !list_lookup_insert_eq by lia.
    split; [done|]. by do 2 f_equal.
  - rewrite lookup_insert_ne by congruence.
    rewrite !list_lookup_insert_ne by done. done.
Qed.

Lemma cells_frame R k k' a m i v :
  k' ≠ k → cells R k' a m → cells (<[(i, k) := v]> R) k' a m.
Proof.
  intros Hne (Hla & Hlm & Hdm & Hcells). split_and!; [done..|].
  intros j Hj. rewrite lookup_insert_ne by congruence. by apply Hcells.
Qed.

Lemma insert_report_is_Some R i k v j k' :
  is_Some (R !! (j, k')) → is_Some (<[(i, k) := v]> R !! (j, k')).
Proof. intros HS. apply lookup_insert_is_Some'. by right. Qed.

Lemma inv_store R infos i k v a' m' :
  inv R infos → reported i k = Some v →
  cells (<[(i, k) := v]> R) k a' m' →
  (∃ j0 v0, first_reported k j0 v0 ∧
     Vector.dtype a' = Vector.array_dtype (Vector.type_of v0)) →
  inv (<[(i, k) := v]> R) (<[Vector.mask_key k := m']> (<[k := a']> infos)).
Proof.
  intros (Hcons & Hcells & Hdom) Hrep Hnew Hdt. split_and!.
  - intros j k' v'. rewrite lookup_insert. case_decide as Heq.
    + intros [= <-]. by simplify_eq.
    + by apply Hcons.
  - intros k' [j Hj]. destruct (decide (k' = k)) as [->|Hne].
    + exists a', m'. split_and!; [|by rewrite lookup_insert_eq|done..].
      rewrite lookup_insert_ne by apply mask_key_ne.
      by rewrite lookup_insert_eq.
    + rewrite lookup_insert_ne in Hj by congruence.
      destruct (Hcells k') as (a & m & Ha & Hm & Hc & Hfirst);
        [by eauto|].
      assert (is_Some (reported j k')) as Hrep'.
      { destruct Hj as [v' Hv']. by rewrite (Hcons _ _ _ Hv'). }
      exists a, m. split_and!.
      * rewrite !lookup_insert_ne; [done|done|].
        intros <-. rewrite (Hclash i j k) in Hrep' by (by rewrite Hrep).
        by destruct Hrep'.
      * rewrite !lookup_insert_ne; [done| |].
        -- intros Heq. rewrite Heq, (Hclash j i k' Hrep') in Hrep. done.
        -- by intros ?%mask_key_inj.
      * by apply cells_frame.
      * done.
  - intros k'. rewrite !lookup_insert_is_Some.
    intros [<-|[_ [<-|[_ HS]]]].
    + right. exists k, i. by rewrite lookup_insert_eq.
    + left. exists i. by rewrite lookup_insert_eq.
    + destruct (Hdom k' HS) as [[j Hj]|(k0 & j & -> & Hj)].
      * left. exists j. by apply insert_report_is_Some.
      * right. exists k0, j. split; [done|]. by apply insert_report_is_Some.
Qed.

Lemma complete_insert R i k v : complete R i → complete (<[(i, k) := v]> R) i.
Proof.
  intros Hcomp j k' v' Hj Hrep.
  rewrite lookup_insert_ne; [by apply Hcomp|]. intros [= -> _]. lia.
Qed.

Lemma init_info_arrays self (t : Vector.pytype) :
  Vector.num_envs self = n →
  Vector._init_info_arrays float_zero self t =
    (Vector.np_zeros float_zero n (Vector.array_dtype t),
     Vector.np_zeros float_zero n Vector.np_bool).
Proof. intros <-. by destruct t. Qed.

Lemma add_info_key_inv self info i R infos k v :
  Vector.num_envs self = n →
  inv R infos → complete R i → (i < n)%nat →
  reported i k = Some v → Vector.dict_get info k = Some v →
  ∃ infos',
    Vector.add_info_key float_zero np_cast self info i infos k = Ok infos' ∧
    inv (<[(i, k) := v]> R) infos'.
Proof.
  intros Hn Hinv Hcomp Hi Hrep Hget.
  pose proof Hinv as (Hcons & Hcells & Hdom).
  unfold Vector.add_info_key. rewrite Hget. simpl.
  destruct (infos !! k) as [a|] eqn:Hk.
  - destruct (Hdom k) as [Hsome|(k' & j & -> & [v' Hv'])]; [by eauto| |].
    2:{ apply Hcons in Hv'.
        rewrite (Hclash j i k') in Hrep by (by rewrite Hv'). done. }
    destruct (Hcells k Hsome) as (a0 & m & Ha & Hm & Hc & j0 & v0 & Hj0 & Hdt).
    assert (a0 = a) as -> by congruence.
    unfold Vector.getitem. rewrite Hm. simpl.
    destruct (cells_update R k a m i v Hc Hi) as (a' & m' & -> & -> & Hdt' & Hc').
    { rewrite Hdt. by apply (Hcast k j0 v0 i v). }
    simpl. eexists. split; [done|].
    apply inv_store; [done..|].
    exists j0, v0. by rewrite Hdt'.
  - assert (∀ j, R !! (j, k) = None) as Hnone.
    { intros j. destruct (R !! (j, k)) as [v'|] eqn:Hv'; [|done].
      destruct (Hcells k) as (a & m & Ha & _); [by eauto|]. congruence. }
    assert (first_reported k i v) as Hfirst.
    { split; [done|]. intros j Hj.
      destruct (reported j k) as [v'|] eqn:Hv'; [|done].
      pose proof (Hcomp j k v' Hj Hv') as HR. by rewrite Hnone in HR. }
    rewrite (init_info_arrays self _ Hn). simpl.
    destruct (cells_update R k _ _ i v
                (cells_fresh R k (Vector.array_dtype (Vector.type_of v)) Hnone) Hi)
      as (a' & m' & -> & -> & Hdt' & Hc').
    { simpl. by apply (Hcast k i v i v). }
    simpl. eexists. split; [done|].
    apply inv_store; [done..|].
    by exists i, v.
Qed.

Lemma dict_get_is_Some {V} (d : list (string * V)) k :
  is_Some (Vector.dict_get d k) ↔ k ∈ Vector.dict_keys d.
Proof.
  unfold Vector.dict_keys. induction d as [|[k' v'] d IH]; simpl.
  - rewrite elem_of_nil. split; [by intros [? ?]|done].
  - rewrite elem_of_cons. case_decide as Heq.
    + subst. split; [by left|by eauto].
    + rewrite IH. split; [by right|]. by intros [?|?].
Qed.

Lemma report_keys_lookup i info ks : ∀ R j k,
  report_keys i info ks R !! (j, k) =
  if decide (j = i ∧ k ∈ ks ∧ is_Some (Vector.dict_get info k))
  then Vector.dict_get info k else R !! (j, k).
Proof.
  induction ks as [|k0 ks IH]; intros R j k; simpl.
  - rewrite decide_False; [done|]. rewrite elem_of_nil. tauto.
  - rewrite IH. destruct (decide (j = i ∧ k ∈ ks ∧ _)) as [(-> & Hin & HS)|Hno].
    + rewrite decide_True; [done|]. rewrite elem_of_cons. tauto.
    + destruct (decide (j = i ∧ k = k0 ∧ is_Some (Vector.dict_get info k)))
        as [(-> & -> & [v Hv])|Hno'].
      * rewrite Hv, lookup_insert_eq. rewrite decide_True; [done|].
        rewrite elem_of_cons. eauto.
      * rewrite decide_False.
        2:{ rewrite elem_of_cons. tauto. }
        destruct (Vector.dict_get info k0) as [v0|] eqn:Hv0; [|done].
        apply lookup_insert_ne. intros [= -> ->]. apply Hno'.
        rewrite Hv0. eauto.
Qed.

Lemma add_info_keys_inv self info i (ks : list string) : ∀ R infos,
  Vector.num_envs self = n → (i < n)%nat →
  (∀ k, k ∈ ks → ∃ v, Vector.dict_get info k = Some v ∧ reported i k = Some v) →
  inv R infos → complete R i →
  ∃ infos',
    foldlM (Vector.add_info_key float_zero np_cast self info i) infos ks = Ok infos' ∧
    inv (report_keys i info ks R) infos'.
Proof.
  induction ks as [|k ks IH]; intros R infos Hn Hi Hks Hinv Hcomp; simpl.
  - eauto.
  - destruct (Hks k) as (v & Hget & Hrep); [by left|].
    destruct (add_info_key_inv self info i R infos k v) as (infos1 & -> & Hinv1);
      [done..|].
    simpl. rewrite Hget. apply IH; [done..| |done|by apply complete_insert].
    intros k' Hk'. apply Hks. by right.
Qed.

Lemma report_lookup i info R j k :
  report i info R !! (j, k) =
  if decide (j = i ∧ is_Some (Vector.dict_get info k))
  then Vector.dict_get info k else R !! (j, k).
Proof.
  unfold Vector.report. rewrite report_keys_lookup.
  apply decide_ext. rewrite <-dict_get_is_Some. tauto.
Qed.

Lemma report_idemp i info R : report i info (report i info R) = report i info R.
Proof.
  apply map_eq. intros [j k]. rewrite !report_lookup.
  by case_decide.
Qed.

Lemma complete_report R i info : complete R i → complete (report i info R) i.
Proof.
  intros Hcomp j k v Hj Hrep. rewrite report_lookup.
  rewrite decide_False by lia. by apply Hcomp.
Qed.

Lemma add_info_inv self info i R infos :
  Vector.num_envs self = n → (i < n)%nat →
  (∀ k, reported i k = Vector.dict_get info k) →
  inv R infos → complete R i →
  ∃ infos',
    Vector._add_info float_zero np_cast self infos info i = Ok infos' ∧
    inv (report i info R) infos'.
Proof.
  intros Hn Hi Hrep Hinv Hcomp. unfold Vector._add_info.
  apply add_info_keys_inv; [done..| |done|done].
  intros k [v Hv]%dict_get_is_Some. exists v. by rewrite Hrep.
Qed.

Lemma append_ok {A} (d : gmap string (list A)) agent x :
  is_Some (d !! agent) →
  ∃ d', Vector.append d agent x = Ok d' ∧
        ∀ a, is_Some (d !! a) → is_Some (d' !! a).
Proof.
  intros [l Hl]. unfold Vector.append, Vector.getitem. rewrite Hl. simpl.
  eexists. split; [done|]. intros a Ha. apply lookup_insert_is_Some'. by right.
Qed.

Lemma getitem_ok {A} (d : gmap string A) k :
  is_Some (d !! k) → ∃ a, Vector.getitem d k = Ok a.
Proof. intros [a Ha]. unfold Vector.getitem. rewrite Ha. eauto. Qed.

Lemma step_wait_agent_inv self r i ags acc agent R :
  Vector.num_envs self = n → (i < n)%nat →
  (∀ k, reported i k = Vector.dict_get (Vector.step_info r) k) →
  Vector.covers r agent → agent ∈ ags →
  stacks_ok ags acc → inv R (Vector.infos acc) → complete R i →
  ∃ acc',
    Vector.step_wait_agent float_zero np_cast self r i acc agent = Ok acc' ∧
    stacks_ok ags acc' ∧
    inv (report i (Vector.step_info r) R) (Vector.infos acc').
Proof.
  intros Hn Hi Hrep (Ho & Hr & Hte & Htr) Hin Hacc Hinv Hcomp.
  destruct r as [[[[obs rew] terminated] truncated] info].
  unfold Vector.step_obs, Vector.step_rew, Vector.step_terminated,
    Vector.step_truncated, Vector.step_info in *. simpl in *.
  destruct (Hacc agent Hin) as (Ha1 & Ha2 & Ha3 & Ha4).
  unfold Vector.step_wait_agent.
  destruct (getitem_ok _ _ Ho) as [o ->]. simpl.
  destruct (append_ok (Vector.observations acc) agent o Ha1) as (d1 & -> & Hd1).
  simpl.
  destruct (getitem_ok _ _ Hr) as [x ->]. simpl.
  destruct (append_ok (Vector.rewards acc) agent x Ha2) as (d2 & -> & Hd2).
  simpl.
  destruct (getitem_ok _ _ Hte) as [b1 ->]. simpl.
  destruct (append_ok (Vector.terminateds acc) agent b1 Ha3) as (d3 & -> & Hd3).
  simpl.
  destruct (getitem_ok _ _ Htr) as [b2 ->]. simpl.
  destruct (append_ok (Vector.truncateds acc) agent b2 Ha4) as (d4 & -> & Hd4).
  simpl.
  destruct (add_info_inv self info i R (Vector.infos acc) Hn Hi Hrep Hinv Hcomp)
    as (infos' & -> & Hinv').
  simpl. eexists. split_and!; [done| |done].
  intros a Ha. destruct (Hacc a Ha) as (? & ? & ? & ?). simpl.
  split_and!; eauto.
Qed.

Lemma step_wait_agents_inv self r i ags (todo : list string) : ∀ acc R,
  Vector.num_envs self = n → (i < n)%nat →
  (∀ k, reported i k = Vector.dict_get (Vector.step_info r) k) →
  (∀ agent, agent ∈ todo → Vector.covers r agent ∧ agent ∈ ags) →
  stacks_ok ags acc → inv R (Vector.infos acc) → complete R i →
  ∃ acc',
    foldlM (Vector.step_wait_agent float_zero np_cast self r i) acc todo = Ok acc' ∧
    stacks_ok ags acc' ∧
    inv (match todo with [] => R | _ => report i (Vector.step_info r) R end)
      (Vector.infos acc').
Proof.
  induction todo as [|agent todo IH];
    intros acc R Hn Hi Hrep Htodo Hacc Hinv Hcomp.
  - simpl. eauto.
  - destruct (Htodo agent) as [Hcov Hin]; [by left|].
    destruct (step_wait_agent_inv self r i ags acc agent R)
      as (acc1 & Hstep & Hacc1 & Hinv1); [done..|].
    simpl. rewrite Hstep. simpl.
    destruct (IH acc1 (report i (Vector.step_info r) R))
      as (acc' & -> & Hacc' & Hinv'); [done..| |done|done| |].
    { intros a Ha. apply Htodo. by right. }
    { by apply complete_report. }
    exists acc'. split_and!; [done..|].
    destruct todo; [done|]. by rewrite report_idemp in Hinv'.
Qed.

Lemma step_wait_conn_step self st i
    (conn : Vector.Connection Obs Rew Float Space Env) r success rest acc :
  Vector.unread conn = Vector.reply_step r success :: rest →
  foldlM (Vector.step_wait_agent float_zero np_cast self r i) st.2
    (Vector.agents self) = Ok acc →
  Vector.step_wait_conn float_zero np_cast self st (i, conn) =
    Ok (st.1 ++ [Vector.mkConnection (Vector.worker_env conn)
                   (Vector.worker_status conn) rest], acc).
Proof.
  intros Hun Hloop. unfold Vector.step_wait_conn, Vector.recv_on.
  rewrite Hun. simpl. rewrite Hloop. done.
Qed.

Lemma step_wait_conns_inv self
    (conns : list (Vector.Connection Obs Rew Float Space Env)) :
  ∀ (rs : list (Vector.StepResult Obs Rew Float)) start st R,
  Vector.num_envs self = n → Vector.agents self ≠ [] →
  Forall2 (λ conn r, ∃ success rest,
             Vector.unread conn = Vector.reply_step r success :: rest) conns rs →
  (start + length conns ≤ n)%nat →
  (∀ j r, rs !! j = Some r →
     (∀ k, reported (start + j) k = Vector.dict_get (Vector.step_info r) k) ∧
     ∀ agent, agent ∈ Vector.agents self → Vector.covers r agent) →
  stacks_ok (Vector.agents self) st.2 → inv R (Vector.infos st.2) →
  complete R start →
  ∃ st' R',
    foldlM (Vector.step_wait_conn float_zero np_cast self) st
      (imap (λ j conn, ((start + j)%nat, conn)) conns) = Ok st' ∧
    inv R' (Vector.infos st'.2) ∧
    ∀ j k, R' !! (j, k) =
      if decide (start ≤ j < start + length conns)%nat
      then reported j k else R !! (j, k).
Proof.
  induction conns as [|conn conns IH];
    intros rs start st R Hn Hags Hrs Hlen Hrep Hacc Hinv Hcomp.
  - exists st, R. split_and!; [done..|].
    intros j k. rewrite decide_False; [done|]. simpl. lia.
  - apply Forall2_cons_inv_l in Hrs as (r & rs' & (success & rest & Hun) & Hrs & ->).
    destruct (Hrep 0%nat r) as [Hrep0 Hcov]; [done|].
    rewrite Nat.add_0_r in Hrep0. simpl in Hlen.
    destruct (step_wait_agents_inv self r start (Vector.agents self)
                (Vector.agents self) st.2 R)
      as (acc1 & Hloop & Hacc1 & Hinv1); [done|lia|done| |done|done|done|].
    { intros agent Hagent. split; [by apply Hcov|done]. }
    set (R1 := report start (Vector.step_info r) R).
    assert (inv R1 (Vector.infos acc1)) as Hinv1'.
    { subst R1. by destruct (Vector.agents self). }
    destruct (IH rs' (S start)
                (st.1 ++ [Vector.mkConnection (Vector.worker_env conn)
                            (Vector.worker_status conn) rest], acc1) R1)
      as (st' & R' & Hfold & Hinv' & HR'); [done|done|done|lia| |done|done| |].
    { intros j r' Hj. destruct (Hrep (S j) r' Hj) as [Hr' Hc'].
      split; [|done]. intros k. rewrite <-Hr'. f_equal. lia. }
    { intros j k v Hj Hv. subst R1. rewrite report_lookup.
      destruct (decide (j = start)) as [->|Hne].
      - rewrite Hrep0 in Hv. rewrite decide_True; [done|]. by rewrite Hv.
      - rewrite decide_False by tauto. apply Hcomp; [lia|done]. }
    exists st', R'. split_and!; [|done|].
    + cbn [imap foldlM]. rewrite Nat.add_0_r.
      rewrite (step_wait_conn_step self st start conn r success rest acc1 Hun Hloop).
      simpl. erewrite imap_ext; [exact Hfold|].
      intros j c _. simpl. f_equal. lia.
    + intros j k. rewrite HR'. subst R1. rewrite report_lookup.
      destruct Hinv as (Hcons & _).
      destruct (decide (S start ≤ j < S start + length conns)%nat).
      * rewrite decide_True; [done|]. simpl. lia.
      * destruct (decide (j = start)) as [->|Hne].
        -- rewrite (decide_True (P:=(start ≤ start < _)%nat)) by (simpl; lia).
           case_decide as Hd.
           ++ by rewrite Hrep0.
           ++ rewrite Hrep0.
              destruct (Vector.dict_get (Vector.step_info r) k) as [v|] eqn:Hv.
              { destruct Hd. eauto. }
              destruct (R !! (start, k)) as [v|] eqn:HRk; [|done].
              apply Hcons in HRk. rewrite Hrep0, Hv in HRk. done.
        -- rewrite (decide_False (P:=(_ ∧ _))) by tauto.
           rewrite decide_False; [done|]. simpl. lia.
Qed.

Lemma inv_empty : inv ∅ ∅.
Proof.
  split_and!.
  - intros j k v. by rewrite lookup_empty.
  - intros k [j [v Hv]]. by rewrite lookup_empty in Hv.
  - intros k [a Ha]. by rewrite lookup_empty in Ha.
Qed.

Lemma inv_merged R infos k :
  inv R infos →
  (∀ j k, R !! (j, k) = if decide (j < n)%nat then reported j k else None) →
  (∃ i, (i < n)%nat ∧ is_Some (reported i k)) →
  Vector.info_merged float_zero n reported infos k ∧
  ∃ a j0 v0, infos !! k = Some a ∧ first_reported k j0 v0 ∧
    Vector.dtype a = Vector.array_dtype (Vector.type_of v0).
Proof.
  intros (_ & Hcells & _) HR (i & Hi & Hrep).
  destruct (Hcells k) as (a & m & Ha & Hm & (Hla & Hlm & _ & Hc) & j0 & v0 & Hfirst).
  { exists i. by rewrite HR, decide_True. }
  split; [|by exists a, j0, v0].
  exists a, m. split_and!; [done..|].
  intros j Hj. destruct (Hc j Hj) as [Hc1 Hc2].
  rewrite HR, decide_True in Hc1, Hc2 by done. done.
Qed.

End InfoFacts.

Lemma empty_stack_lookup {A} (ags : list string) agent :
  agent ∈ ags →
  is_Some ((list_to_map ((λ a, (a, [])) <$> ags) : gmap string (list A)) !! agent).
Proof.
  intros Hin. apply not_eq_None_Some. intros Hnone.
  apply not_elem_of_list_to_map in Hnone. apply Hnone.
  rewrite <-list_fmap_compose. apply list_elem_of_fmap. by exists agent.
Qed.

(** C9 (as amended).  Let each of the [n] workers of a pool with at
    least one agent have a step reply waiting, with entries for every
    agent.  If no reported info name is the mask name of a reported one,
    and every value reported under a name is stored unchanged by an array
    of the dtype chosen for the value of the first worker that reports
    the name, then [step_wait] returns, and for each name reported by at
    least one worker the merged info holds an array of length [n], of
    that dtype, with worker [i]'s value at index [i], and under the mask
    name a boolean array of length [n] that is true exactly at the
    workers that reported the name; a worker that did not report it
    contributes the zero of the array's dtype and a false mask entry. *)
Theorem step_wait_merges_infos {Obs Rew Float Space Env : Type}
    `{!Vector.StartMethod} (float_zero : Float)
    (np_cast : Vector.np_dtype → Vector.pyval Obs Float
               → result (Vector.pyval Obs Float))
    (self : Vector.SubProcVecParallelEnv Obs Rew Float Space Env)
    (replies : list (Vector.StepResult Obs Rew Float)) :
  Vector.num_envs self = length (Vector.parent_conns self) →
  Vector.agents self ≠ [] →
  Forall2 (λ conn r, ∃ success rest,
             Vector.unread conn = Vector.reply_step r success :: rest)
    (Vector.parent_conns self) replies →
  (∀ r agent, r ∈ replies → agent ∈ Vector.agents self → Vector.covers r agent) →
  Vector.no_mask_clash (Vector.reported_by replies) →
  Vector.stored_unchanged np_cast (Vector.reported_by replies) →
  np_cast Vector.np_bool (Vector.py_bool true) = Ok (Vector.py_bool true) →
  ∃ self' stacks,
    Vector.step_wait float_zero np_cast self = Ok (self', stacks) ∧
    Vector.waiting self' = false ∧
    ∀ k, (∃ i, is_Some (Vector.reported_by replies i k)) →
      Vector.info_merged float_zero (Vector.num_envs self)
        (Vector.reported_by replies) (Vector.infos stacks) k ∧
      ∃ info_array j0 v0,
        Vector.infos stacks !! k = Some info_array ∧
        Vector.first_reported (Vector.reported_by replies) k j0 v0 ∧
        Vector.dtype info_array = Vector.array_dtype (Vector.type_of v0).
Proof.
  intros Hn Hags Hconns Hcov Hclash Hcast Htrue.
  pose proof (Forall2_length _ _ _ Hconns) as Hlen.
  unfold Vector.step_wait. cbv zeta.
  match goal with |- context [foldlM _ ([], ?a) _] => set (acc0 := a) end.
  destruct (step_wait_conns_inv float_zero np_cast (Vector.reported_by replies)
              Hclash Hcast Htrue (Vector.num_envs self) self
              (Vector.parent_conns self) replies 0%nat ([], acc0) ∅)
    as (st' & R' & Hfold & Hinv & HR'); [done|done|done|lia| | | | |].
  - intros j r Hj. split.
    + intros k. unfold Vector.reported_by. simpl. by rewrite Hj.
    + intros agent Hagent. apply Hcov; [|done].
      by apply list_elem_of_lookup_2 in Hj.
  - intros agent Hagent. simpl. split_and!; by apply empty_stack_lookup.
  - apply inv_empty.
  - intros j k v Hj. lia.
  - match goal with
    | |- context [foldlM ?f ?a ?l] =>
        replace (foldlM f a l) with (Ok st') by (symmetry; exact Hfold)
    end.
    destruct st' as [conns' acc']. simpl.
    eexists _, _. split_and!; [reflexivity|done|].
    intros k [i Hi].
    apply (inv_merged float_zero (Vector.reported_by replies)
             (Vector.num_envs self) R').
    + exact Hinv.
    + intros j k'. rewrite HR', lookup_empty. simpl.
      rewrite <-Hn. destruct (decide (j < Vector.num_envs self)%nat).
      * rewrite decide_True; [done|lia].
      * rewrite decide_False; [done|lia].
    + exists i. split; [|done].
      unfold Vector.reported_by in Hi.
      destruct (replies !! i) as [r|] eqn:Hr; [|by destruct Hi].
      apply lookup_lt_Some in Hr. lia.
Qed.

Lemma counter_pool_late_step_async :
  Vector.step_async Vector.counter_pool_late Vector.counter_actions
  = Ok Vector.counter_pool_late_pending.
Proof. vm_compute. reflexivity. Qed.

Lemma counter_late_reports i k (v : Vector.pyval Z Z) :
  Vector.reported_by [Vector.counter_reset_result; Vector.counter_result 1] i k
    = Some v →
  (i = 0%nat ∧ k = "episode" ∧ v = Vector.py_str "new") ∨
  (i = 0%nat ∧ k = "final_observation"
   ∧ v = Vector.py_obs {[ Vector.counter_agent := 3 ]}) ∨
  (i = 0%nat ∧ k = "final_info"
   ∧ v = Vector.py_info [("count", Vector.py_int 3)]) ∨
  (i = 1%nat ∧ k = "count" ∧ v = Vector.py_int 1).
Proof.
  destruct i as [|[|i]]; unfold Vector.reported_by; simpl; [| |done].
  - repeat case_decide; intros; simplify_eq; eauto 10.
  - repeat case_decide; intros; simplify_eq; eauto 10.
Qed.

Lemma step_wait_merges_infos_witness :
  let replies := [Vector.counter_reset_result; Vector.counter_result 1] in
  ∃ self' stacks,
    Vector.step_wait 0 Vector.np_cast_same_type Vector.counter_pool_late_pending
      = Ok (self', stacks) ∧
    Vector.waiting self' = false ∧
    ∀ k, (∃ i, is_Some (Vector.reported_by replies i k)) →
      Vector.info_merged 0 (Vector.num_envs Vector.counter_pool_late_pending)
        (Vector.reported_by replies) (Vector.infos stacks) k ∧
      ∃ info_array j0 v0,
        Vector.infos stacks !! k = Some info_array ∧
        Vector.first_reported (Vector.reported_by replies) k j0 v0 ∧
        Vector.dtype info_array = Vector.array_dtype (Vector.type_of v0).
Proof.
  intros replies.
  apply (step_wait_merges_infos 0 Vector.np_cast_same_type
           Vector.counter_pool_late_pending replies).
  - reflexivity.
  - discriminate.
  - repeat constructor; eexists _, _; reflexivity.
  - intros r agent Hr Hagent.
    apply list_elem_of_singleton in Hagent as ->.
    apply elem_of_cons in Hr as [->|Hr];
      [|apply list_elem_of_singleton in Hr as ->];
      repeat split; vm_compute; eauto.
  - intros i j k [v Hv].
    apply counter_late_reports in Hv
      as [(_ & -> & _)|[(_ & -> & _)|[(_ & -> & _)|(_ & -> & _)]]];
      by destruct j as [|[|j]].
  - intros k j0 v0 j w [Hv _] Hw.
    apply counter_late_reports in Hv
      as [(_ & -> & ->)|[(_ & -> & ->)|[(_ & -> & ->)|(_ & -> & ->)]]];
      apply counter_late_reports in Hw
        as [(_ & ? & ->)|[(_ & ? & ->)|[(_ & ? & ->)|(_ & ? & ->)]]];
      simplify_eq; reflexivity.
  - reflexivity.
Defined.

Lemma clash_pool_init : Vector.__init__ [Vector.ClashEnv] = Ok Vector.clash_pool.
Proof. vm_compute. reflexivity. Qed.

Lemma clash_pool_step_async :
  Vector.step_async Vector.clash_pool {[ Vector.counter_agent := [0] ]}
  = Ok Vector.clash_pool_pending.
Proof. vm_compute. reflexivity. Qed.

(** C9 as stated fails: an environment that reports the info names [a]
    and [_a] makes [step_wait] raise a key error, because the mask of
    [a] is stored under [_a] and the mask of [_a] is then looked up under
    [__a]. *)
Lemma step_wait_key_error :
  Vector.__init__ [Vector.ClashEnv] = Ok Vector.clash_pool ∧
  Vector.step_async Vector.clash_pool {[ Vector.counter_agent := [0] ]}
    = Ok Vector.clash_pool_pending ∧
  Vector.step_wait 0 Vector.np_cast_same_type Vector.clash_pool_pending
    = Raise (KeyError "__a").
Proof.
  split_and!; [apply clash_pool_init|apply clash_pool_step_async|].
  vm_compute. reflexivity.
Qed.

(** ** Target networks *)

Section TargetFacts.

Context {F OptState : Type} `{!FloatOps F} `{!Optimizer F OptState}.

Implicit Types (state : Train.TrainState F OptState) (tau : F).

Lemma incremental_update_polyak (live old : Params F) tau :
  dom live = dom old →
  ∃ target,
    Optax.incremental_update live old tau = Ok target ∧
    Train.polyak tau live old target.
Proof.
  intros Hdom. unfold Optax.incremental_update, Optax.tree_map2.
  rewrite decide_True by done. eexists. split; [done|]. split.
  - apply set_eq. intros leaf. rewrite !elem_of_dom, map_lookup_zip_with.
    assert (is_Some (live !! leaf) ↔ is_Some (old !! leaf)) as Hiff.
    { by rewrite <-!elem_of_dom, Hdom. }
    destruct (live !! leaf) as [l|] eqn:Hl, (old !! leaf) as [o|] eqn:Ho; simpl.
    + split; eauto.
    + destruct Hiff as [Hiff _]. destruct Hiff as [? [=]]. eauto.
    + split; intros [? [=]].
    + split; intros [? [=]].
  - intros leaf l o Hl Ho. by rewrite map_lookup_zip_with, Hl, Ho.
Qed.

Lemma apply_gradients_target state grads :
  Train.target_params (Train.apply_gradients state grads)
  = Train.target_params state.
Proof. unfold Train.apply_gradients. by destruct (tx_apply _ _ _). Qed.

Lemma apply_gradients_step state grads :
  Train.step (Train.apply_gradients state grads) = Train.step state + 1.
Proof. unfold Train.apply_gradients. by destruct (tx_apply _ _ _). Qed.

Lemma apply_gradients_dom state grads :
  Train.structure_preserving →
  dom (Train.params (Train.apply_gradients state grads)) = dom (Train.params state).
Proof.
  intros Hopt. unfold Train.apply_gradients.
  specialize (Hopt grads (Train.opt_state state) (Train.params state)).
  by destruct (tx_apply _ _ _).
Qed.

Lemma has_target_apply_gradients state grads :
  Train.structure_preserving → Train.has_target state →
  Train.has_target (Train.apply_gradients state grads).
Proof.
  intros Hopt (old & Hold & Hdom). exists old.
  by rewrite apply_gradients_target, apply_gradients_dom.
Qed.

Lemma updated_target_ok state tau :
  Train.has_target state →
  ∃ old target,
    Train.target_params state = Some old ∧
    Train.updated_target state tau = Ok target ∧
    Train.polyak tau (Train.params state) old target.
Proof.
  intros (old & Hold & Hdom). unfold Train.updated_target. rewrite Hold.
  destruct (incremental_update_polyak (Train.params state) old tau)
    as (target & Hup & Hpolyak); [done|].
  by exists old, target.
Qed.

Lemma has_target_replace state target :
  dom target = dom (Train.params state) →
  Train.has_target (Train.replace_target state target).
Proof. intros Hdom. by exists target. Qed.

End TargetFacts.

Section TD3Facts.

Context {F OptState : Type} `{!FloatOps F} `{!Optimizer F OptState}.
Context {Batch : Type}.
Variable qvalue_value_and_grad : Params F → Batch → F * Params F.
Variable policy_value_and_grad : Params F → Params F → Batch → F * Params F.

Implicit Types (p q : Train.TrainState F OptState).

Lemma td3_update_qvalue q batch :
  Train.structure_preserving → Train.has_target q →
  let q1 := (TD3.update_qvalue_fn qvalue_value_and_grad q batch).1.1 in
  Train.step q1 = Train.step q + 1 ∧
  Train.target_params q1 = Train.target_params q ∧
  Train.has_target q1.
Proof.
  intros Hopt Hq. unfold TD3.update_qvalue_fn.
  destruct (qvalue_value_and_grad _ _) as [loss grads]. simpl.
  split_and!.
  - apply apply_gradients_step.
  - apply apply_gradients_target.
  - by apply has_target_apply_gradients.
Qed.

Lemma td3_update_policy {Shape} (config : TD3.AlgoConfig F Shape) p q1 batch :
  Train.structure_preserving → Train.has_target p → Train.has_target q1 →
  ∃ p' q' loss info,
    TD3.update_policy_fn policy_value_and_grad config p q1 batch
      = Ok (p', q', loss, info) ∧
    Train.smoothed (TD3.tau (TD3.algo_params config)) p p' ∧
    Train.smoothed (TD3.tau (TD3.algo_params config)) q1 q' ∧
    Train.step p' = Train.step p + 1 ∧
    Train.params q' = Train.params q1 ∧ Train.step q' = Train.step q1.
Proof.
  intros Hopt Hp Hq. unfold TD3.update_policy_fn.
  destruct (policy_value_and_grad _ _ _) as [loss grads].
  pose proof (has_target_apply_gradients p grads Hopt Hp) as Hp1.
  destruct (updated_target_ok _ (TD3.tau (TD3.algo_params config)) Hp1)
    as (oldp & tp & Holdp & -> & Hpp).
  destruct (updated_target_ok _ (TD3.tau (TD3.algo_params config)) Hq)
    as (oldq & tq & Holdq & -> & Hpq).
  simpl. eexists _, _, _, _. split; [reflexivity|].
  rewrite apply_gradients_target in Holdp.
  split_and!.
  - by exists oldp, tp.
  - by exists oldq, tq.
  - simpl. apply apply_gradients_step.
  - done.
  - done.
Qed.

Lemma td3_update_step {Shape} (config : TD3.AlgoConfig F Shape) p q batch step :
  Train.structure_preserving → Train.has_target p → Train.has_target q →
  TD3.policy_update_frequency (TD3.algo_params config) ≠ 0 →
  ∃ q' p' info,
    TD3.update_step_fn qvalue_value_and_grad policy_value_and_grad
      config p q batch step = Ok (q', p', info) ∧
    Train.step q' = Train.step q + 1 ∧
    (step mod TD3.policy_update_frequency (TD3.algo_params config) = 0 →
       Train.smoothed (TD3.tau (TD3.algo_params config)) p p' ∧
       Train.smoothed (TD3.tau (TD3.algo_params config)) q q' ∧
       Train.step p' = Train.step p + 1) ∧
    (step mod TD3.policy_update_frequency (TD3.algo_params config) ≠ 0 →
       p' = p ∧ Train.target_params q' = Train.target_params q).
Proof.
  intros Hopt Hp Hq Hfreq. unfold TD3.update_step_fn.
  destruct (td3_update_qvalue q batch Hopt Hq) as (Hstep1 & Htarget1 & Hq1).
  destruct (TD3.update_qvalue_fn qvalue_value_and_grad q batch)
    as [[q1 loss_qvalue] info_qvalue]. simpl in Hstep1, Htarget1, Hq1.
  rewrite (proj2 (Z.eqb_neq _ _) Hfreq).
  destruct (Z.eqb_spec (step mod TD3.policy_update_frequency (TD3.algo_params config)) 0)
    as [Hmod|Hmod].
  - destruct (td3_update_policy config p q1 batch Hopt Hp Hq1)
      as (p' & q' & loss & info & -> & Hsp & Hsq & Hstp & _ & Hstq).
    simpl. eexists _, _, _. split; [reflexivity|]. split_and!.
    + congruence.
    + intros _. split_and!; [done| |done].
      destruct Hsq as (old & target & Hold & Hnew & Hpol).
      exists old, target. split_and!; [congruence|done|done].
    + done.
  - simpl. eexists _, _, _. split; [reflexivity|]. split_and!; [done|done|].
    intros _. done.
Qed.

End TD3Facts.

Section SACFacts.

Context {F OptState : Type} `{!FloatOps F} `{!Optimizer F OptState}.
Context {Key Batch : Type}.
Variable qvalue_value_and_grad : Params F → Batch → F * Params F.
Variable policy_value_and_grad :
  Params F → Params F → Params F → Batch → F * F * Params F.
Variable alpha_value_and_grad :
  Key → Params F → Params F → Batch → F * F * Params F.

Lemma sac_update_step {Shape} (config : SAC.AlgoConfig F Shape)
    (state : SAC.SACTrainState F OptState) (key : Key) batch :
  Train.structure_preserving →
  Train.has_target (SAC.policy_state state) →
  Train.has_target (SAC.qvalue_state state) →
  ∃ state' info,
    SAC.update_step_fn qvalue_value_and_grad policy_value_and_grad
      alpha_value_and_grad config state key batch = Ok (state', info) ∧
    Train.smoothed (SAC.tau (SAC.algo_params config))
      (SAC.policy_state state) (SAC.policy_state state') ∧
    Train.smoothed (SAC.tau (SAC.algo_params config))
      (SAC.qvalue_state state) (SAC.qvalue_state state') ∧
    Train.step (SAC.policy_state state') = Train.step (SAC.policy_state state) + 1 ∧
    Train.step (SAC.qvalue_state state') = Train.step (SAC.qvalue_state state) + 1 ∧
    Train.step (SAC.alpha_state state') = Train.step (SAC.alpha_state state) + 1 ∧
    Train.target_params (SAC.alpha_state state')
      = Train.target_params (SAC.alpha_state state).
Proof.
  intros Hopt (oldp & Holdp & Hdomp) Hq.
  unfold SAC.update_step_fn, SAC.update_qvalue_fn, SAC.update_policy_fn,
    SAC.update_alpha_fn.
  destruct (qvalue_value_and_grad _ _) as [loss_qvalue gq]. simpl.
  destruct (policy_value_and_grad _ _ _ _) as [[loss_policy entropy] gp].
  pose proof (has_target_apply_gradients _ gq Hopt Hq) as Hq1.
  assert (Train.has_target (Train.apply_gradients (SAC.policy_state state) gp))
    as Hp1.
  { apply has_target_apply_gradients; [done|]. by exists oldp. }
  destruct (updated_target_ok _ (SAC.tau (SAC.algo_params config)) Hp1)
    as (oldp' & tp & Holdp' & -> & Hpp).
  destruct (updated_target_ok _ (SAC.tau (SAC.algo_params config)) Hq1)
    as (oldq & tq & Holdq & -> & Hpq).
  simpl.
  destruct (alpha_value_and_grad _ _ _ _) as [[loss_alpha alpha] ga].
  eexists _, _. split; [reflexivity|]. simpl.
  rewrite apply_gradients_target in Holdp', Holdq.
  split_and!.
  - by exists oldp', tp.
  - by exists oldq, tq.
  - apply apply_gradients_step.
  - apply apply_gradients_step.
  - apply apply_gradients_step.
  - apply apply_gradients_target.
Qed.

End SACFacts.


(** C2 (as amended).  With an optimiser that keeps the structure of the
    parameter trees and sub-states whose targets have the structure of
    their live params: SAC's update step, and TD3's update step when the
    step counter is a multiple of [policy_update_frequency], take a
    gradient step on the live params of the policy and q-value sub-states
    and replace each target by the combination [tau * live + (1 - tau) *
    old_target] of the new live leaves and the old target leaves, with
    the configured [tau].  A TD3 update step whose counter is not such a
    multiple takes the gradient step on the q-value params only and
    leaves both targets as they were. *)
Theorem target_update_rule {F OptState : Type} `{!FloatOps F}
    `{!Optimizer F OptState} {Key Batch Shape : Type}
    (sac_qvalue_grad : Params F → Batch → F * Params F)
    (sac_policy_grad : Params F → Params F → Params F → Batch → F * F * Params F)
    (sac_alpha_grad : Key → Params F → Params F → Batch → F * F * Params F)
    (td3_qvalue_grad : Params F → Batch → F * Params F)
    (td3_policy_grad : Params F → Params F → Batch → F * Params F)
    (sac_config : SAC.AlgoConfig F Shape) (state : SAC.SACTrainState F OptState)
    (key : Key) (batch : Batch)
    (td3_config : TD3.AlgoConfig F Shape) (p q : Train.TrainState F OptState)
    (step : Z) :
  Train.structure_preserving →
  Train.has_target (SAC.policy_state state) →
  Train.has_target (SAC.qvalue_state state) →
  Train.has_target p → Train.has_target q →
  TD3.policy_update_frequency (TD3.algo_params td3_config) ≠ 0 →
  (∃ state' info,
     SAC.update_step_fn sac_qvalue_grad sac_policy_grad sac_alpha_grad
       sac_config state key batch = Ok (state', info) ∧
     Train.smoothed (SAC.tau (SAC.algo_params sac_config))
       (SAC.policy_state state) (SAC.policy_state state') ∧
     Train.smoothed (SAC.tau (SAC.algo_params sac_config))
       (SAC.qvalue_state state) (SAC.qvalue_state state') ∧
     Train.step (SAC.policy_state state')
       = Train.step (SAC.policy_state state) + 1 ∧
     Train.step (SAC.qvalue_state state')
       = Train.step (SAC.qvalue_state state) + 1) ∧
  (∃ q' p' info,
     TD3.update_step_fn td3_qvalue_grad td3_policy_grad td3_config p q batch step
       = Ok (q', p', info) ∧
     Train.step q' = Train.step q + 1 ∧
     (step mod TD3.policy_update_frequency (TD3.algo_params td3_config) = 0 →
        Train.smoothed (TD3.tau (TD3.algo_params td3_config)) p p' ∧
        Train.smoothed (TD3.tau (TD3.algo_params td3_config)) q q' ∧
        Train.step p' = Train.step p + 1) ∧
     (step mod TD3.policy_update_frequency (TD3.algo_params td3_config) ≠ 0 →
        p' = p ∧ Train.target_params q' = Train.target_params q)).
Proof.
  intros Hopt Hsp Hsq Hp Hq Hfreq. split.
  - destruct (sac_update_step sac_qvalue_grad sac_policy_grad sac_alpha_grad
                sac_config state key batch Hopt Hsp Hsq)
      as (state' & info & Hup & H1 & H2 & H3 & H4 & _).
    by exists state', info.
  - by apply td3_update_step.
Qed.

Lemma lowering_structure_preserving :
  Train.structure_preserving (F:=Z) (OptState:=unit).
Proof. intros grads opt_state params. simpl. apply dom_fmap_L. Qed.

Lemma target_update_rule_witness :
  (∃ state' info,
     SAC.update_step_fn SAC.example_qvalue_grad SAC.example_policy_grad
       SAC.example_alpha_grad SAC.example_config SAC.example_state [] tt
       = Ok (state', info) ∧
     Train.smoothed 1 (SAC.policy_state SAC.example_state) (SAC.policy_state state') ∧
     Train.smoothed 1 (SAC.qvalue_state SAC.example_state) (SAC.qvalue_state state') ∧
     Train.step (SAC.policy_state state')
       = Train.step (SAC.policy_state SAC.example_state) + 1 ∧
     Train.step (SAC.qvalue_state state')
       = Train.step (SAC.qvalue_state SAC.example_state) + 1) ∧
  (∃ q' p' info,
     TD3.update_step_fn TD3.example_qvalue_grad TD3.example_policy_grad
       TD3.example_config TD3.example_policy TD3.example_qvalue tt 4
       = Ok (q', p', info) ∧
     Train.step q' = Train.step TD3.example_qvalue + 1 ∧
     (4 mod 2 = 0 →
        Train.smoothed 1 TD3.example_policy p' ∧
        Train.smoothed 1 TD3.example_qvalue q' ∧
        Train.step p' = Train.step TD3.example_policy + 1) ∧
     (4 mod 2 ≠ 0 →
        p' = TD3.example_policy ∧
        Train.target_params q' = Train.target_params TD3.example_qvalue)).
Proof.
  apply (target_update_rule SAC.example_qvalue_grad SAC.example_policy_grad
           SAC.example_alpha_grad TD3.example_qvalue_grad TD3.example_policy_grad
           SAC.example_config SAC.example_state [] tt
           TD3.example_config TD3.example_policy TD3.example_qvalue 4).
  - apply lowering_structure_preserving.
  - eexists. split; reflexivity.
  - eexists. split; reflexivity.
  - eexists. split; reflexivity.
  - eexists. split; reflexivity.
  - simpl. lia.
Defined.

(** C2 as stated fails for TD3: at step 1 with the policy updated on
    every second step, the q-value sub-state takes its gradient step (its
    leaf goes from 3 to 2) and its target stays 3, which is not the
    combination of the new live leaf and the old target. *)
Lemma td3_target_not_updated :
  ∃ q' p' info,
    TD3.update_step_fn TD3.example_qvalue_grad TD3.example_policy_grad
      TD3.example_config TD3.example_policy TD3.example_qvalue tt 1
      = Ok (q', p', info) ∧
    Train.step q' = Train.step TD3.example_qvalue + 1 ∧
    Train.params q' = {[ "v" := 2 ]} ∧
    Train.target_params q' = Some {[ "v" := 3 ]} ∧
    ¬ Train.smoothed 1 TD3.example_qvalue q'.
Proof.
  eexists _, _, _. split; [reflexivity|]. split_and!; [reflexivity..|].
  intros (old & target & Hold & Htarget & _ & Hleaf).
  simpl in Hold, Htarget. simplify_eq.
  specialize (Hleaf "v" 2 3). simpl in Hleaf.
  rewrite lookup_fmap, !lookup_singleton_eq in Hleaf. simpl in Hleaf.
  specialize (Hleaf eq_refl eq_refl). discriminate Hleaf.
Qed.

(** ** The life of the target params *)

Lemma init_params_tabulate {F Key Module Shape : Type}
    (module_init : Key → Module → list Shape → gmap string (Params F))
    key module input_shapes tabulate :
  Train.init_params module_init key module input_shapes tabulate
  = Train.init_params module_init key module input_shapes false.
Proof. reflexivity. Qed.

(** C6 (as amended).  For every sub-state that has a target: the TD3 and
    SAC factories create it with target params equal, leaf for leaf, to
    its live params (SAC's temperature sub-state has no target); every
    update step either leaves its target params as they are or replaces
    them by the Polyak combination, with the configured [tau], of its new
    live params and its old target params; and [resume] replaces the
    whole training state, target params included, by the latest
    checkpoint. *)
Theorem target_params_lifecycle {F OptState : Type} `{!FloatOps F}
    `{!Optimizer F OptState} {Key : Type} `{!PRNG Key}
    {Module Shape Sample Batch Obs Action : Type} `{!Sampling Key Action}
    (module_init : Key → Module → list Shape → gmap string (Params F))
    (Policy QValue : TD3.AlgoConfig F Shape → Module) (unit_shape : Shape)
    (policy qvalue alpha : SAC.AlgoConfig F Shape → Module)
    (td3_qvalue_grad : Params F → Batch → F * Params F)
    (td3_policy_grad : Params F → Params F → Batch → F * Params F)
    (sac_qvalue_grad : Params F → Batch → F * Params F)
    (sac_policy_grad : Params F → Params F → Params F → Batch → F * F * Params F)
    (sac_alpha_grad : Key → Params F → Params F → Batch → F * F * Params F)
    (key : Key) (tabulate : bool)
    (td3_config : TD3.AlgoConfig F Shape) (sac_config : SAC.AlgoConfig F Shape)
    (p q : Train.TrainState F OptState) (step : Z)
    (state : SAC.SACTrainState F OptState) (batch : Batch)
    (self : TD3.TD3 F OptState Key Shape Sample Batch Obs Action) :
  Train.structure_preserving →
  Train.has_target p → Train.has_target q →
  Train.has_target (SAC.policy_state state) →
  Train.has_target (SAC.qvalue_state state) →
  TD3.policy_update_frequency (TD3.algo_params td3_config) ≠ 0 →
  let td3_initial :=
    TD3.train_state_ddpg_factory module_init Policy QValue unit_shape
      key td3_config tabulate in
  let sac_initial :=
    SAC.train_state_sac_factory module_init policy qvalue alpha
      key sac_config tabulate in
  (Train.target_params (TD3.policy_state td3_initial)
     = Some (Train.params (TD3.policy_state td3_initial)) ∧
   Train.target_params (TD3.qvalue_state td3_initial)
     = Some (Train.params (TD3.qvalue_state td3_initial)) ∧
   Train.target_params (SAC.policy_state sac_initial)
     = Some (Train.params (SAC.policy_state sac_initial)) ∧
   Train.target_params (SAC.qvalue_state sac_initial)
     = Some (Train.params (SAC.qvalue_state sac_initial)) ∧
   Train.target_params (SAC.alpha_state sac_initial) = None) ∧
  (∃ q' p' info,
     TD3.update_step_fn td3_qvalue_grad td3_policy_grad td3_config p q batch step
       = Ok (q', p', info) ∧
     (Train.target_params p' = Train.target_params p ∨
      Train.smoothed (TD3.tau (TD3.algo_params td3_config)) p p') ∧
     (Train.target_params q' = Train.target_params q ∨
      Train.smoothed (TD3.tau (TD3.algo_params td3_config)) q q')) ∧
  (∃ state' info,
     SAC.update_step_fn sac_qvalue_grad sac_policy_grad sac_alpha_grad
       sac_config state key batch = Ok (state', info) ∧
     Train.smoothed (SAC.tau (SAC.algo_params sac_config))
       (SAC.policy_state state) (SAC.policy_state state') ∧
     Train.smoothed (SAC.tau (SAC.algo_params sac_config))
       (SAC.qvalue_state state) (SAC.qvalue_state state') ∧
     Train.target_params (SAC.alpha_state state')
       = Train.target_params (SAC.alpha_state state)) ∧
  TD3.resume self =
    (λ '(start_step, restored), (TD3.with_state self restored, start_step))
      <$> Save.restore_latest_step (TD3.saver self) (TD3.state self).
Proof.
  intros Hopt Hp Hq Hsp Hsq Hfreq td3_initial sac_initial.
  split; [by split_and!|]. split; [|split].
  - destruct (td3_update_step td3_qvalue_grad td3_policy_grad td3_config
                p q batch step Hopt Hp Hq Hfreq)
      as (q' & p' & info & Hup & _ & Hzero & Hnonzero).
    exists q', p', info. split; [done|].
    destruct (decide (step mod TD3.policy_update_frequency
                                 (TD3.algo_params td3_config) = 0)) as [Hm|Hm].
    + destruct (Hzero Hm) as (? & ? & _). by split; right.
    + destruct (Hnonzero Hm) as [-> ?]. by split; left.
  - destruct (sac_update_step sac_qvalue_grad sac_policy_grad sac_alpha_grad
                sac_config state key batch Hopt Hsp Hsq)
      as (state' & info & Hup & H1 & H2 & _ & _ & _ & H3).
    by exists state', info.
  - unfold TD3.resume.
    by destruct (Save.restore_latest_step _ _) as [[? ?]|].
Qed.

Lemma target_params_lifecycle_witness :
  let module_init (key : list (nat * nat)) (module : unit) (shapes : list unit)
    : gmap string (Params Z) := {[ "params" := {[ "w" := Z.of_nat (length key) ]} ]} in
  let td3_initial :=
    TD3.train_state_ddpg_factory module_init (λ _, tt) (λ _, tt) tt
      [] TD3.example_config true in
  let sac_initial :=
    SAC.train_state_sac_factory module_init (λ _, tt) (λ _, tt) (λ _, tt)
      [] SAC.example_config true in
  (Train.target_params (TD3.policy_state td3_initial)
     = Some (Train.params (TD3.policy_state td3_initial)) ∧
   Train.target_params (TD3.qvalue_state td3_initial)
     = Some (Train.params (TD3.qvalue_state td3_initial)) ∧
   Train.target_params (SAC.policy_state sac_initial)
     = Some (Train.params (SAC.policy_state sac_initial)) ∧
   Train.target_params (SAC.qvalue_state sac_initial)
     = Some (Train.params (SAC.qvalue_state sac_initial)) ∧
   Train.target_params (SAC.alpha_state sac_initial) = None) ∧
  (∃ q' p' info,
     TD3.update_step_fn TD3.example_qvalue_grad TD3.example_policy_grad
       TD3.example_config TD3.example_policy TD3.example_qvalue tt 1
       = Ok (q', p', info) ∧
     (Train.target_params p' = Train.target_params TD3.example_policy ∨
      Train.smoothed 1 TD3.example_policy p') ∧
     (Train.target_params q' = Train.target_params TD3.example_qvalue ∨
      Train.smoothed 1 TD3.example_qvalue q')) ∧
  (∃ state' info,
     SAC.update_step_fn SAC.example_qvalue_grad SAC.example_policy_grad
       SAC.example_alpha_grad SAC.example_config SAC.example_state [] tt
       = Ok (state', info) ∧
     Train.smoothed 1 (SAC.policy_state SAC.example_state) (SAC.policy_state state') ∧
     Train.smoothed 1 (SAC.qvalue_state SAC.example_state) (SAC.qvalue_state state') ∧
     Train.target_params (SAC.alpha_state state')
       = Train.target_params (SAC.alpha_state SAC.example_state)) ∧
  TD3.resume TD3.example_agent =
    (λ '(start_step, restored),
       (TD3.with_state TD3.example_agent restored, start_step))
      <$> Save.restore_latest_step (TD3.saver TD3.example_agent)
            (TD3.state TD3.example_agent).
Proof.
  intros module_init.
  apply (target_params_lifecycle module_init (λ _, tt) (λ _, tt) tt
           (λ _, tt) (λ _, tt) (λ _, tt)
           TD3.example_qvalue_grad TD3.example_policy_grad
           SAC.example_qvalue_grad SAC.example_policy_grad SAC.example_alpha_grad
           [] true TD3.example_config SAC.example_config
           TD3.example_policy TD3.example_qvalue 1 SAC.example_state tt
           TD3.example_agent).
  - apply lowering_structure_preserving.
  - eexists. split; reflexivity.
  - eexists. split; reflexivity.
  - eexists. split; reflexivity.
  - eexists. split; reflexivity.
  - simpl. lia.
Defined.

(** C6 as stated fails: [resume] overwrites the target params wholesale.
    The agent's policy target is 5; after [resume] it is the 9 of the
    checkpoint, which is no Polyak combination, for any [tau], of the old
    target 5 and the restored live leaf 5. *)
Lemma td3_resume_overwrites_target :
  ∃ self',
    TD3.resume TD3.example_agent = Ok (self', Some 10) ∧
    Train.target_params (TD3.policy_state (TD3.state TD3.example_agent))
      = Some {[ "w" := 5 ]} ∧
    Train.params (TD3.policy_state (TD3.state self')) = {[ "w" := 5 ]} ∧
    Train.target_params (TD3.policy_state (TD3.state self'))
      = Some {[ "w" := 9 ]} ∧
    ∀ tau : Z,
      ¬ Train.smoothed tau (TD3.policy_state (TD3.state TD3.example_agent))
          (TD3.policy_state (TD3.state self')).
Proof.
  eexists. split; [reflexivity|]. split_and!; [reflexivity..|].
  intros tau (old & target & Hold & Htarget & _ & Hleaf).
  simpl in Hold, Htarget. simplify_eq.
  specialize (Hleaf "w" 5 5). simpl in Hleaf.
  rewrite !lookup_singleton_eq in Hleaf.
  specialize (Hleaf eq_refl eq_refl). injection Hleaf as Hleaf. lia.
Qed.

(** ** Action selection *)

(** C3 (as amended).  In DQN and TD3, [select_action] and [explore] draw
    the same keys and call the same explore function on the same
    parameters and observation; [select_action] passes the exploration
    coefficient zero ([NO_EXPLORATION], resp. a zero action noise) where
    [explore] passes the configured one, and TD3's [explore] replaces
    the action by a uniform random one during warm-up.  In SAC,
    [select_action] is [explore]: it samples like [explore] and returns
    a uniform random action during warm-up. *)
Theorem action_selection_entry_points {F OptState Key Shape Sample Batch Obs Action : Type}
    `{!FloatOps F} `{!Sampling Key Action}
    (dqn : DQN.DQN F OptState Key Obs Action)
    (td3 : TD3.TD3 F OptState Key Shape Sample Batch Obs Action)
    (sac : SAC.SAC F OptState Key Shape Obs Action)
    (observation : per_agent Obs)
    (dqn_key td3_key sac_key : Key) (dqn_keys td3_keys sac_keys : per_agent Key) :
  interact_keys (DQN.parallel dqn) (DQN.key dqn) observation
    = Ok (dqn_key, dqn_keys) →
  interact_keys (TD3.parallel td3) (TD3.key td3) observation
    = Ok (td3_key, td3_keys) →
  interact_keys (SAC.parallel sac) (SAC.key sac) observation
    = Ok (sac_key, sac_keys) →
  let warm_up (r : Action * Action) (k : Key) : Action * Action :=
    (uniform k r.1, zeros_like (uniform k r.1)) in
  (DQN.NO_EXPLORATION = fzero ∧
   DQN.select_action dqn observation =
     Ok (DQN.with_key dqn dqn_key,
         DQN.explore_fn dqn (Train.params (DQN.state dqn)) dqn_keys observation
           DQN.NO_EXPLORATION) ∧
   DQN.explore dqn observation =
     Ok (DQN.with_key dqn dqn_key,
         DQN.explore_fn dqn (Train.params (DQN.state dqn)) dqn_keys observation
           (DQN.exploration (DQN.algo_params dqn)))) ∧
  (TD3.select_action td3 observation =
     Ok (TD3.with_key td3 td3_key,
         TD3.explore_fn td3 (TD3.policy_state (TD3.state td3)) td3_keys
           observation fzero) ∧
   TD3.explore td3 observation =
     let r := TD3.explore_fn td3 (TD3.policy_state (TD3.state td3)) td3_keys
                observation (TD3.action_noise (TD3.algo_params (TD3.config td3))) in
     if TD3.step td3 <? TD3.start_step (TD3.algo_params (TD3.config td3))
     then Ok (TD3.with_key td3 (nextkey td3_key).1, warm_up r (nextkey td3_key).2)
     else Ok (TD3.with_key td3 td3_key, r)) ∧
  (SAC.select_action sac observation = SAC.explore sac observation ∧
   SAC.explore sac observation =
     let r := SAC.explore_fn sac (SAC.policy_state (SAC.state sac)) sac_keys
                observation in
     if SAC.step sac <? SAC.start_step (SAC.algo_params (SAC.config sac))
     then Ok (SAC.with_key sac (nextkey sac_key).1, warm_up r (nextkey sac_key).2)
     else Ok (SAC.with_key sac sac_key, r)).
Proof.
  intros Hdqn Htd3 Hsac warm_up. split_and!.
  - reflexivity.
  - unfold DQN.select_action. rewrite Hdqn. simpl.
    by destruct (DQN.explore_fn dqn _ _ _ _).
  - unfold DQN.explore. rewrite Hdqn. simpl.
    by destruct (DQN.explore_fn dqn _ _ _ _).
  - unfold TD3.select_action. rewrite Htd3. simpl.
    by destruct (TD3.explore_fn td3 _ _ _ _).
  - unfold TD3.explore. rewrite Htd3. simpl.
    destruct (TD3.explore_fn td3 _ _ _ _) as [action log_prob]. simpl.
    destruct (_ <? _); [|done].
    by destruct (nextkey td3_key).
  - reflexivity.
  - unfold SAC.explore. rewrite Hsac. simpl.
    destruct (SAC.explore_fn sac _ _ _) as [action log_prob]. simpl.
    destruct (_ <? _); [|done].
    by destruct (nextkey sac_key).
Qed.

Lemma action_selection_entry_points_witness :
  let dqn := DQN.example_agent in
  let td3 := TD3.example_agent in
  let sac := SAC.example_agent [] in
  let observation : per_agent Z := single 1 in
  let key' := [(2, 0)%nat] in
  let keys := single [(2, 1)%nat] in
  let warm_up (r : Z * Z) (k : list (nat * nat)) : Z * Z :=
    (uniform k r.1, zeros_like (uniform k r.1)) in
  (DQN.NO_EXPLORATION = fzero ∧
   DQN.select_action dqn observation =
     Ok (DQN.with_key dqn key',
         DQN.explore_fn dqn (Train.params (DQN.state dqn)) keys observation
           DQN.NO_EXPLORATION) ∧
   DQN.explore dqn observation =
     Ok (DQN.with_key dqn key',
         DQN.explore_fn dqn (Train.params (DQN.state dqn)) keys observation
           (DQN.exploration (DQN.algo_params dqn)))) ∧
  (TD3.select_action td3 observation =
     Ok (TD3.with_key td3 key',
         TD3.explore_fn td3 (TD3.policy_state (TD3.state td3)) keys
           observation fzero) ∧
   TD3.explore td3 observation =
     let r := TD3.explore_fn td3 (TD3.policy_state (TD3.state td3)) keys
                observation (TD3.action_noise (TD3.algo_params (TD3.config td3))) in
     if TD3.step td3 <? TD3.start_step (TD3.algo_params (TD3.config td3))
     then Ok (TD3.with_key td3 (nextkey key').1, warm_up r (nextkey key').2)
     else Ok (TD3.with_key td3 key', r)) ∧
  (SAC.select_action sac observation = SAC.explore sac observation ∧
   SAC.explore sac observation =
     let r := SAC.explore_fn sac (SAC.policy_state (SAC.state sac)) keys
                observation in
     if SAC.step sac <? SAC.start_step (SAC.algo_params (SAC.config sac))
     then Ok (SAC.with_key sac (nextkey key').1, warm_up r (nextkey key').2)
     else Ok (SAC.with_key sac key', r)).
Proof.
  intros dqn td3 sac observation key' keys.
  apply (action_selection_entry_points dqn td3 sac observation
           key' key' key' keys keys keys); reflexivity.
Defined.

(** C3 as stated fails for SAC: [select_action] is [explore].  For the
    example agent in its warm-up phase, whose policy would choose action
    6 on observation 1, [select_action] returns a uniform random action:
    3 from the empty key state and 5 from another key state, with the
    same policy and observation. *)
Lemma sac_select_action_explores :
  SAC.explore_fn (SAC.example_agent [])
    (SAC.policy_state SAC.example_state) (single [(2, 1)%nat]) (single 1)
    = (6, 0) ∧
  SAC.select_action (SAC.example_agent []) (single 1)
    = Ok (SAC.with_key (SAC.example_agent []) [(2, 0); (2, 0)]%nat, (3, 0)) ∧
  SAC.select_action (SAC.example_agent [(2, 1)%nat]) (single 1)
    = Ok (SAC.with_key (SAC.example_agent [(2, 1)%nat])
            [(2, 1); (2, 0); (2, 0)]%nat, (5, 0)) ∧
  SAC.select_action (SAC.example_agent []) (single 1)
    = SAC.explore (SAC.example_agent []) (single 1).
Proof. split_and!; reflexivity. Qed.

(** * Part III: further properties of the embedded code *)

(** ** Checkpoints: what leaving the block saves *)

Section ExitFacts.

Context {State : Type}.
Variable manager_save :
  list (Z * State) → Z → State → list (Z * State) * result unit.
Implicit Types (self : Save.SaverContext State) (sv : Save.Saver State).
Implicit Types (step f : Z) (state : State) (calls : list (Z * State)).



End ExitFacts.


(** ** The update pipeline: what every call keeps, and concatenation *)

Section UpdateLoopFacts.

Context {Key : Type} `{!PRNG Key}.
Context {MState Batch InfoVal : Type}.

Implicit Types (key : Key) (batch : Batch) (info : gmap string InfoVal).
Implicit Types (ms pre : list (Pipeline.UpdateModule Key MState Batch InfoVal)).

Lemma update_loop_update_fns n : ∀ i ms key batch info,
  Pipeline.update_fn <$> (Pipeline.update_loop n i ms key batch info).1
  = Pipeline.update_fn <$> ms.
Proof.
  induction n as [|n IH]; intros i ms key batch info; simpl; [done|].
  destruct (ms !! i) as [module|] eqn:Hi; [|done].
  destruct (Pipeline.update_fn module _ _ _) as [[st mi]|e]; [|done].
  rewrite IH, list_fmap_insert. simpl.
  apply list_insert_id. by rewrite list_lookup_fmap, Hi.
Qed.

Lemma update_loop_length n i ms key batch info :
  length (Pipeline.update_loop n i ms key batch info).1 = length ms.
Proof.
  rewrite <-(length_fmap Pipeline.update_fn), update_loop_update_fns.
  by rewrite length_fmap.
Qed.

(** X3.  Whatever the stages do, [update_pipeline] leaves the caller's list
    with as many modules as before and with the update function of each
    position unchanged: a call only ever replaces module states. *)
Theorem update_pipeline_keeps_update_fns ms key batch :
  length (Pipeline.update_pipeline ms key batch).1 = length ms ∧
  Pipeline.update_fn <$> (Pipeline.update_pipeline ms key batch).1
  = Pipeline.update_fn <$> ms.
Proof.
  unfold Pipeline.update_pipeline.
  pose proof (update_loop_length (length ms) 0 ms key batch ∅) as Hlen.
  pose proof (update_loop_update_fns (length ms) 0 ms key batch ∅) as Hfns.
  by destruct (Pipeline.update_loop _ _ _ _ _ _).
Qed.

Lemma carried_key_S key n :
  Pipeline.carried_key key (S n)
  = Pipeline.carried_key (split key 2 !!! 0%fin) n.
Proof. unfold Pipeline.carried_key. simpl. by rewrite derive_split_0. Qed.

(** [n + m] rounds are [n] rounds followed, when none of them raised, by
    [m] rounds from where they stopped. *)
Lemma update_loop_rounds n m : ∀ i ms key batch info,
  (i + n ≤ length ms)%nat →
  Pipeline.update_loop (n + m) i ms key batch info =
    match Pipeline.update_loop n i ms key batch info with
    | (ms', Ok info') =>
        Pipeline.update_loop m (i + n) ms' (Pipeline.carried_key key n) batch info'
    | (ms', Raise e) => (ms', Raise e)
    end.
Proof.
  induction n as [|n IH]; intros i ms key batch info Hlen.
  - simpl. by rewrite Nat.add_0_r.
  - cbn [Nat.add Pipeline.update_loop].
    destruct (ms !! i) as [module|] eqn:Hi.
    2:{ apply lookup_ge_None in Hi. lia. }
    destruct (Pipeline.update_fn module _ _ _) as [[st mi]|e]; [|done].
    rewrite IH by (rewrite length_insert; lia).
    destruct (Pipeline.update_loop n _ _ _ _ _) as [ms' [info'|e]]; [|done].
    rewrite carried_key_S. f_equal. lia.
Qed.

(** The modules after the last one that the rounds reach play no part. *)
Lemma update_loop_app_l n : ∀ i ms1 ms2 key batch info,
  (i + n ≤ length ms1)%nat →
  Pipeline.update_loop n i (ms1 ++ ms2) key batch info =
    ((Pipeline.update_loop n i ms1 key batch info).1 ++ ms2,
     (Pipeline.update_loop n i ms1 key batch info).2).
Proof.
  induction n as [|n IH]; intros i ms1 ms2 key batch info Hlen; [done|].
  cbn [Pipeline.update_loop].
  rewrite lookup_app_l by lia.
  destruct (ms1 !! i) as [module|] eqn:Hi.
  2:{ apply lookup_ge_None in Hi. lia. }
  destruct (Pipeline.update_fn module _ _ _) as [[st mi]|e]; [|done].
  rewrite insert_app_l by lia.
  apply IH. rewrite length_insert. lia.
Qed.

(** The modules before the first one that the rounds reach play no part. *)
Lemma update_loop_app_r n : ∀ i pre ms key batch info,
  Pipeline.update_loop n (length pre + i) (pre ++ ms) key batch info =
    (pre ++ (Pipeline.update_loop n i ms key batch info).1,
     (Pipeline.update_loop n i ms key batch info).2).
Proof.
  induction n as [|n IH]; intros i pre ms key batch info; [done|].
  cbn [Pipeline.update_loop].
  rewrite lookup_app_r by lia.
  replace (length pre + i - length pre)%nat with i by lia.
  destruct (ms !! i) as [module|] eqn:Hi; [|done].
  destruct (Pipeline.update_fn module _ _ _) as [[st mi]|e]; [|done].
  rewrite insert_app_r_alt by lia.
  replace (length pre + i - length pre)%nat with i by lia.
  replace (S (length pre + i)) with (length pre + S i)%nat by lia.
  apply IH.
Qed.

(** The diagnostics gathered before the rounds only sit below the ones
    the rounds add. *)
Lemma update_loop_info n : ∀ i ms key batch info,
  Pipeline.update_loop n i ms key batch info =
    ((Pipeline.update_loop n i ms key batch ∅).1,
     (λ info', info' ∪ info) <$> (Pipeline.update_loop n i ms key batch ∅).2).
Proof.
  induction n as [|n IH]; intros i ms key batch info.
  - simpl. unfold fmap, result_fmap. by rewrite (left_id_L ∅ (∪)).
  - cbn [Pipeline.update_loop].
    destruct (ms !! i) as [module|] eqn:Hi.
    2:{ simpl. unfold fmap, result_fmap. by rewrite (left_id_L ∅ (∪)). }
    destruct (Pipeline.update_fn module _ _ _) as [[st mi]|e]; [|done].
    rewrite (IH _ _ _ _ (mi ∪ info)), (IH _ _ _ _ (mi ∪ ∅)).
    destruct (Pipeline.update_loop n _ _ _ _ ∅) as [ms' [info'|e]]; simpl; [|done].
    unfold fmap, result_fmap.
    by rewrite (right_id_L ∅ (∪)), (assoc_L (∪)).
Qed.

(** X4.  The pipeline of a concatenation.  [update_pipeline] on [ms1 ++ ms2]
    runs [ms1]; if a stage of [ms1] raises, [ms2] is left as it was;
    otherwise it runs [ms2] with the key that the rounds of [ms1] leave,
    and the diagnostics of [ms2] take precedence over those of [ms1]. *)
Theorem update_pipeline_app ms1 ms2 key batch :
  Pipeline.update_pipeline (ms1 ++ ms2) key batch =
    match Pipeline.update_pipeline ms1 key batch with
    | (ms1', Raise e) => (ms1' ++ ms2, Raise e)
    | (ms1', Ok (_, info1)) =>
        let '(ms2', r2) :=
          Pipeline.update_pipeline ms2
            (Pipeline.carried_key key (length ms1)) batch in
        (ms1' ++ ms2',
         '(_, info2) ← r2; Ok (ms1' ++ ms2', info2 ∪ info1))
    end.
Proof.
  unfold Pipeline.update_pipeline.
  rewrite length_app, update_loop_rounds by (rewrite length_app; lia).
  rewrite update_loop_app_l by lia.
  pose proof (update_loop_length (length ms1) 0 ms1 key batch ∅) as Hlen.
  destruct (Pipeline.update_loop (length ms1) 0 ms1 key batch ∅)
    as [ms1' [info1|e]]; simpl in *; [|done].
  rewrite <-Hlen.
  replace (length ms1') with (length ms1' + 0)%nat at 1 by lia.
  rewrite update_loop_app_r, update_loop_info.
  destruct (Pipeline.update_loop (length ms2) 0 ms2 _ batch ∅)
    as [ms2' [info2|e]]; done.
Qed.

End UpdateLoopFacts.

(** ** The pool: workers that fail, start-up and misuse *)

Lemma mapM_Raise {A B} (f : A → result B) (l : list A) e :
  Forall (λ x, f x = Raise e ∨ ∃ y, f x = Ok y) l →
  Exists (λ x, f x = Raise e) l →
  mapM f l = Raise e.
Proof.
  induction l as [|x l IH]; intros Hall Hex.
  - by apply Exists_nil in Hex.
  - apply Forall_cons in Hall as [Hx Hall]. simpl.
    destruct Hx as [->|[y Hy]]; [done|].
    rewrite Hy. simpl.
    apply Exists_cons in Hex as [Hex|Hex]; [congruence|].
    by rewrite (IH Hall Hex).
Qed.

Section PoolEdgeFacts.

Context {Obs Rew Act Float Space Env : Type}.
Context `{!Vector.ParallelEnv Obs Rew Act Float Space Env}.
Context `{!Vector.StartMethod}.
Variable float_zero : Float.
Variable np_cast :
  Vector.np_dtype → Vector.pyval Obs Float → result (Vector.pyval Obs Float).

Implicit Types (self : Vector.SubProcVecParallelEnv Obs Rew Float Space Env).
Implicit Types (conn : Vector.Connection Obs Rew Float Space Env).
Implicit Types (actions : gmap string (list Act)) (env : Env).



Lemma request_reset (h : bool) env env' r :
  Vector.env_reset env = Ok (env', r) →
  Vector.request_on h (Vector.mkConnection env Vector.running []) "reset"
  = Ok (Vector.mkConnection env' Vector.running [], Vector.reply_reset r).
Proof.
  intros Hreset. unfold Vector.request_on, Vector.send_on, Vector.worker_round.
  simpl. rewrite Hreset. reflexivity.
Qed.

(** X6.  [__init__] on a non-empty list of environments that all reset
    normally returns a pool that is neither waiting nor closed, with one
    running worker per environment, in the order given, each holding its
    environment as reset and an empty pipe; the agents and spaces are
    those of the first environment after its reset, and [num_envs] is the
    number of environments. *)
Theorem pool_init_idle (env_fns : list Env) env0 (envs : list Env) :
  Forall2 (λ env env', ∃ r, Vector.env_reset env = Ok (env', r))
    env_fns (env0 :: envs) →
  Vector.__init__ env_fns =
    Ok {| Vector.waiting := false; Vector.closed := false;
          Vector.parent_conns :=
            (λ env, Vector.mkConnection env Vector.running []) <$> env0 :: envs;
          Vector.agents := Vector.env_agents env0;
          Vector.num_agents := Vector.env_num_agents env0;
          Vector.observation_spaces :=
            list_to_map ((λ agent, (agent, Vector.env_observation_space env0 agent))
                           <$> Vector.env_agents env0);
          Vector.action_spaces :=
            list_to_map ((λ agent, (agent, Vector.env_action_space env0 agent))
                           <$> Vector.env_agents env0);
          Vector.num_envs := length env_fns |}.
Proof.
  intros Hreset. unfold Vector.__init__.
  rewrite (for_conns_Ok _ _ ((λ env, Vector.mkConnection env Vector.running [])
                               <$> env0 :: envs)).
  - reflexivity.
  - rewrite <-list_fmap_compose. apply Forall2_fmap.
    eapply Forall2_impl; [exact Hreset|].
    intros env env' [r Hr] h. simpl. by rewrite (request_reset h env env' r Hr).
Qed.

(** An empty list of environments gives no pool: the unpacking of the
    pipes fails. *)
Lemma pool_init_empty :
  Vector.__init__ ([] : list Env) = Raise ValueError.
Proof. reflexivity. Qed.

(** X7.  When some agent's stacked action has fewer entries than the pool has
    workers, [step_async] raises [IndexError] while it unstacks the
    actions, before any command is sent and whatever the state of the
    workers. *)
Theorem step_async_short_action self actions agent (action : list Act) :
  actions !! agent = Some action →
  (length action < length (Vector.parent_conns self))%nat →
  Vector.step_async self actions = Raise IndexError.
Proof.
  intros Hagent Hlen. unfold Vector.step_async.
  rewrite (mapM_Raise (Vector.unstack_action actions) _ IndexError); [done| |].
  - apply Forall_forall. intros i _. unfold Vector.unstack_action.
    case_decide; eauto.
  - apply Exists_exists. exists (length action). split.
    + apply elem_of_seq. lia.
    + unfold Vector.unstack_action. rewrite decide_False; [done|].
      intros Hall. specialize (Hall agent action Hagent). simpl in Hall. lia.
Qed.

Lemma step_wait_conn_empty self st i conn :
  Vector.unread conn = [] →
  Vector.step_wait_conn float_zero np_cast self st (i, conn) =
    Raise (if Vector.is_running conn || Vector.held (Vector.parent_conns self)
           then Blocked else EOFError).
Proof.
  intros Hun. unfold Vector.step_wait_conn, Vector.recv_on, Vector.is_running.
  rewrite Hun.
  by destruct (Vector.worker_status conn),
       (Vector.held (Vector.parent_conns self)).
Qed.

(** X8.  [step_wait] with nothing to wait for: when the first worker has no
    unread reply, the call waits for ever if that worker is alive, and
    also if it is gone while another worker of the pool is alive and the
    workers were forked, since that worker keeps the pipe open; it raises
    [EOFError] if the first worker is gone and no other process holds its
    pipe. *)
Theorem step_wait_nothing_pending self conn conns :
  Vector.parent_conns self = conn :: conns →
  Vector.unread conn = [] →
  Vector.step_wait float_zero np_cast self =
    Raise (if Vector.is_running conn || Vector.held conns
           then Blocked else EOFError).
Proof.
  intros Hconns Hun. unfold Vector.step_wait. rewrite Hconns.
  cbn [imap foldlM]. rewrite step_wait_conn_empty by done. rewrite Hconns.
  unfold Vector.held. cbn [existsb].
  by destruct (Vector.is_running conn), Vector.fork,
       (existsb Vector.is_running conns).
Qed.

End PoolEdgeFacts.


Lemma pool_init_idle_witness :
  Vector.__init__ [5; 7] =
    Ok {| Vector.waiting := false; Vector.closed := false;
          Vector.parent_conns :=
            (λ env, Vector.mkConnection env Vector.running []) <$> [0; 0];
          Vector.agents := Vector.env_agents 0;
          Vector.num_agents := Vector.env_num_agents 0;
          Vector.observation_spaces :=
            list_to_map ((λ agent, (agent, Vector.env_observation_space 0 agent))
                           <$> Vector.env_agents 0);
          Vector.action_spaces :=
            list_to_map ((λ agent, (agent, Vector.env_action_space 0 agent))
                           <$> Vector.env_agents 0);
          Vector.num_envs := length [5; 7] |}.
Proof.
  apply (pool_init_idle [5; 7] 0 [0]).
  repeat constructor; eexists; reflexivity.
Defined.

Lemma step_async_short_action_witness :
  Vector.step_async Vector.counter_pool {[ Vector.counter_agent := [1] ]}
  = Raise IndexError.
Proof.
  apply (step_async_short_action Vector.counter_pool
           {[ Vector.counter_agent := [1] ]} Vector.counter_agent [1]).
  - reflexivity.
  - simpl. lia.
Defined.

Lemma step_wait_nothing_pending_witness :
  let gone : Vector.Connection Z Z Z unit Z :=
    Vector.mkConnection 0 (Vector.crashed ValueError) [] in
  let alive : Vector.Connection Z Z Z unit Z :=
    Vector.mkConnection 0 Vector.running [] in
  let pool conns : Vector.SubProcVecParallelEnv Z Z Z unit Z :=
    Vector.mkPool true false conns [Vector.counter_agent] 1
      {[ Vector.counter_agent := tt ]} {[ Vector.counter_agent := tt ]}
      (length conns) in
  Vector.step_wait 0 Vector.np_cast_same_type (pool [gone; alive])
    = Raise Blocked ∧
  Vector.step_wait 0 Vector.np_cast_same_type (pool [gone]) = Raise EOFError.
Proof.
  intros gone alive pool. split.
  - exact (step_wait_nothing_pending 0 Vector.np_cast_same_type
             (pool [gone; alive]) gone [alive] eq_refl eq_refl).
  - exact (step_wait_nothing_pending 0 Vector.np_cast_same_type
             (pool [gone]) gone [] eq_refl eq_refl).
Defined.

(** ** The pool: results in worker order *)

Lemma empty_stack_nil {A} (ags : list string) agent :
  agent ∈ ags →
  (list_to_map ((λ a, (a, [])) <$> ags) : gmap string (list A)) !! agent
  = Some [].
Proof.
  intros Hin.
  destruct (empty_stack_lookup (A:=A) ags agent Hin) as [l Hl].
  rewrite Hl. apply elem_of_list_to_map_2 in Hl.
  apply list_elem_of_fmap in Hl as (a & [= _ ->] & _). done.
Qed.

Section OrderFacts.

Context {Obs Rew Act Float Space Env : Type}.
Context `{!Vector.ParallelEnv Obs Rew Act Float Space Env}.
Context `{!Vector.StartMethod}.
Variable float_zero : Float.
Variable np_cast :
  Vector.np_dtype → Vector.pyval Obs Float → result (Vector.pyval Obs Float).

Implicit Types (self : Vector.SubProcVecParallelEnv Obs Rew Float Space Env).
Implicit Types (conn : Vector.Connection Obs Rew Float Space Env).
Implicit Types (r : Vector.StepResult Obs Rew Float).
Implicit Types (rs seen : list (Vector.StepResult Obs Rew Float)).
Implicit Types (acc : Vector.Stacks Obs Rew Float) (agent b : string).

Lemma getitem_Ok {A} (d : gmap string A) k a :
  Vector.getitem d k = Ok a → d !! k = Some a.
Proof. unfold Vector.getitem. destruct (d !! k); by intros [= ->]. Qed.

Lemma append_lookup {A} (d d' : gmap string (list A)) agent x :
  Vector.append d agent x = Ok d' →
  (∃ l, d !! agent = Some l ∧ d' !! agent = Some (l ++ [x])) ∧
  ∀ b, b ≠ agent → d' !! b = d !! b.
Proof.
  unfold Vector.append, Vector.getitem.
  destruct (d !! agent) as [l|] eqn:Hl; simpl; [|done].
  intros [= <-]. split.
  - exists l. by rewrite lookup_insert_eq.
  - intros b Hb. by rewrite lookup_insert_ne.
Qed.

Lemma column_append {A} (f : Vector.StepResult Obs Rew Float → gmap string A)
    rs r (d d' : gmap string (list A)) agent x :
  Vector.getitem (f r) agent = Ok x →
  Vector.append d agent x = Ok d' →
  Vector.column f rs d agent → Vector.column f (rs ++ [r]) d' agent.
Proof.
  intros Hx%getitem_Ok [(l & Hl & Hl') _]%append_lookup (l0 & Hl0 & Hcol).
  assert (l0 = l) as -> by congruence.
  exists (l ++ [x]). split; [done|].
  apply Forall2_app; [done|]. by constructor.
Qed.

Lemma column_frame {A} (f : Vector.StepResult Obs Rew Float → gmap string A)
    rs (d d' : gmap string (list A)) agent b x :
  b ≠ agent →
  Vector.append d agent x = Ok d' →
  Vector.column f rs d b → Vector.column f rs d' b.
Proof.
  intros Hb [_ Hframe]%append_lookup (l & Hl & Hcol).
  exists l. by rewrite Hframe.
Qed.

Lemma step_wait_agent_stacked self r i acc acc' agent :
  Vector.step_wait_agent float_zero np_cast self r i acc agent = Ok acc' →
  (∀ rs, Vector.stacked rs acc agent → Vector.stacked (rs ++ [r]) acc' agent) ∧
  (∀ rs b, b ≠ agent → Vector.stacked rs acc b → Vector.stacked rs acc' b).
Proof.
  destruct r as [[[[obs rew] terminated] truncated] info].
  unfold Vector.step_wait_agent.
  destruct (Vector.getitem obs agent) as [o|] eqn:Ho; simpl; [|done].
  destruct (Vector.append (Vector.observations acc) agent o)
    as [d1|] eqn:Hd1; simpl; [|done].
  destruct (Vector.getitem rew agent) as [x|] eqn:Hx; simpl; [|done].
  destruct (Vector.append (Vector.rewards acc) agent x)
    as [d2|] eqn:Hd2; simpl; [|done].
  destruct (Vector.getitem terminated agent) as [b1|] eqn:Hb1; simpl; [|done].
  destruct (Vector.append (Vector.terminateds acc) agent b1)
    as [d3|] eqn:Hd3; simpl; [|done].
  destruct (Vector.getitem truncated agent) as [b2|] eqn:Hb2; simpl; [|done].
  destruct (Vector.append (Vector.truncateds acc) agent b2)
    as [d4|] eqn:Hd4; simpl; [|done].
  destruct (Vector._add_info _ _ _ _ _ _) as [infos'|]; simpl; [|done].
  intros [= <-]. unfold Vector.stacked. simpl. split.
  - intros rs (H1 & H2 & H3 & H4). split_and!.
    + exact (column_append Vector.step_obs rs (obs, rew, terminated, truncated, info)
             _ _ agent o Ho Hd1 H1).
    + exact (column_append Vector.step_rew rs (obs, rew, terminated, truncated, info)
             _ _ agent x Hx Hd2 H2).
    + exact (column_append Vector.step_terminated rs (obs, rew, terminated, truncated, info)
             _ _ agent b1 Hb1 Hd3 H3).
    + exact (column_append Vector.step_truncated rs (obs, rew, terminated, truncated, info)
             _ _ agent b2 Hb2 Hd4 H4).
  - intros rs b Hb (H1 & H2 & H3 & H4). split_and!.
    + exact (column_frame _ rs _ _ agent b o Hb Hd1 H1).
    + exact (column_frame _ rs _ _ agent b x Hb Hd2 H2).
    + exact (column_frame _ rs _ _ agent b b1 Hb Hd3 H3).
    + exact (column_frame _ rs _ _ agent b b2 Hb Hd4 H4).
Qed.

Lemma step_wait_agents_stacked self r i (todo : list string) : ∀ acc acc',
  NoDup todo →
  foldlM (Vector.step_wait_agent float_zero np_cast self r i) acc todo = Ok acc' →
  (∀ rs b, b ∈ todo → Vector.stacked rs acc b → Vector.stacked (rs ++ [r]) acc' b) ∧
  (∀ rs b, b ∉ todo → Vector.stacked rs acc b → Vector.stacked rs acc' b).
Proof.
  induction todo as [|agent todo IH]; intros acc acc' Hnd Hfold.
  - simpl in Hfold. injection Hfold as <-. split; [|done].
    intros rs b Hb. by apply elem_of_nil in Hb.
  - apply NoDup_cons in Hnd as [Hnotin Hnd]. simpl in Hfold.
    destruct (Vector.step_wait_agent _ _ _ _ _ _ _) as [acc1|] eqn:Hstep;
      simpl in Hfold; [|done].
    apply step_wait_agent_stacked in Hstep as [Hsame Hother].
    destruct (IH acc1 acc' Hnd Hfold) as [Hin Hout]. split.
    + intros rs b Hb Hacc. apply elem_of_cons in Hb as [->|Hb].
      * apply Hout; [done|]. by apply Hsame.
      * apply Hin; [done|]. apply Hother; [|done]. by intros ->.
    + intros rs b Hb Hacc. apply not_elem_of_cons in Hb as [Hne Hb].
      apply Hout; [done|]. by apply Hother.
Qed.

Lemma step_wait_conn_pending self st i conn r success rest :
  Vector.unread conn = Vector.reply_step r success :: rest →
  Vector.step_wait_conn float_zero np_cast self st (i, conn) =
    acc ← foldlM (Vector.step_wait_agent float_zero np_cast self r i) st.2
             (Vector.agents self);
    Ok (st.1 ++ [Vector.received conn], acc).
Proof.
  intros Hun. unfold Vector.step_wait_conn, Vector.recv_on, Vector.received.
  rewrite Hun. done.
Qed.

Lemma step_wait_conns_stacked self
    (conns : list (Vector.Connection Obs Rew Float Space Env)) :
  ∀ rs start st st' seen,
  NoDup (Vector.agents self) →
  Forall2 (λ conn r, ∃ success rest,
             Vector.unread conn = Vector.reply_step r success :: rest) conns rs →
  foldlM (Vector.step_wait_conn float_zero np_cast self) st
    (imap (λ j conn, ((start + j)%nat, conn)) conns) = Ok st' →
  (∀ b, b ∈ Vector.agents self → Vector.stacked seen st.2 b) →
  st'.1 = st.1 ++ (Vector.received <$> conns) ∧
  ∀ b, b ∈ Vector.agents self → Vector.stacked (seen ++ rs) st'.2 b.
Proof.
  induction conns as [|conn conns IH]; intros rs start st st' seen Hnd Hrs Hfold Hseen.
  - apply Forall2_nil_inv_l in Hrs as ->. simpl in Hfold.
    injection Hfold as <-. rewrite !app_nil_r. done.
  - apply Forall2_cons_inv_l in Hrs as (r & rs' & (success & rest & Hun) & Hrs & ->).
    cbn [imap foldlM] in Hfold.
    rewrite (step_wait_conn_pending self st _ conn r success rest Hun) in Hfold.
    destruct (foldlM (Vector.step_wait_agent _ _ _ _ _) _ _) as [acc1|] eqn:Hagents;
      simpl in Hfold; [|done].
    destruct (step_wait_agents_stacked _ _ _ _ _ _ Hnd Hagents) as [Hin _].
    erewrite imap_ext in Hfold.
    2:{ intros j c _. simpl.
        replace (start + S j)%nat with (S start + j)%nat by lia. done. }
    destruct (IH rs' (S start) _ st' (seen ++ [r]) Hnd Hrs Hfold) as [Hconns Hst'].
    { intros b Hb. simpl. apply Hin; [done|]. by apply Hseen. }
    simpl in Hconns. split.
    + rewrite Hconns, <-app_assoc. done.
    + intros b Hb. specialize (Hst' b Hb). by rewrite <-app_assoc in Hst'.
Qed.

Lemma step_wait_total self (replies : list (Vector.StepResult Obs Rew Float)) :
  Vector.num_envs self = length (Vector.parent_conns self) →
  Vector.agents self ≠ [] →
  NoDup (Vector.agents self) →
  Forall2 (λ conn r, ∃ success rest,
             Vector.unread conn = Vector.reply_step r success :: rest)
    (Vector.parent_conns self) replies →
  (∀ r agent, r ∈ replies → agent ∈ Vector.agents self → Vector.covers r agent) →
  Vector.no_mask_clash (Vector.reported_by replies) →
  Vector.stored_unchanged np_cast (Vector.reported_by replies) →
  np_cast Vector.np_bool (Vector.py_bool true) = Ok (Vector.py_bool true) →
  ∃ self' stacks,
    Vector.step_wait float_zero np_cast self = Ok (self', stacks) ∧
    Vector.waiting self' = false ∧
    Vector.parent_conns self' = Vector.received <$> Vector.parent_conns self ∧
    ∀ agent, agent ∈ Vector.agents self → Vector.stacked replies stacks agent.
Proof.
  intros Hn Hags Hnd Hconns Hcov Hclash Hcast Htrue.
  pose proof (Forall2_length _ _ _ Hconns) as Hlen.
  unfold Vector.step_wait. cbv zeta.
  match goal with |- context [foldlM _ ([], ?a) _] => set (acc0 := a) end.
  destruct (step_wait_conns_inv float_zero np_cast (Vector.reported_by replies)
              Hclash Hcast Htrue (Vector.num_envs self) self
              (Vector.parent_conns self) replies 0%nat ([], acc0) ∅)
    as (st' & R' & Hfold & _); [done|done|done|lia| | | | |].
  - intros j r Hj. split.
    + intros k. unfold Vector.reported_by. simpl. by rewrite Hj.
    + intros agent Hagent. apply Hcov; [|done].
      by apply list_elem_of_lookup_2 in Hj.
  - intros agent Hagent. simpl. split_and!; by apply empty_stack_lookup.
  - apply inv_empty.
  - intros j k v Hj. lia.
  - destruct (step_wait_conns_stacked self (Vector.parent_conns self) replies
                0%nat ([], acc0) st' [] Hnd Hconns Hfold) as [Hst1 Hst2].
    { intros b Hb. unfold Vector.stacked, Vector.column. simpl.
      split_and!; exists []; (split; [by apply empty_stack_nil|constructor]). }
    match goal with
    | |- context [foldlM ?f ?a ?l] =>
        replace (foldlM f a l) with (Ok st') by (symmetry; exact Hfold)
    end.
    destruct st' as [conns' acc']. simpl in *.
    eexists _, _. split_and!; [reflexivity|done|done|done].
Qed.

(** X9.  Under the conditions of the info merge and with pairwise different
    agents, [step_wait] takes exactly the oldest unread reply of each
    worker, and stacks the results in worker order: for every agent, the
    lists of observations, rewards and termination and truncation flags
    hold the agent's entry of worker 0's reply first, then that of
    worker 1's, and so on. *)
Theorem step_wait_worker_order self
    (replies : list (Vector.StepResult Obs Rew Float)) :
  Vector.num_envs self = length (Vector.parent_conns self) →
  Vector.agents self ≠ [] →
  NoDup (Vector.agents self) →
  Forall2 (λ conn r, ∃ success rest,
             Vector.unread conn = Vector.reply_step r success :: rest)
    (Vector.parent_conns self) replies →
  (∀ r agent, r ∈ replies → agent ∈ Vector.agents self → Vector.covers r agent) →
  Vector.no_mask_clash (Vector.reported_by replies) →
  Vector.stored_unchanged np_cast (Vector.reported_by replies) →
  np_cast Vector.np_bool (Vector.py_bool true) = Ok (Vector.py_bool true) →
  ∃ self' stacks,
    Vector.step_wait float_zero np_cast self = Ok (self', stacks) ∧
    Vector.parent_conns self' = Vector.received <$> Vector.parent_conns self ∧
    ∀ agent, agent ∈ Vector.agents self →
      ∃ os xs ts us,
        Vector.observations stacks !! agent = Some os ∧
        Vector.rewards stacks !! agent = Some xs ∧
        Vector.terminateds stacks !! agent = Some ts ∧
        Vector.truncateds stacks !! agent = Some us ∧
        Forall2 (λ r o, Vector.step_obs r !! agent = Some o) replies os ∧
        Forall2 (λ r x, Vector.step_rew r !! agent = Some x) replies xs ∧
        Forall2 (λ r t, Vector.step_terminated r !! agent = Some t) replies ts ∧
        Forall2 (λ r u, Vector.step_truncated r !! agent = Some u) replies us.
Proof.
  intros Hn Hags Hnd Hconns Hcov Hclash Hcast Htrue.
  destruct (step_wait_total self replies Hn Hags Hnd Hconns Hcov Hclash Hcast Htrue)
    as (self' & stacks & Hwait & _ & Hrecv & Hstacked).
  exists self', stacks. split_and!; [done..|].
  intros agent Hagent.
  destruct (Hstacked agent Hagent)
    as ((os & ? & ?) & (xs & ? & ?) & (ts & ? & ?) & (us & ? & ?)).
  by exists os, xs, ts, us.
Qed.

End OrderFacts.

Lemma step_wait_worker_order_witness :
  let replies := [Vector.counter_result 1; Vector.counter_result 1] in
  ∃ self' stacks,
    Vector.step_wait 0 Vector.np_cast_same_type Vector.counter_pool_pending
      = Ok (self', stacks) ∧
    Vector.parent_conns self'
      = Vector.received <$> Vector.parent_conns Vector.counter_pool_pending ∧
    ∀ agent, agent ∈ Vector.agents Vector.counter_pool_pending →
      ∃ os xs ts us,
        Vector.observations stacks !! agent = Some os ∧
        Vector.rewards stacks !! agent = Some xs ∧
        Vector.terminateds stacks !! agent = Some ts ∧
        Vector.truncateds stacks !! agent = Some us ∧
        Forall2 (λ r o, Vector.step_obs r !! agent = Some o) replies os ∧
        Forall2 (λ r x, Vector.step_rew r !! agent = Some x) replies xs ∧
        Forall2 (λ r t, Vector.step_terminated r !! agent = Some t) replies ts ∧
        Forall2 (λ r u, Vector.step_truncated r !! agent = Some u) replies us.
Proof.
  intros replies.
  assert (∀ i k v, Vector.reported_by replies i k = Some v →
                   k = "count" ∧ v = Vector.py_int 1) as Hrep.
  { intros [|[|i]] k v; unfold Vector.reported_by; simpl; try done;
      by case_decide; intros; simplify_eq. }
  apply (step_wait_worker_order 0 Vector.np_cast_same_type
           Vector.counter_pool_pending replies).
  - reflexivity.
  - discriminate.
  - apply NoDup_singleton.
  - repeat constructor; eexists _, _; reflexivity.
  - intros r agent Hr Hagent.
    apply list_elem_of_singleton in Hagent as ->.
    assert (r = Vector.counter_result 1) as ->.
    { subst replies. apply elem_of_cons in Hr as [?|Hr]; [done|].
      by apply list_elem_of_singleton in Hr. }
    repeat split; vm_compute; eauto.
  - intros i j k [v Hv]. apply Hrep in Hv as [-> ->].
    by destruct j as [|[|j]].
  - intros k j0 v0 j w [Hv _] Hw.
    apply Hrep in Hv as [-> ->]. apply Hrep in Hw as [_ ->]. reflexivity.
  - reflexivity.
Defined.

(** ** The pool: close, use after close, and the synchronous step *)

Section CloseFacts.

Context {Obs Rew Act Float Space Env : Type}.
Context `{!Vector.ParallelEnv Obs Rew Act Float Space Env}.
Context `{!Vector.StartMethod}.
Variable float_zero : Float.
Variable np_cast :
  Vector.np_dtype → Vector.pyval Obs Float → result (Vector.pyval Obs Float).

Implicit Types (self : Vector.SubProcVecParallelEnv Obs Rew Float Space Env).
Implicit Types (conn : Vector.Connection Obs Rew Float Space Env).
Implicit Types (actions : gmap string (list Act)).

Lemma recv_received (h : bool) conn :
  Vector.unread conn ≠ [] →
  fst <$> Vector.recv_on h conn = Ok (Vector.received conn).
Proof.
  intros Hun. unfold Vector.recv_on, Vector.received.
  by destruct (Vector.unread conn).
Qed.

Lemma send_close (h : bool) conn :
  Vector.worker_status conn = Vector.running →
  Vector.send_on h conn "close" None = Ok (Vector.closed_worker conn).
Proof. intros Hrun. unfold Vector.send_on. by rewrite Hrun. Qed.

Lemma send_close_gone (h : bool) conn conn' :
  Vector.send_on h conn "close" None = Ok conn' →
  Vector.is_running conn' = false.
Proof.
  unfold Vector.send_on, Vector.is_running.
  destruct (Vector.worker_status conn) eqn:Hst.
  - by intros [= <-].
  - destruct h; [|done]. intros [= <-]. by rewrite Hst.
  - destruct h; [|done]. intros [= <-]. by rewrite Hst.
Qed.

Lemma send_gone conn cmd data :
  Vector.is_running conn = false →
  Vector.send_on false conn cmd data = Raise BrokenPipeError.
Proof.
  unfold Vector.send_on, Vector.is_running.
  by destruct (Vector.worker_status conn).
Qed.

Lemma held_gone (conns : list (Vector.Connection Obs Rew Float Space Env)) :
  Forall (λ conn, Vector.is_running conn = false) conns →
  Vector.held conns = false.
Proof.
  intros Hall. unfold Vector.held.
  assert (existsb Vector.is_running conns = false) as ->;
    [|by destruct Vector.fork].
  induction Hall as [|conn conns Hc _ IH]; [done|].
  simpl. by rewrite Hc, IH.
Qed.

(** X10.  [close] on an open pool whose workers are running, and have a reply
    waiting if a step is pending, returns normally: it first takes the
    pending reply of each worker, then tells every worker to close its
    environment and exit, and marks the pool closed. *)
Theorem close_exits_workers self :
  Vector.closed self = false →
  Forall (λ conn, Vector.worker_status conn = Vector.running ∧
                  (Vector.waiting self = true → Vector.unread conn ≠ []))
    (Vector.parent_conns self) →
  Vector.close self =
    Ok {| Vector.waiting := Vector.waiting self; Vector.closed := true;
          Vector.parent_conns :=
            (λ conn, Vector.closed_worker
                       (if Vector.waiting self then Vector.received conn
                        else conn))
              <$> Vector.parent_conns self;
          Vector.agents := Vector.agents self;
          Vector.num_agents := Vector.num_agents self;
          Vector.observation_spaces := Vector.observation_spaces self;
          Vector.action_spaces := Vector.action_spaces self;
          Vector.num_envs := Vector.num_envs self |}.
Proof.
  intros Hclosed Hconns. unfold Vector.close. rewrite Hclosed.
  destruct (Vector.waiting self) eqn:Hwaiting.
  - assert (mapM (λ conn, fst <$> Vector.recv_on
                                     (Vector.held (Vector.parent_conns self)) conn)
              (Vector.parent_conns self)
            = Ok (Vector.received <$> Vector.parent_conns self)) as ->.
    { apply mapM_Ok, Forall2_fmap_r, Forall_Forall2_diag.
      eapply Forall_impl; [exact Hconns|].
      intros conn [_ Hun]. apply recv_received. by apply Hun. }
    simpl.
    rewrite (for_conns_Ok _ _ ((λ conn, Vector.closed_worker (Vector.received conn))
                                 <$> Vector.parent_conns self)); [done|].
    rewrite <-list_fmap_compose.
    apply Forall2_fmap, Forall_Forall2_diag.
    eapply Forall_impl; [exact Hconns|].
    intros conn [Hrun _] h. by apply send_close.
  - simpl.
    rewrite (for_conns_Ok _ _ (Vector.closed_worker <$> Vector.parent_conns self));
      [done|].
    apply Forall2_fmap, Forall_Forall2_diag.
    eapply Forall_impl; [exact Hconns|].
    intros conn [Hrun _] h. by apply send_close.
Qed.

(** X11.  After a [close] that returned, the pool is closed for good: a second
    [close] changes nothing, and a [step_async] with an action for every
    worker raises [BrokenPipeError], since no method but [close] looks at
    the [closed] flag and the workers have exited. *)
Theorem closed_pool_rejects_steps self self' actions :
  Vector.closed self = false →
  Vector.close self = Ok self' →
  Vector.closed self' = true ∧
  Vector.close self' = Ok self' ∧
  (Vector.parent_conns self ≠ [] →
   map_Forall (λ _ action,
                 (length (Vector.parent_conns self) ≤ length action)%nat) actions →
   Vector.step_async self' actions = Raise BrokenPipeError).
Proof.
  intros Hclosed. unfold Vector.close at 1. rewrite Hclosed.
  destruct (if Vector.waiting self then _ else _) as [conns0|] eqn:Hrecv;
    simpl; [|done].
  destruct (Vector.for_conns _ [] _) as [conns'|] eqn:Hsend; simpl; [|done].
  intros [= <-]. split; [done|]. split; [done|].
  intros Hne Hact.
  assert (length conns0 = length (Vector.parent_conns self)) as Hlen0.
  { destruct (Vector.waiting self); [|by injection Hrecv as <-].
    apply mapM_Ok, Forall2_length in Hrecv. done. }
  apply for_conns_inv in Hsend as (results & -> & Hsend). simpl.
  pose proof (Forall2_length _ _ _ Hsend) as Hlen'.
  rewrite length_fmap in Hlen'.
  assert (Forall (λ conn, Vector.is_running conn = false) results) as Hgone.
  { apply Forall_forall. intros conn' [i Hi]%list_elem_of_lookup_1.
    destruct (Forall2_lookup_r _ _ _ i conn' Hsend Hi) as (ca & _ & h & Hconn').
    by apply send_close_gone in Hconn'. }
  unfold Vector.step_async. simpl.
  rewrite unstack_all by (by rewrite <-Hlen', Hlen0).
  simpl.
  destruct Hgone as [|conn' conns' Hconn' Hgone].
  { destruct (Vector.parent_conns self); [done|]. simpl in *. lia. }
  cbn [length seq fmap list_fmap zip zip_with Vector.for_conns app].
  rewrite held_gone.
  - by rewrite (send_gone conn' _ _ Hconn').
  - rewrite fst_zip; [done|]. by rewrite length_fmap, length_seq.
Qed.

(** X12.  The synchronous [step] on an idle pool.  When every worker is
    running with an empty pipe and its environment answers the step with
    a reply that meets the conditions of the info merge, [step] returns
    the stacked replies in worker order and leaves the pool idle again:
    not waiting, every worker running on its stepped environment, every
    pipe empty. *)
Theorem step_on_idle_pool self actions
    (outs : list (Env * Vector.StepResult Obs Rew Float)) :
  Vector.num_envs self = length (Vector.parent_conns self) →
  Vector.agents self ≠ [] →
  NoDup (Vector.agents self) →
  map_Forall (λ _ action,
                (length (Vector.parent_conns self) ≤ length action)%nat) actions →
  Forall2 (λ '(i, conn) o,
             Vector.worker_status conn = Vector.running ∧
             Vector.unread conn = [] ∧
             Vector.worker_round (Vector.worker_env conn) "step"
               (Some (omap (λ action, action !! i) actions))
             = (o.1, Vector.sends (Vector.reply_step o.2 true)))
    (imap (λ i conn, (i, conn)) (Vector.parent_conns self)) outs →
  (∀ r agent, r ∈ outs.*2 → agent ∈ Vector.agents self → Vector.covers r agent) →
  Vector.no_mask_clash (Vector.reported_by outs.*2) →
  Vector.stored_unchanged np_cast (Vector.reported_by outs.*2) →
  np_cast Vector.np_bool (Vector.py_bool true) = Ok (Vector.py_bool true) →
  ∃ self' stacks,
    Vector.step float_zero np_cast self actions = Ok (self', stacks) ∧
    Vector.waiting self' = false ∧
    Vector.parent_conns self'
      = (λ o, Vector.mkConnection o.1 Vector.running []) <$> outs ∧
    ∀ agent, agent ∈ Vector.agents self → Vector.stacked outs.*2 stacks agent.
Proof.
  intros Hn Hags Hnd Hact Hrounds Hcov Hclash Hcast Htrue.
  set (conns1 := (λ o : Env * Vector.StepResult Obs Rew Float,
                    Vector.mkConnection (Space:=Space) o.1 Vector.running
                      [Vector.reply_step o.2 true]) <$> outs).
  assert (length outs = length (Vector.parent_conns self)) as Hlen.
  { apply Forall2_length in Hrounds. by rewrite length_imap in Hrounds. }
  assert (Vector.step_async self actions =
            Ok {| Vector.waiting := true; Vector.closed := Vector.closed self;
                  Vector.parent_conns := conns1;
                  Vector.agents := Vector.agents self;
                  Vector.num_agents := Vector.num_agents self;
                  Vector.observation_spaces := Vector.observation_spaces self;
                  Vector.action_spaces := Vector.action_spaces self;
                  Vector.num_envs := Vector.num_envs self |}) as Hasync.
  { unfold Vector.step_async.
    rewrite (unstack_all _ _ Hact). simpl.
    rewrite (send_all_zip _ actions 0%nat conns1); [done| |].
    - apply Forall_forall. intros conn [i Hi]%list_elem_of_lookup_1.
      destruct (Forall2_lookup_l _ _ _ i (i, conn) Hrounds) as (o & _ & Hrun & _);
        [|done].
      by rewrite list_lookup_imap, Hi.
    - subst conns1. apply Forall2_fmap_r.
      eapply Forall2_impl; [exact Hrounds|].
      intros [i conn] o (Hrun & Hun & Hround). simpl.
      unfold Vector.send, Vector.send_on. by rewrite Hrun, Hround, Hun. }
  unfold Vector.step. rewrite Hasync. simpl.
  match goal with
  | |- context [Vector.step_wait _ _ ?s] =>
      destruct (step_wait_total float_zero np_cast s outs.*2)
        as (self' & stacks & Hwait & Hw & Hrecv & Hstacked)
  end; simpl; try done.
  - subst conns1. rewrite length_fmap. lia.
  - subst conns1. apply Forall2_fmap, Forall_Forall2_diag, Forall_forall.
    intros o _. simpl. eauto.
  - exists self', stacks. split_and!; [done|done| |done].
    rewrite Hrecv. simpl. subst conns1. rewrite <-list_fmap_compose. done.
Qed.

End CloseFacts.

Lemma close_exits_workers_witness :
  Vector.close Vector.counter_pool_pending =
    Ok {| Vector.waiting := true; Vector.closed := true;
          Vector.parent_conns :=
            (λ conn, Vector.closed_worker
                       (if Vector.waiting Vector.counter_pool_pending
                        then Vector.received conn else conn))
              <$> Vector.parent_conns Vector.counter_pool_pending;
          Vector.agents := [Vector.counter_agent]; Vector.num_agents := 1;
          Vector.observation_spaces := {[ Vector.counter_agent := tt ]};
          Vector.action_spaces := {[ Vector.counter_agent := tt ]};
          Vector.num_envs := 2 |}.
Proof.
  apply (close_exits_workers Vector.counter_pool_pending).
  - reflexivity.
  - repeat constructor; discriminate.
Defined.

Lemma closed_pool_rejects_steps_witness :
  ∃ self',
    Vector.close Vector.counter_pool = Ok self' ∧
    Vector.closed self' = true ∧
    Vector.close self' = Ok self' ∧
    (Vector.parent_conns Vector.counter_pool ≠ [] →
     map_Forall (λ _ action,
                   (length (Vector.parent_conns Vector.counter_pool)
                    ≤ length action)%nat) Vector.counter_actions →
     Vector.step_async self' Vector.counter_actions = Raise BrokenPipeError).
Proof.
  eexists. split; [reflexivity|].
  apply (closed_pool_rejects_steps Vector.counter_pool _ Vector.counter_actions);
    reflexivity.
Defined.

Lemma step_on_idle_pool_witness :
  let outs := [(1, Vector.counter_result 1); (1, Vector.counter_result 1)] in
  ∃ self' stacks,
    Vector.step 0 Vector.np_cast_same_type Vector.counter_pool
      Vector.counter_actions = Ok (self', stacks) ∧
    Vector.waiting self' = false ∧
    Vector.parent_conns self'
      = (λ o, Vector.mkConnection o.1 Vector.running []) <$> outs ∧
    ∀ agent, agent ∈ Vector.agents Vector.counter_pool →
      Vector.stacked outs.*2 stacks agent.
Proof.
  intros outs.
  assert (∀ i k v, Vector.reported_by outs.*2 i k = Some v →
                   k = "count" ∧ v = Vector.py_int 1) as Hrep.
  { intros [|[|i]] k v; unfold Vector.reported_by; simpl; try done;
      by case_decide; intros; simplify_eq. }
  apply (step_on_idle_pool 0 Vector.np_cast_same_type Vector.counter_pool
           Vector.counter_actions outs).
  - reflexivity.
  - discriminate.
  - apply NoDup_singleton.
  - apply map_Forall_singleton. simpl. lia.
  - repeat constructor.
  - intros r agent Hr Hagent.
    apply list_elem_of_singleton in Hagent as ->.
    assert (r = Vector.counter_result 1) as ->.
    { subst outs. simpl in Hr. apply elem_of_cons in Hr as [?|Hr]; [done|].
      by apply list_elem_of_singleton in Hr. }
    repeat split; vm_compute; eauto.
  - intros i j k [v Hv]. apply Hrep in Hv as [-> ->].
    by destruct j as [|[|j]].
  - intros k j0 v0 j w [Hv _] Hw.
    apply Hrep in Hv as [-> ->]. apply Hrep in Hw as [_ ->]. reflexivity.
  - reflexivity.
Defined.

(** ** stack *)

Lemma mapM_imap {A B C} (f : A → result C) (h : B → result C) (l : list B) :
  ∀ g : nat → B → A,
  (∀ i x, l !! i = Some x → f (g i x) = h x) →
  mapM f (imap g l) = mapM h l.
Proof.
  induction l as [|x l IH]; intros g Hg; [done|].
  cbn [imap mapM]. rewrite (Hg 0%nat x eq_refl).
  rewrite (IH (g ∘ S)); [done|].
  intros i y Hi. apply (Hg (S i) y Hi).
Qed.

Lemma foldl_min_le (l : list nat) : ∀ a,
  (foldl Nat.min a l ≤ a)%nat ∧ Forall (λ x, (foldl Nat.min a l ≤ x)%nat) l.
Proof.
  induction l as [|x l IH]; intros a; simpl; [by split|].
  destruct (IH (a `min` x)%nat) as [H1 H2]. split; [lia|].
  constructor; [lia|done].
Qed.

Lemma foldl_min_same (l : list nat) a :
  Forall (λ x, x = a) l → foldl Nat.min a l = a.
Proof.
  induction l as [|x l IH]; intros Hl; simpl; [done|].
  apply Forall_cons in Hl as [-> Hl]. rewrite Nat.min_id. by apply IH.
Qed.

Section StackFacts.

Context {V W : Type}.
Variable np_stack : list V → result W.

Implicit Types (x : list (string * V)) (xs rest : list (list (string * V))).

Lemma dict_get_position x : ∀ i k,
  NoDup (Vector.dict_keys x) → Vector.dict_keys x !! i = Some k →
  Vector.dict_get x k = x.*2 !! i.
Proof.
  unfold Vector.dict_keys.
  induction x as [|[k' v] x IH]; intros i k Hnd Hi; [done|].
  simpl in *. apply NoDup_cons in Hnd as [Hnotin Hnd].
  destruct i as [|i]; simpl in Hi.
  - injection Hi as ->. by rewrite decide_True.
  - rewrite decide_False; [by apply IH|].
    intros ->. apply Hnotin. by apply list_elem_of_lookup_2 in Hi.
Qed.

Lemma omap_rows x xs i k :
  NoDup (Vector.dict_keys x) →
  Forall (λ x', Vector.dict_keys x' = Vector.dict_keys x) xs →
  Vector.dict_keys x !! i = Some k →
  omap (λ row : list V, row !! i) ((λ x', x'.*2) <$> xs)
  = omap (λ x', Vector.dict_get x' k) xs.
Proof.
  intros Hnd Hall Hi.
  induction Hall as [|x' xs' Hx' _ IH]; [done|].
  cbn [fmap list_fmap omap list_omap].
  rewrite (dict_get_position x' i k) by (by rewrite Hx').
  fold (omap (λ x', Vector.dict_get x' k) xs'). rewrite <-IH. done.
Qed.

Lemma zip_star_length_le (rows : list (list V)) row :
  row ∈ rows → (length (Vector.zip_star rows) ≤ length row)%nat.
Proof.
  destruct rows as [|row0 rows]; [by intros ?%elem_of_nil|].
  intros Hin. unfold Vector.zip_star. rewrite length_fmap, length_seq.
  destruct (foldl_min_le (length <$> rows) (length row0)) as [H0 Hle].
  apply elem_of_cons in Hin as [->|Hin]; [done|].
  rewrite Forall_fmap, Forall_forall in Hle. by apply Hle.
Qed.

(** X13.  On dicts that list the same keys in the same order, [stack] returns
    one entry per key of the first dict, in its order: the [np.stack] of
    the values that the dicts hold under that key, taken in list order
    ([np.stack] may refuse them). *)
Theorem stack_aligned x rest :
  NoDup (Vector.dict_keys x) →
  Forall (λ x', Vector.dict_keys x' = Vector.dict_keys x) rest →
  Vector.stack np_stack (x :: rest) =
    mapM (λ k, a ← np_stack (omap (λ x', Vector.dict_get x' k) (x :: rest));
               Ok (k, a))
      (Vector.dict_keys x).
Proof.
  intros Hnd Hkeys. unfold Vector.stack.
  apply mapM_imap. intros i k Hi.
  assert (Forall (λ x', Vector.dict_keys x' = Vector.dict_keys x) (x :: rest))
    as Hall by (by constructor).
  assert (length x.*2 = length (Vector.dict_keys x)) as Hlen.
  { unfold Vector.dict_keys. by rewrite !length_fmap. }
  unfold Vector.zip_star. cbn [fmap list_fmap].
  rewrite foldl_min_same.
  2:{ apply Forall_fmap, Forall_fmap. eapply Forall_impl; [exact Hkeys|].
      intros x' Hx'. simpl. rewrite Hlen, <-Hx'. unfold Vector.dict_keys.
      by rewrite !length_fmap. }
  rewrite list_lookup_fmap, lookup_seq_lt.
  2:{ rewrite Hlen. by apply lookup_lt_Some in Hi. }
  cbn [fmap option_fmap option_map].
  by rewrite <-(omap_rows x (x :: rest) i k Hnd Hall Hi).
Qed.

(** X14.  [stack] never returns on ragged input: when some later dict has
    fewer entries than the first one, the call raises. *)
Theorem stack_ragged x rest x' :
  x' ∈ rest → (length x' < length x)%nat →
  ∃ e, Vector.stack np_stack (x :: rest) = Raise e.
Proof.
  intros Hin Hlt.
  destruct (Vector.stack np_stack (x :: rest)) as [d|e] eqn:Hstack; [|by eexists].
  exfalso. unfold Vector.stack in Hstack. apply mapM_Ok in Hstack.
  set (vs := Vector.zip_star ((λ x, x.*2) <$> x :: rest)) in *.
  assert (length vs < length x)%nat as Hm.
  { pose proof (zip_star_length_le ((λ x, x.*2) <$> x :: rest) x'.*2) as Hle.
    rewrite length_fmap in Hle. fold vs in Hle.
    assert (length vs ≤ length x')%nat; [|lia].
    apply Hle, list_elem_of_fmap. exists x'. split; [done|by right]. }
  destruct (lookup_lt_is_Some_2 (Vector.dict_keys x) (length vs)) as [k Hk].
  { unfold Vector.dict_keys. by rewrite length_fmap. }
  assert (imap (λ i k, (i, k)) (Vector.dict_keys x) !! length vs
          = Some (length vs, k)) as Himap.
  { by rewrite list_lookup_imap, Hk. }
  destruct (Forall2_lookup_l _ _ _ _ _ Hstack Himap) as (y & _ & Hy).
  cbv beta iota in Hy. by rewrite (lookup_ge_None_2 vs (length vs)) in Hy.
Qed.

End StackFacts.

Lemma stack_aligned_witness :
  Vector.stack (λ l : list Z, Ok l)
    ([("a", 1); ("b", 2)] :: [[("a", 3); ("b", 4)]]) =
    mapM (λ k, a ← (λ l : list Z, Ok l)
                     (omap (λ x', Vector.dict_get x' k)
                        ([("a", 1); ("b", 2)] :: [[("a", 3); ("b", 4)]]));
               Ok (k, a))
      (Vector.dict_keys [("a", 1); ("b", 2)]).
Proof.
  apply (stack_aligned (λ l : list Z, Ok l) [("a", 1); ("b", 2)]
           [[("a", 3); ("b", 4)]]).
  - unfold Vector.dict_keys. simpl.
    apply NoDup_cons. split; [|apply NoDup_singleton].
    intros Hin. apply list_elem_of_singleton in Hin. discriminate Hin.
  - repeat constructor.
Defined.

Lemma stack_ragged_witness :
  ∃ e, Vector.stack (λ l : list Z, Ok l)
         ([("a", 1); ("b", 2)] :: [[("a", 3)]]) = Raise e.
Proof.
  apply (stack_ragged (λ l : list Z, Ok l) [("a", 1); ("b", 2)]
           [[("a", 3)]] [("a", 3)]).
  - apply list_elem_of_singleton. reflexivity.
  - simpl. lia.
Defined.

(** ** tile_images *)

(** X15.  For a batch of [N] images, [0 < N < 2^52], [tile_images] returns an
    image of [H] rows and [W] columns of tiles, where [H] is the least
    integer with [N ≤ H * H] and [W] the least integer with [N ≤ H * W].
    The grid holds all the images and fewer than [H] blank tiles; it is
    square or has one row more than it has columns, and it is a [k] by
    [k] square when [N] is [k * k].  The padding makes the reshape
    succeed. *)
Theorem tile_images_grid N h w c :
  0 < N → N < 2 ^ 52 →
  let H := Z.sqrt_up N in
  let W := - (- N / H) in
  Vector.tile_images N h w c = Ok (H * h, W * w, c) ∧
  N ≤ H * W < N + H ∧
  W ≤ H ≤ W + 1 ∧
  ∀ k, 0 ≤ k → N = k * k → H = k ∧ W = k.
Proof.
  intros Hpos _ H W.
  pose proof (Z.sqrt_up_spec N Hpos) as [Hlow Hup]. fold H in Hlow, Hup.
  assert (0 < H) as HH by (by apply Z.sqrt_up_pos).
  pose proof (Z.div_mod (- N) H ltac:(lia)) as Hdiv.
  pose proof (Z.mod_pos_bound (- N) H HH) as Hmod.
  assert (N ≤ H * W < N + H) as Hfit by (subst W; nia).
  split_and!.
  - unfold Vector.tile_images. fold H. fold W.
    destruct (Z.eqb_spec H 0) as [|_]; [lia|].
    replace (N + Z.max 0 (H * W - N)) with (H * W) by lia.
    by rewrite Z.eqb_refl.
  - lia.
  - lia.
  - nia.
  - nia.
  - intros k Hk ->. assert (H = k) as Heq.
    { subst H. by apply Z.sqrt_up_square. }
    split; [done|]. rewrite Heq in Hfit. nia.
Qed.

Lemma tile_images_grid_witness :
  let H := Z.sqrt_up 5 in
  let W := - (- 5 / H) in
  Vector.tile_images 5 8 8 3 = Ok (H * 8, W * 8, 3) ∧
  5 ≤ H * W < 5 + H ∧
  W ≤ H ≤ W + 1 ∧
  ∀ k, 0 ≤ k → 5 = k * k → H = k ∧ W = k.
Proof. apply (tile_images_grid 5 8 8 3); lia. Defined.

(** Without any image the grid has no rows, and the division that
    computes its width raises. *)
Lemma tile_images_none h w c :
  Vector.tile_images 0 h w c = Raise ZeroDivisionError.
Proof. reflexivity. Qed.

(** ** The agents: keys of an interaction, update schedule, diagnostics *)

Section InteractKeysFacts.

Context {Key Obs Action : Type} `{!Sampling Key Action}.

Implicit Types (key : Key) (d : list (string * Obs)).

Lemma agent_keys_of_spec d : ∀ key,
  (agent_keys_of key d).1 = Nat.iter (length d) (λ k, (nextkey k).1) key ∧
  (agent_keys_of key d).2.*1 = d.*1 ∧
  ∀ i, (i < length d)%nat →
    (agent_keys_of key d).2.*2 !! i
    = Some (nextkey (Nat.iter i (λ k, (nextkey k).1) key)).2.
Proof.
  induction d as [|[a o] d IH]; intros key.
  - simpl. split_and!; [done..|]. intros i Hi. lia.
  - cbn [agent_keys_of length]. specialize (IH (nextkey key).1).
    setoid_rewrite Nat.iter_succ_r.
    destruct (nextkey key) as [key1 k] eqn:Hnext. cbn [fst] in IH.
    destruct (agent_keys_of key1 d) as [key' ks].
    cbn [fst snd fmap list_fmap] in *.
    destruct IH as (IH1 & IH2 & IH3). split_and!.
    + done.
    + by rewrite IH2.
    + intros [|i] Hi.
      * simpl. by rewrite Hnext.
      * rewrite Nat.iter_succ_r, Hnext. apply IH3. lia.
Qed.

(** X16.  The keys of one interaction.  In parallel mode an observation that
    is not a dict makes the entry points fail, and a dict observation
    gets one key per agent, under the agents' names and in their order:
    the key of the agent at position [i] is the one returned by the
    [i+1]-th call of [nextkey], and the agent's key state has advanced
    once per agent.  Outside parallel mode a single key is drawn,
    whatever the observation is. *)
Theorem interact_keys_per_agent key d (o : Obs) (observation : per_agent Obs) :
  interact_keys true key (single o) = Raise AttributeError ∧
  (∃ ks,
     interact_keys true key (parallel_dict d)
       = Ok (Nat.iter (length d) (λ k, (nextkey k).1) key, parallel_dict ks) ∧
     ks.*1 = d.*1 ∧
     ∀ i, (i < length d)%nat →
       ks.*2 !! i = Some (nextkey (Nat.iter i (λ k, (nextkey k).1) key)).2) ∧
  interact_keys false key observation
    = Ok ((nextkey key).1, single (nextkey key).2).
Proof.
  split_and!.
  - done.
  - destruct (agent_keys_of_spec d key) as (H1 & H2 & H3).
    unfold interact_keys.
    destruct (agent_keys_of key d) as [key' ks]. simpl in *.
    exists ks. by rewrite H1.
  - unfold interact_keys. by destruct (nextkey key).
Qed.

End InteractKeysFacts.

Section ScheduleFacts.

Context {F OptState Key Shape Sample Batch Obs Action : Type}.
Context `{!FloatOps F} `{!Sampling Key Action}.

(** X17.  The update schedule of TD3.  [should_update] records the step in
    the agent in every case.  While the buffer holds fewer than
    [batch_size] items the answer is no, whatever [skip_steps] is; once
    it holds enough, a [skip_steps] of zero raises [ZeroDivisionError],
    and otherwise the answer is yes exactly when the step is a multiple
    of [skip_steps] and not below [start_step]. *)
Theorem td3_should_update_schedule
    (batch_size : TD3.AlgoConfig F Shape → Z)
    (self : TD3.TD3 F OptState Key Shape Sample Batch Obs Action)
    (step len_buffer : Z) :
  let params := TD3.algo_params (TD3.config self) in
  let r := TD3.should_update batch_size self step len_buffer in
  r.1 = TD3.with_step self step ∧
  TD3.step r.1 = step ∧
  (len_buffer < batch_size (TD3.config self) → r.2 = Ok false) ∧
  (batch_size (TD3.config self) ≤ len_buffer →
   TD3.skip_steps params = 0 → r.2 = Raise ZeroDivisionError) ∧
  (batch_size (TD3.config self) ≤ len_buffer →
   TD3.skip_steps params ≠ 0 →
   r.2 = Ok (bool_decide ((TD3.skip_steps params | step) ∧
                          TD3.start_step params ≤ step))).
Proof.
  intros params r. subst r. unfold TD3.should_update. simpl. fold params.
  split_and!; [done|done|..].
  - intros Hlt. by rewrite (proj2 (Z.leb_gt _ _) Hlt).
  - intros Hle Hskip. rewrite (proj2 (Z.leb_le _ _) Hle), Hskip. done.
  - intros Hle Hskip.
    rewrite (proj2 (Z.leb_le _ _) Hle), (proj2 (Z.eqb_neq _ _) Hskip). simpl.
    destruct (Z.eqb_spec (step mod TD3.skip_steps params) 0) as [Hmod|Hmod];
      simpl; f_equal.
    + apply Z.mod_divide in Hmod; [|done].
      destruct (Z.leb_spec (TD3.start_step params) step).
      * by rewrite bool_decide_eq_true_2.
      * rewrite bool_decide_eq_false_2; [done|]. intros [_ ?]. lia.
    + rewrite bool_decide_eq_false_2; [done|].
      intros [Hdiv _]. by apply Z.mod_divide in Hdiv.
Qed.

(** X18.  Warm-up of TD3.  After [should_update] has recorded a step below
    [start_step] (with a non-zero [skip_steps]) no update is due, and
    the next [explore] returns a uniform random action drawn with a
    fresh key in place of the action of the policy. *)
Theorem td3_warm_up (batch_size : TD3.AlgoConfig F Shape → Z)
    (self : TD3.TD3 F OptState Key Shape Sample Batch Obs Action)
    (step len_buffer : Z) (observation : per_agent Obs)
    (key' : Key) (keys : per_agent Key) :
  TD3.skip_steps (TD3.algo_params (TD3.config self)) ≠ 0 →
  step < TD3.start_step (TD3.algo_params (TD3.config self)) →
  interact_keys (TD3.parallel self) (TD3.key self) observation = Ok (key', keys) →
  let r := TD3.should_update batch_size self step len_buffer in
  let a :=
    (TD3.explore_fn self (TD3.policy_state (TD3.state self)) keys observation
       (TD3.action_noise (TD3.algo_params (TD3.config self)))).1 in
  let action := uniform (nextkey key').2 a in
  r.2 = Ok false ∧
  TD3.explore r.1 observation
    = Ok (TD3.with_key (TD3.with_step self step) (nextkey key').1,
          (action, zeros_like action)).
Proof.
  intros Hskip Hlt Hkeys r a action. subst r. split.
  - unfold TD3.should_update. simpl.
    destruct (_ <=? len_buffer); [|done]. simpl.
    rewrite (proj2 (Z.eqb_neq _ _) Hskip).
    destruct (_ =? 0); [|done]. simpl. f_equal. lia.
  - unfold TD3.explore, TD3.should_update. simpl. rewrite Hkeys. simpl.
    subst action a.
    destruct (TD3.explore_fn self _ _ _ _) as [a0 log_prob]. simpl.
    rewrite (proj2 (Z.ltb_lt _ _) Hlt).
    by destruct (nextkey key').
Qed.

(** X19.  The update schedule of DQN: no while the buffer holds fewer than
    [batch_size] items, whatever [skip_steps] is; with enough items, a
    [skip_steps] of zero raises [ZeroDivisionError], and otherwise the
    answer is yes exactly on the multiples of [skip_steps]. *)
Theorem dqn_should_update_schedule
    (batch_size : DQN.DQN F OptState Key Obs Action → Z)
    (self : DQN.DQN F OptState Key Obs Action) (step len_buffer : Z) :
  let skip := DQN.skip_steps (DQN.algo_params self) in
  let r := DQN.should_update batch_size self step len_buffer in
  (len_buffer < batch_size self → r = Ok false) ∧
  (batch_size self ≤ len_buffer → skip = 0 → r = Raise ZeroDivisionError) ∧
  (batch_size self ≤ len_buffer → skip ≠ 0 →
   r = Ok (bool_decide (skip | step))).
Proof.
  intros skip r. subst r. unfold DQN.should_update. fold skip. split_and!.
  - intros Hlt. by rewrite (proj2 (Z.leb_gt _ _) Hlt).
  - intros Hle Hskip. rewrite (proj2 (Z.leb_le _ _) Hle), Hskip. done.
  - intros Hle Hskip.
    rewrite (proj2 (Z.leb_le _ _) Hle), (proj2 (Z.eqb_neq _ _) Hskip). simpl.
    f_equal.
    destruct (Z.eqb_spec (step mod skip) 0) as [Hmod|Hmod].
    + rewrite bool_decide_eq_true_2; [done|]. by apply Z.mod_divide.
    + rewrite bool_decide_eq_false_2; [done|].
      intros Hdiv. by apply Z.mod_divide in Hdiv.
Qed.

End ScheduleFacts.

Lemma td3_warm_up_witness :
  let self :=
    TD3.with_state
      {| TD3.config :=
           TD3.mkAlgoConfig
             {| TD3.gamma := 1; TD3.skip_steps := 2; TD3.tau := 1;
                TD3.action_noise := 2; TD3.policy_update_frequency := 2;
                TD3.target_noise_std := 0; TD3.target_noise_clip := 0;
                TD3.start_step := 10 |} tt tt;
         TD3.state := TD3.state TD3.example_agent;
         TD3.key := []; TD3.step := 0; TD3.parallel := false;
         TD3.saver := TD3.saver TD3.example_agent;
         TD3.explore_fn := TD3.explore_fn TD3.example_agent;
         TD3.process_experience_fn :=
           TD3.process_experience_fn TD3.example_agent |}
      (TD3.state TD3.example_agent) in
  let r := TD3.should_update (λ _, 1) self 4 1 in
  let a :=
    (TD3.explore_fn self (TD3.policy_state (TD3.state self))
       (single [(2, 1)%nat]) (single 1)
       (TD3.action_noise (TD3.algo_params (TD3.config self)))).1 in
  let action := uniform (nextkey [(2, 0)%nat]).2 a in
  r.2 = Ok false ∧
  TD3.explore r.1 (single 1)
    = Ok (TD3.with_key (TD3.with_step self 4) (nextkey [(2, 0)%nat]).1,
          (action, zeros_like action)).
Proof.
  intros self.
  apply (td3_warm_up (λ _, 1) self 4 1 (single 1) [(2, 0)%nat]
           (single [(2, 1)%nat])).
  - simpl. lia.
  - simpl. lia.
  - reflexivity.
Defined.

Ltac in_key_list :=
  repeat (apply elem_of_cons; first [by left | right]).

Section DiagnosticsFacts.

Context {F OptState : Type} `{!FloatOps F} `{!Optimizer F OptState}.
Context {Key Shape Batch : Type}.

Implicit Types (p q a : Train.TrainState F OptState) (batch : Batch).

(** X20.  The diagnostics of a TD3 update step, for sub-states with targets
    and a non-zero [policy_update_frequency].  [loss_qvalue] is the
    q-value loss at the params the step starts from.  On a step that
    updates the policy, [loss_policy] is the policy loss computed against
    the q-value params after their gradient step, and [total_loss] is the
    sum of the two; on any other step there is no [loss_policy] and
    [total_loss] is the q-value loss plus zero.  There is no other
    entry. *)
Theorem td3_update_diagnostics
    (qvalue_value_and_grad : Params F → Batch → F * Params F)
    (policy_value_and_grad : Params F → Params F → Batch → F * Params F)
    (config : TD3.AlgoConfig F Shape) p q batch (step : Z) :
  Train.structure_preserving → Train.has_target p → Train.has_target q →
  TD3.policy_update_frequency (TD3.algo_params config) ≠ 0 →
  let loss_qvalue := (qvalue_value_and_grad (Train.params q) batch).1 in
  let q1 :=
    Train.apply_gradients q (qvalue_value_and_grad (Train.params q) batch).2 in
  let loss_policy :=
    (policy_value_and_grad (Train.params p) (Train.params q1) batch).1 in
  let updates :=
    bool_decide
      (step mod TD3.policy_update_frequency (TD3.algo_params config) = 0) in
  ∃ q' p' info,
    TD3.update_step_fn qvalue_value_and_grad policy_value_and_grad
      config p q batch step = Ok (q', p', info) ∧
    info !! "loss_qvalue" = Some loss_qvalue ∧
    info !! "loss_policy" = (if updates then Some loss_policy else None) ∧
    info !! "total_loss"
      = Some (fadd loss_qvalue (if updates then loss_policy else fzero)) ∧
    ∀ k, is_Some (info !! k) → k ∈ ["loss_qvalue"; "loss_policy"; "total_loss"].
Proof.
  intros Hopt Hp Hq Hfreq loss_qvalue q1 loss_policy updates.
  subst loss_qvalue q1 loss_policy updates.
  unfold TD3.update_step_fn, TD3.update_qvalue_fn.
  destruct (qvalue_value_and_grad _ _) as [lq gq]. simpl.
  rewrite (proj2 (Z.eqb_neq _ _) Hfreq).
  pose proof (has_target_apply_gradients q gq Hopt Hq) as Hq1.
  destruct (Z.eqb_spec (step mod TD3.policy_update_frequency (TD3.algo_params config)) 0)
    as [Hmod|Hmod].
  - rewrite bool_decide_eq_true_2 by done.
    unfold TD3.update_policy_fn.
    destruct (policy_value_and_grad _ _ _) as [lp gp]. simpl.
    pose proof (has_target_apply_gradients p gp Hopt Hp) as Hp1.
    destruct (updated_target_ok _ (TD3.tau (TD3.algo_params config)) Hp1)
      as (oldp & tp & _ & -> & _).
    destruct (updated_target_ok _ (TD3.tau (TD3.algo_params config)) Hq1)
      as (oldq & tq & _ & -> & _).
    simpl. eexists _, _, _. split; [reflexivity|]. split_and!.
    + rewrite lookup_insert_ne by done.
      rewrite lookup_union_r by (by apply lookup_singleton_ne).
      by rewrite lookup_singleton_eq.
    + rewrite lookup_insert_ne by done.
      apply lookup_union_Some_l. by rewrite lookup_singleton_eq.
    + by rewrite lookup_insert_eq.
    + intros k [v Hk].
      apply lookup_insert_Some in Hk as [[<- _]|[_ Hk]]; [in_key_list|].
      apply lookup_union_Some_raw in Hk as [Hk|[_ Hk]];
        apply lookup_singleton_Some in Hk as [<- _]; in_key_list.
  - rewrite bool_decide_eq_false_2 by done.
    simpl. eexists _, _, _. split; [reflexivity|]. split_and!.
    + rewrite lookup_insert_ne by done.
      rewrite (left_id_L ∅ (∪)). by rewrite lookup_singleton_eq.
    + rewrite lookup_insert_ne by done.
      rewrite (left_id_L ∅ (∪)). by apply lookup_singleton_ne.
    + by rewrite lookup_insert_eq.
    + intros k [v Hk].
      apply lookup_insert_Some in Hk as [[<- _]|[_ Hk]]; [in_key_list|].
      rewrite (left_id_L ∅ (∪)) in Hk.
      apply lookup_singleton_Some in Hk as [<- _]. in_key_list.
Qed.

(** X21.  The diagnostics of a SAC update step, for policy and q-value
    sub-states with targets: the q-value loss at the params the step
    starts from; the policy loss and entropy computed against the
    q-value params after their gradient step; the temperature loss and
    the temperature computed against the policy params after their
    gradient step; and [total_loss], the sum of the three losses.  There
    is no other entry. *)
Theorem sac_update_diagnostics
    (qvalue_value_and_grad : Params F → Batch → F * Params F)
    (policy_value_and_grad :
       Params F → Params F → Params F → Batch → F * F * Params F)
    (alpha_value_and_grad :
       Key → Params F → Params F → Batch → F * F * Params F)
    (config : SAC.AlgoConfig F Shape) (state : SAC.SACTrainState F OptState)
    (key : Key) batch :
  Train.structure_preserving →
  Train.has_target (SAC.policy_state state) →
  Train.has_target (SAC.qvalue_state state) →
  let q := SAC.qvalue_state state in
  let p := SAC.policy_state state in
  let a := SAC.alpha_state state in
  let rq := qvalue_value_and_grad (Train.params q) batch in
  let q1 := Train.apply_gradients q rq.2 in
  let rp :=
    policy_value_and_grad (Train.params p) (Train.params q1) (Train.params a)
      batch in
  let p1 := Train.apply_gradients p rp.2 in
  let ra := alpha_value_and_grad key (Train.params p1) (Train.params a) batch in
  ∃ state' info,
    SAC.update_step_fn qvalue_value_and_grad policy_value_and_grad
      alpha_value_and_grad config state key batch = Ok (state', info) ∧
    info !! "loss_qvalue" = Some rq.1 ∧
    info !! "loss_policy" = Some rp.1.1 ∧
    info !! "entropy" = Some rp.1.2 ∧
    info !! "loss_alpha" = Some ra.1.1 ∧
    info !! "alpha" = Some ra.1.2 ∧
    info !! "total_loss" = Some (fadd (fadd rq.1 rp.1.1) ra.1.1) ∧
    ∀ k, is_Some (info !! k) →
      k ∈ ["loss_qvalue"; "loss_policy"; "entropy"; "loss_alpha"; "alpha";
           "total_loss"].
Proof.
  intros Hopt Hp Hq q p a rq q1 rp p1 ra. subst q p a rq q1 rp p1 ra.
  unfold SAC.update_step_fn, SAC.update_qvalue_fn, SAC.update_policy_fn,
    SAC.update_alpha_fn.
  destruct (qvalue_value_and_grad _ _) as [lq gq]. simpl.
  destruct (policy_value_and_grad _ _ _ _) as [[lp entropy] gp].
  pose proof (has_target_apply_gradients _ gq Hopt Hq) as Hq1.
  pose proof (has_target_apply_gradients _ gp Hopt Hp) as Hp1.
  destruct (updated_target_ok _ (SAC.tau (SAC.algo_params config)) Hp1)
    as (oldp & tp & _ & -> & _).
  destruct (updated_target_ok _ (SAC.tau (SAC.algo_params config)) Hq1)
    as (oldq & tq & _ & -> & _).
  simpl.
  destruct (alpha_value_and_grad _ _ _ _) as [[la al] ga].
  eexists _, _. split; [reflexivity|]. simpl.
  assert (∀ k v,
            (<["total_loss" := fadd (fadd lq lp) la]>
               (({[ "loss_alpha" := la; "alpha" := al ]} : gmap string F) ∪
                ({[ "loss_policy" := lp; "entropy" := entropy ]} ∪
                 {[ "loss_qvalue" := lq ]}))) !! k = Some v ↔
            (k = "total_loss" ∧ v = fadd (fadd lq lp) la) ∨
            (k = "loss_alpha" ∧ v = la) ∨ (k = "alpha" ∧ v = al) ∨
            (k = "loss_policy" ∧ v = lp) ∨ (k = "entropy" ∧ v = entropy) ∨
            (k = "loss_qvalue" ∧ v = lq)) as Hinfo.
  { intros k v.
    rewrite lookup_insert_Some, !lookup_union_Some_raw, !lookup_insert_Some,
      !lookup_insert_None, !lookup_singleton_Some, !lookup_singleton_None.
    split.
    - intros [[<- <-]|[? [[[<- <-]|[? [<- <-]]]|[_ [[[<- <-]|[? [<- <-]]]|[_ [<- <-]]]]]]];
        eauto 10.
    - intros [[-> ->]|[[-> ->]|[[-> ->]|[[-> ->]|[[-> ->]|[-> ->]]]]]].
      + by left.
      + right. split; [done|]. left. by left.
      + right. split; [done|]. left. right. by split.
      + right. split; [done|]. right. split; [done|]. left. by left.
      + right. split; [done|]. right. split; [done|]. left. right. by split.
      + right. split; [done|]. right. split; [done|]. right. by split. }
  split_and!; try (apply Hinfo; eauto 10; fail).
  intros k [v Hk]. apply Hinfo in Hk.
  destruct Hk as [[-> _]|[[-> _]|[[-> _]|[[-> _]|[[-> _]|[-> _]]]]]]; in_key_list.
Qed.

End DiagnosticsFacts.

Lemma td3_update_diagnostics_witness :
  let q := TD3.example_qvalue in
  let p := TD3.example_policy in
  let loss_qvalue := (TD3.example_qvalue_grad (Train.params q) tt).1 in
  let q1 :=
    Train.apply_gradients q (TD3.example_qvalue_grad (Train.params q) tt).2 in
  let loss_policy :=
    (TD3.example_policy_grad (Train.params p) (Train.params q1) tt).1 in
  let updates :=
    bool_decide
      (4 mod TD3.policy_update_frequency (TD3.algo_params TD3.example_config)
       = 0) in
  ∃ q' p' info,
    TD3.update_step_fn TD3.example_qvalue_grad TD3.example_policy_grad
      TD3.example_config p q tt 4 = Ok (q', p', info) ∧
    info !! "loss_qvalue" = Some loss_qvalue ∧
    info !! "loss_policy" = (if updates then Some loss_policy else None) ∧
    info !! "total_loss"
      = Some (fadd loss_qvalue (if updates then loss_policy else fzero)) ∧
    ∀ k, is_Some (info !! k) → k ∈ ["loss_qvalue"; "loss_policy"; "total_loss"].
Proof.
  apply (td3_update_diagnostics TD3.example_qvalue_grad TD3.example_policy_grad
           TD3.example_config TD3.example_policy TD3.example_qvalue tt 4).
  - apply lowering_structure_preserving.
  - eexists. split; reflexivity.
  - eexists. split; reflexivity.
  - simpl. lia.
Defined.

Lemma sac_update_diagnostics_witness :
  let q := SAC.qvalue_state SAC.example_state in
  let p := SAC.policy_state SAC.example_state in
  let a := SAC.alpha_state SAC.example_state in
  let rq := SAC.example_qvalue_grad (Train.params q) tt in
  let q1 := Train.apply_gradients q rq.2 in
  let rp :=
    SAC.example_policy_grad (Train.params p) (Train.params q1) (Train.params a)
      tt in
  let p1 := Train.apply_gradients p rp.2 in
  let ra := SAC.example_alpha_grad [] (Train.params p1) (Train.params a) tt in
  ∃ state' info,
    SAC.update_step_fn SAC.example_qvalue_grad SAC.example_policy_grad
      SAC.example_alpha_grad SAC.example_config SAC.example_state [] tt
      = Ok (state', info) ∧
    info !! "loss_qvalue" = Some rq.1 ∧
    info !! "loss_policy" = Some rp.1.1 ∧
    info !! "entropy" = Some rp.1.2 ∧
    info !! "loss_alpha" = Some ra.1.1 ∧
    info !! "alpha" = Some ra.1.2 ∧
    info !! "total_loss" = Some (fadd (fadd rq.1 rp.1.1) ra.1.1) ∧
    ∀ k, is_Some (info !! k) →
      k ∈ ["loss_qvalue"; "loss_policy"; "entropy"; "loss_alpha"; "alpha";
           "total_loss"].
Proof.
  apply (sac_update_diagnostics SAC.example_qvalue_grad SAC.example_policy_grad
           SAC.example_alpha_grad SAC.example_config SAC.example_state [] tt).
  - apply lowering_structure_preserving.
  - eexists. split; reflexivity.
  - eexists. split; reflexivity.
Defined.

(** ** TD3: the TD targets between two policy updates *)

Section TargetsFacts.

Context {F OptState : Type} `{!FloatOps F} `{!Optimizer F OptState}.
Context {Key Shape Batch Array Dist : Type}.

Variable policy_apply : option (Params F) → Array → F → Dist.
Variable qvalue_apply : option (Params F) → Array → Array → Array * Array.
Variable dist_sample : Dist → Z → Array.
Variable normal : Key → Array → Array.
Variable fneg : F → F.
Variable scale : F → Array → Array.
Variable clip : Array → F → F → Array.
Variable add : Array → Array → Array.
Variable minimum : Array → Array → Array.
Variable expand_last : Array → Array.
Variable one_minus : Array → Array.
Variable compute_td_targets : Array → Array → Array → Array.

Abbreviation process_experience :=
  (TD3.process_experience policy_apply qvalue_apply dist_sample normal fneg
     scale clip add minimum expand_last one_minus compute_td_targets).

Lemma process_experience_targets_only (algo_params : TD3.TD3Params F)
    (s1 s2 : TD3.TD3TrainState F OptState) (key : Key) experience :
  Train.target_params (TD3.policy_state s1)
    = Train.target_params (TD3.policy_state s2) →
  Train.target_params (TD3.qvalue_state s1)
    = Train.target_params (TD3.qvalue_state s2) →
  process_experience algo_params s1 key experience
  = process_experience algo_params s2 key experience.
Proof. intros Hp Hq. unfold TD3.process_experience. by rewrite Hp, Hq. Qed.

(** X22.  TD3 computes its TD targets from the target params alone, so an
    update step that does not update the policy leaves them in place:
    for sub-states with targets and a step that is no multiple of the
    non-zero [policy_update_frequency], the update step takes its
    gradient step on the q-value sub-state, and [process_experience] on
    the state after the step returns, for every key and experience, what
    it returns on the state before. *)
Theorem td3_targets_between_policy_updates
    (qvalue_value_and_grad : Params F → Batch → F * Params F)
    (policy_value_and_grad : Params F → Params F → Batch → F * Params F)
    (config : TD3.AlgoConfig F Shape) (p q : Train.TrainState F OptState)
    (batch : Batch) (step : Z) :
  Train.structure_preserving → Train.has_target p → Train.has_target q →
  TD3.policy_update_frequency (TD3.algo_params config) ≠ 0 →
  step mod TD3.policy_update_frequency (TD3.algo_params config) ≠ 0 →
  ∃ q' p' info,
    TD3.update_step_fn qvalue_value_and_grad policy_value_and_grad
      config p q batch step = Ok (q', p', info) ∧
    Train.step q' = Train.step q + 1 ∧
    ∀ (key : Key) experience,
      process_experience (TD3.algo_params config)
        {| TD3.policy_state := p'; TD3.qvalue_state := q' |} key experience
      = process_experience (TD3.algo_params config)
          {| TD3.policy_state := p; TD3.qvalue_state := q |} key experience.
Proof.
  intros Hopt Hp Hq Hfreq Hmod.
  destruct (td3_update_step qvalue_value_and_grad policy_value_and_grad
              config p q batch step Hopt Hp Hq Hfreq)
    as (q' & p' & info & Hup & Hstep & _ & Hsame).
  destruct (Hsame Hmod) as [-> Htarget].
  exists q', p, info. split_and!; [done..|].
  intros key experience. by apply process_experience_targets_only.
Qed.

End TargetsFacts.

Lemma td3_targets_between_policy_updates_witness :
  ∃ q' p' info,
    TD3.update_step_fn TD3.example_qvalue_grad TD3.example_policy_grad
      TD3.example_config TD3.example_policy TD3.example_qvalue tt 1
      = Ok (q', p', info) ∧
    Train.step q' = Train.step TD3.example_qvalue + 1 ∧
    ∀ (key : list (nat * nat)) experience,
      TD3.process_experience
        (λ params (a : Z) (x : Z), (default 0 (params ≫= lookup "w"), a, x))
        (λ params a b, (default 0 (params ≫= lookup "v") + a, b))
        (λ d _, d.1.1) (λ key a, Z.of_nat (length key)) Z.opp Z.mul
        (λ a lo hi, Z.max lo (Z.min a hi)) Z.add Z.min id (λ a, 1 - a)
        (λ r d v, r + d * v)
        (TD3.algo_params TD3.example_config)
        {| TD3.policy_state := p'; TD3.qvalue_state := q' |} key experience
      = TD3.process_experience
        (λ params (a : Z) (x : Z), (default 0 (params ≫= lookup "w"), a, x))
        (λ params a b, (default 0 (params ≫= lookup "v") + a, b))
        (λ d _, d.1.1) (λ key a, Z.of_nat (length key)) Z.opp Z.mul
        (λ a lo hi, Z.max lo (Z.min a hi)) Z.add Z.min id (λ a, 1 - a)
        (λ r d v, r + d * v)
        (TD3.algo_params TD3.example_config)
        {| TD3.policy_state := TD3.example_policy;
           TD3.qvalue_state := TD3.example_qvalue |} key experience.
Proof.
  apply (td3_targets_between_policy_updates
           (λ params (a : Z) (x : Z), (default 0 (params ≫= lookup "w"), a, x))
           (λ params a b, (default 0 (params ≫= lookup "v") + a, b))
           (λ d _, d.1.1) (λ key a, Z.of_nat (length key)) Z.opp Z.mul
           (λ a lo hi, Z.max lo (Z.min a hi)) Z.add Z.min id (λ a, 1 - a)
           (λ r d v, r + d * v)
           TD3.example_qvalue_grad TD3.example_policy_grad
           TD3.example_config TD3.example_policy TD3.example_qvalue tt 1).
  - apply lowering_structure_preserving.
  - eexists. split; reflexivity.
  - eexists. split; reflexivity.
  - simpl. lia.
  - vm_compute. discriminate.
Defined.

(** ** Policy and value modules *)

Lemma fmap_seq_const {A} (f : nat → A) (c : A) n : ∀ start,
  (∀ i, f i = c) → f <$> seq start n = replicate n c.
Proof.
  induction n as [|n IH]; intros start Hf; [done|].
  simpl. by rewrite Hf, IH.
Qed.

Section PolicyValueFacts.

Context {Preprocess F Key : Type} `{!PRNG Key}.
Variable module_init :
  Key → PolicyValue.module Preprocess → list (list nat) → gmap string (Params F).

Implicit Types (observation_space action_space : PolicyValue.space).
Implicit Types (modules : PolicyValue.PolicyValueModules Preprocess).

(** X23.  Which spaces the factory supports.  [create_policy_value_modules]
    returns modules exactly when the observation shape has one or three
    dimensions and the action space is [Discrete] or a [Box] with a
    non-empty shape; in particular a [Discrete] observation space, whose
    shape is empty, is refused. *)
Theorem create_policy_value_modules_supported observation_space action_space
    shared_encoder rearrange_pattern (preprocess_fn : option Preprocess) :
  (∃ modules,
     PolicyValue.create_policy_value_modules observation_space action_space
       shared_encoder rearrange_pattern preprocess_fn = Ok modules) ↔
  (length (PolicyValue.space_shape observation_space) = 1%nat ∨
   length (PolicyValue.space_shape observation_space) = 3%nat) ∧
  ((∃ n, action_space = PolicyValue.Discrete n) ∨
   (∃ shape, action_space = PolicyValue.Box shape ∧ shape ≠ [])).
Proof.
  unfold PolicyValue.create_policy_value_modules, PolicyValue.encoder_factory.
  split.
  - intros [modules Hm]. split.
    + repeat case_decide; auto. done.
    + destruct action_space as [n|shape|shape].
      * left. by exists n.
      * right. exists shape. split; [done|]. intros ->.
        repeat case_decide; done.
      * repeat case_decide; done.
  - intros [Hobs Hact].
    assert (∃ encoder,
              (if decide (length (PolicyValue.space_shape observation_space) = 1%nat)
               then Ok (PolicyValue.VectorEncoder preprocess_fn)
               else if decide (length (PolicyValue.space_shape observation_space)
                               = 3%nat)
               then Ok (PolicyValue.VisionEncoder rearrange_pattern preprocess_fn)
               else Raise NotImplementedError) = Ok encoder) as [encoder ->].
    { repeat case_decide; eauto. lia. }
    simpl.
    destruct Hact as [[n ->]|(shape & -> & Hshape)]; simpl.
    + destruct shared_encoder; eauto.
    + destruct (last shape) as [n|] eqn:Hlast.
      * simpl. destruct shared_encoder; eauto.
      * by apply last_None in Hlast.
Qed.

(** X24.  With a shared encoder, the heads fit the encoder: the modules that
    [create_policy_value_modules] returns have an encoder whose last
    layer has as many features as the [hidden_shape] on which
    [create_params_policy_value] initialises the policy and value
    heads (512 for images, 64 for vectors), each head with its own third
    of the key. *)
Theorem shared_heads_fit_encoder observation_space action_space
    rearrange_pattern (preprocess_fn : option Preprocess) modules :
  PolicyValue.create_policy_value_modules observation_space action_space
    true rearrange_pattern preprocess_fn = Ok modules →
  ∃ width,
    PolicyValue.out_features (PolicyValue.encoder modules) = Some width ∧
    ∀ (key : Key) tabulate,
      let params :=
        PolicyValue.create_params_policy_value module_init key modules
          observation_space true tabulate in
      PolicyValue.params_policy params =
        Train.init_params module_init (split key 3 !!! 1%fin)
          (PolicyValue.policy modules) [[width]] tabulate ∧
      PolicyValue.params_value params =
        Train.init_params module_init (split key 3 !!! 2%fin)
          (PolicyValue.value modules) [[width]] tabulate.
Proof.
  unfold PolicyValue.create_policy_value_modules, PolicyValue.encoder_factory,
    PolicyValue.create_params_policy_value, PolicyValue.hidden_shape.
  intros Hm.
  destruct (decide (length (PolicyValue.space_shape observation_space) = 1%nat))
    as [H1|H1]; simpl in Hm.
  - destruct (PolicyValue.policy_output_factory action_space); simpl in Hm; [|done].
    destruct (match action_space with
              | PolicyValue.Discrete n => Ok n
              | _ => _
              end); simpl in Hm; [|done].
    injection Hm as <-. exists 64%nat. split; [done|].
    intros key tabulate. rewrite decide_False by lia. done.
  - destruct (decide (length (PolicyValue.space_shape observation_space) = 3%nat))
      as [H3|H3]; simpl in Hm; [|done].
    destruct (PolicyValue.policy_output_factory action_space); simpl in Hm; [|done].
    destruct (match action_space with
              | PolicyValue.Discrete n => Ok n
              | _ => _
              end); simpl in Hm; [|done].
    injection Hm as <-. exists 512%nat. split; [done|].
    intros key tabulate. done.
Qed.

(** X25.  Every member of a population starts from the same parameters:
    [train_state_policy_value_population_factory] creates the parameters
    of each member from the one key it is given, so that the list is the
    parameters of a single member, repeated [population_size] times. *)
Theorem population_shares_parameters (key : Key) modules observation_space
    shared_encoder tabulate population_size :
  PolicyValue.params_population module_init key modules observation_space
    shared_encoder tabulate population_size =
  replicate population_size
    (PolicyValue.create_params_policy_value module_init key modules
       observation_space shared_encoder false).
Proof.
  unfold PolicyValue.params_population. apply fmap_seq_const.
  intros i. reflexivity.
Qed.

End PolicyValueFacts.

Lemma shared_heads_fit_encoder_witness :
  let module_init (key : list (nat * nat)) (m : PolicyValue.module unit)
        (shapes : list (list nat)) : gmap string (Params Z) :=
    {[ "params" := {[ "w" := Z.of_nat (length key) ]} ]} in
  let modules :=
    {| PolicyValue.encoder := PolicyValue.VisionEncoder "b h w c -> b h w c" None;
       PolicyValue.policy := PolicyValue.PolicyCategoricalOutput 4;
       PolicyValue.value := PolicyValue.ValueOutput |} in
  ∃ width,
    PolicyValue.out_features (PolicyValue.encoder modules) = Some width ∧
    ∀ (key : list (nat * nat)) tabulate,
      let params :=
        PolicyValue.create_params_policy_value module_init key modules
          (PolicyValue.Box [84; 84; 4]%nat) true tabulate in
      PolicyValue.params_policy params =
        Train.init_params module_init (split key 3 !!! 1%fin)
          (PolicyValue.policy modules) [[width]] tabulate ∧
      PolicyValue.params_value params =
        Train.init_params module_init (split key 3 !!! 2%fin)
          (PolicyValue.value modules) [[width]] tabulate.
Proof.
  intros module_init modules.
  apply (shared_heads_fit_encoder module_init (PolicyValue.Box [84; 84; 4]%nat)
           (PolicyValue.Discrete 4) "b h w c -> b h w c" None modules).
  reflexivity.
Defined.
